(** * VideoGen control plane: a shallow embedding and its verified properties

    The development embeds the control-plane code of the repository
    (orchestrator, worker, cost ledger, rate limiter, job routes, queue
    service, Redis client wrapper, the connection registry of the SSE hub,
    prompt validation) as executable Rocq functions over an explicit world
    state, and proves properties of those functions.

    Conventions.
    - Money ([Decimal] in the source) is an integer number of hundredths.
      The sums that the budget checks compute are sums of [Decimal]s and
      are exact.  The total that a charge writes goes through a float
      ([float(new_total)], read back as [Decimal(str(...))]); a whole
      number of cents of at most fifteen significant digits comes back as
      it was written, and the column is modelled as holding the number
      itself.  Amounts below a cent and the rounding of larger totals are
      outside the model: a property that depends on the total a charge has
      written says no more than the rounding keeps (the order of the
      amounts), or it is about given amounts.
    - Python exceptions are values of [Exn]; a computation is a function
      from the world to a result (a value or a raised exception) and the
      next world.
    - Every call that leaves the process (relational store, broker) goes
      through [io], which consumes one entry of the world's fault schedule:
      the call either raises the scheduled exception or is performed.
    - One caller runs at a time: locks and semaphores have no effect.
    - Strings are ASCII.  The clock is read where the code reads it and
      passed as an argument. *)

From Stdlib Require Import ZArith List Bool Lia Sorted QArith Ascii.
From stdpp Require Import gmap strings list pretty sorting.

Local Open Scope string_scope.
Local Open Scope Z_scope.

(** ** shared/errors.py *)

Module Errors.

(** The exception classes the control plane raises or catches.  The first
    five derive from [PipelineError] in the source; [HTTPException] is
    FastAPI's; [ImportError] is Python's; [OtherException] stands for any
    other subclass of [Exception] (driver errors, [ValueError], ...). *)
Inductive Exn : Type :=
| PipelineError (message : string) (code : option string)
| BudgetExceededError (message : string) (code : option string)
| RetryableError (message : string) (code : option string)
| ValidationError (message : string) (code : option string)
| RateLimitError (message : string) (retry_after : Z) (code : option string)
| HTTPException (status_code : Z) (detail : string)
| ImportError (message : string)
| OtherException (message : string).

(** [isinstance(e, PipelineError)], subclasses included. *)
Definition is_PipelineError (e : Exn) : bool :=
  match e with
  | PipelineError _ _ | BudgetExceededError _ _ | RetryableError _ _
  | ValidationError _ _ | RateLimitError _ _ _ => true
  | _ => false
  end.

Definition is_BudgetExceededError (e : Exn) : bool :=
  match e with BudgetExceededError _ _ => true | _ => false end.

Definition is_RetryableError (e : Exn) : bool :=
  match e with RetryableError _ _ => true | _ => false end.

Definition is_ImportError (e : Exn) : bool :=
  match e with ImportError _ => true | _ => false end.

Definition is_HTTPException (e : Exn) : bool :=
  match e with HTTPException _ _ => true | _ => false end.

Definition is_ValidationError (e : Exn) : bool :=
  match e with ValidationError _ _ => true | _ => false end.

Definition is_RateLimitError (e : Exn) : bool :=
  match e with RateLimitError _ _ _ => true | _ => false end.

(** [str(e)].  The classes of the repository pass their message to
    [Exception.__init__]; [HTTPException] prints its status code and its
    detail. *)
Definition str (e : Exn) : string :=
  match e with
  | PipelineError m _ | BudgetExceededError m _ | RetryableError m _
  | ValidationError m _ | RateLimitError m _ _ => m
  | HTTPException c d => pretty c +:+ ": " +:+ d
  | ImportError m | OtherException m => m
  end.

(** [getattr(e, "code", default)]: the attribute exists (possibly [None])
    on the [PipelineError] family only. *)
Definition getattr_code (e : Exn) (default : string) : option string :=
  match e with
  | PipelineError _ c | BudgetExceededError _ c | RetryableError _ c
  | ValidationError _ c | RateLimitError _ _ c => c
  | _ => Some default
  end.

End Errors.
Export Errors.

(** ** Data model *)

(** [Decimal], in hundredths. *)
Definition Decimal := Z.

(** Printing of a cost that was stored through [float(...)] and read back
    through [Decimal(str(...))]: the shortest decimal expansion, with at
    least one fractional digit. *)
Definition str_float (c : Decimal) : string :=
  let sign := if c <? 0 then "-" else "" in
  let a := Z.abs c in
  let whole := pretty (a / 100) in
  let frac := a mod 100 in
  if frac mod 10 =? 0 then sign +:+ whole +:+ "." +:+ pretty (frac / 10)
  else sign +:+ whole +:+ "." +:+ pretty (frac / 10) +:+ pretty (frac mod 10).

(** Printing of a [Decimal] literal with two fractional digits. *)
Definition str_decimal2 (c : Decimal) : string :=
  let sign := if c <? 0 then "-" else "" in
  let a := Z.abs c in
  sign +:+ pretty (a / 100) +:+ "." +:+ pretty ((a mod 100) / 10)
       +:+ pretty ((a mod 100) mod 10).

(** A row of table [jobs] (the columns the control plane reads or writes). *)
Record JobRow : Type := mkJob {
  id : string;
  user_id : string;
  status : string;
  progress : Z;
  current_stage : option string;
  error_message : option string;
  video_url : option string;
  total_cost : Decimal;
  created_at : string
}.

(** The argument of [table("jobs").update({...})]: the columns present in
    the dictionary. *)
Record JobPatch : Type := mkPatch {
  p_status : option string;
  p_progress : option Z;
  p_current_stage : option string;
  p_error_message : option string;
  p_video_url : option string;
  p_total_cost : option Decimal
}.

Definition no_patch : JobPatch := mkPatch None None None None None None.

Definition or_else {A} (o : option A) (d : A) : A :=
  match o with Some a => a | None => d end.

Definition or_keep {A} (o : option A) (d : option A) : option A :=
  match o with Some a => Some a | None => d end.

Definition apply_patch (p : JobPatch) (j : JobRow) : JobRow :=
  {| id := id j;
     user_id := user_id j;
     status := or_else (p_status p) (status j);
     progress := or_else (p_progress p) (progress j);
     current_stage := or_keep (p_current_stage p) (current_stage j);
     error_message := or_keep (p_error_message p) (error_message j);
     video_url := or_keep (p_video_url p) (video_url j);
     total_cost := or_else (p_total_cost p) (total_cost j);
     created_at := created_at j |}.

(** A row of table [job_stages]. *)
Record StageRow : Type := mkStage {
  sr_job_id : string;
  sr_stage_name : string;
  sr_status : string;
  sr_fallback_mode : bool;
  sr_fallback_reason : string
}.

(** A row of table [job_costs]. *)
Record CostRow : Type := mkCost {
  cr_job_id : string;
  cr_stage_name : string;
  cr_api_name : string;
  cr_cost : Decimal
}.

(** The [data] dictionaries of the events the control plane publishes. *)
Inductive EventData : Type :=
| StageStarted (stage : string)
| StageCompleted (stage : string) (duration : option Z)
| ProgressData (progress : Z) (stage : string)
| ErrorData (error : string) (code : option string) (retryable : bool)
| CompletedData (video_url : string) (total_cost : Decimal).

(** The strings the control plane stores under broker keys: plain text, or
    the JSON document of a job row ([json.dumps(job)], read back with
    [json.loads]). *)
Inductive StrVal : Type :=
| Plain (s : string)
| JobDoc (j : JobRow).

(** Values held by the broker: a string or a sorted set (members with
    scores), together with the time to live last set on the key. *)
Inductive RVal : Type :=
| RStr (v : StrVal)
| RZSet (members : list (string * Z)).

Record REntry : Type := mkEntry { rval : RVal; ttl : option Z }.

(** What an observer of the store, the event bus, the SSE hub and the
    collaborators sees, in order. *)
Inductive Action : Type :=
| JobUpdate (job_id : string) (p : JobPatch)
| Publish (channel : string) (event_type : string) (data : EventData)
| Broadcast (job_id : string) (event_type : string) (data : EventData)
| Invoke (stage : string).

Record World : Type := mkWorld {
  jobs : list JobRow;
  job_stages : list StageRow;
  job_costs : list CostRow;
  kv : gmap string REntry;
  connections : gmap string (list (list (string * EventData)));
  trace : list Action;
  faults : list (option Exn)
}.

Definition set_jobs (js : list JobRow) (w : World) : World :=
  mkWorld js (job_stages w) (job_costs w) (kv w) (connections w) (trace w) (faults w).
Definition set_job_stages (ss : list StageRow) (w : World) : World :=
  mkWorld (jobs w) ss (job_costs w) (kv w) (connections w) (trace w) (faults w).
Definition set_job_costs (cs : list CostRow) (w : World) : World :=
  mkWorld (jobs w) (job_stages w) cs (kv w) (connections w) (trace w) (faults w).
Definition set_kv (m : gmap string REntry) (w : World) : World :=
  mkWorld (jobs w) (job_stages w) (job_costs w) m (connections w) (trace w) (faults w).
Definition set_connections (c : gmap string (list (list (string * EventData))))
    (w : World) : World :=
  mkWorld (jobs w) (job_stages w) (job_costs w) (kv w) c (trace w) (faults w).
Definition set_faults (fs : list (option Exn)) (w : World) : World :=
  mkWorld (jobs w) (job_stages w) (job_costs w) (kv w) (connections w) (trace w) fs.
Definition emit (a : Action) (w : World) : World :=
  mkWorld (jobs w) (job_stages w) (job_costs w) (kv w) (connections w)
          (trace w ++ [a]) (faults w).

(** ** The computation monad: state and exceptions *)

Inductive Res (A : Type) : Type :=
| Ok (a : A)
| Raise (e : Exn).
Arguments Ok {A} a.
Arguments Raise {A} e.

Definition M (A : Type) : Type := World -> Res A * World.

Definition ret {A} (a : A) : M A := fun w => (Ok a, w).
Definition raise {A} (e : Exn) : M A := fun w => (Raise e, w).
Definition bind {A B} (m : M A) (k : A -> M B) : M B :=
  fun w => match m w with
           | (Ok a, w') => k a w'
           | (Raise e, w') => (Raise e, w')
           end.
(** [try: m except Exception as e: h e] *)
Definition try_except {A} (m : M A) (h : Exn -> M A) : M A :=
  fun w => match m w with
           | (Ok a, w') => (Ok a, w')
           | (Raise e, w') => h e w'
           end.
(** [try: m finally: f] *)
Definition try_finally {A} (m : M A) (f : M unit) : M A :=
  fun w => match m w with
           | (r, w') =>
               match f w' with
               | (Ok _, w'') => (r, w'')
               | (Raise e, w'') => (Raise e, w'')
               end
           end.

Notation "x <- m ;; k" := (bind m (fun x => k))
  (at level 100, m at next level, right associativity).
Notation "m ;; k" := (bind m (fun _ => k))
  (at level 100, right associativity).

(** One call that leaves the process. *)
Definition io {A} (act : M A) : M A :=
  fun w => match faults w with
           | Some e :: fs => (Raise e, set_faults fs w)
           | None :: fs => act (set_faults fs w)
           | [] => act w
           end.

(** Logging has no effect on the modelled state. *)
Definition log : M unit := ret tt.

(** ** The Store Gateway *)

Module Store.

(** Modelled from the spec: shared/database.py (the Store Gateway,
    [DatabaseClient]) is not among the sources.  Spec 4.B: typed CRUD on the
    entities, with equality filter and limit.  An update applies the given
    columns to every row that satisfies the filter; a select returns the
    matching rows in the order the store yields them, which is the order of
    the list. *)
Definition update_job (job_id : string) (p : JobPatch) : M unit :=
  io (fun w =>
        (Ok tt,
         emit (JobUpdate job_id p)
              (set_jobs (List.map (fun j => if String.eqb (id j) job_id
                                            then apply_patch p j else j)
                                  (jobs w)) w))).

(** Modelled from the spec: shared/database.py is not among the sources;
    [select("*").eq("id", job_id)]. *)
Definition select_job (job_id : string) : M (list JobRow) :=
  io (fun w => (Ok (List.filter (fun j => String.eqb (id j) job_id) (jobs w)), w)).

(** Modelled from the spec: shared/database.py is not among the sources;
    [table("job_stages").insert(row)]. *)
Definition insert_stage (r : StageRow) : M unit :=
  io (fun w => (Ok tt, set_job_stages (job_stages w ++ [r]) w)).

(** Modelled from the spec: shared/database.py is not among the sources;
    [table("job_stages").select(...).eq("job_id", j).eq("stage_name", s)]. *)
Definition select_stage (job_id stage_name : string) : M (list StageRow) :=
  io (fun w =>
        (Ok (List.filter (fun r => String.eqb (sr_job_id r) job_id
                                   && String.eqb (sr_stage_name r) stage_name)
                         (job_stages w)), w)).

(** Modelled from the spec: shared/database.py is not among the sources;
    [table("job_costs").insert(row)]. *)
Definition insert_cost (r : CostRow) : M unit :=
  io (fun w => (Ok tt, set_job_costs (job_costs w ++ [r]) w)).

End Store.

(** ** The broker: the raw client and shared/redis_client.py *)

Module Redis.

(** The commands of the raw client ([redis_client.client.<command>]) that
    the control plane issues.  A command on a key that holds the other kind
    of value is refused by the broker. *)
Definition wrongtype : Exn :=
  OtherException "WRONGTYPE Operation against a key holding the wrong kind of value".

Definition raw_get (key : string) : M (option StrVal) :=
  io (fun w => match kv w !! key with
               | None => (Ok None, w)
               | Some (mkEntry (RStr v) _) => (Ok (Some v), w)
               | Some (mkEntry (RZSet _) _) => (Raise wrongtype, w)
               end).

Definition raw_set (key : string) (value : StrVal) (ex : option Z) : M unit :=
  io (fun w => (Ok tt, set_kv (<[key := mkEntry (RStr value) ex]> (kv w)) w)).

Definition raw_delete (key : string) : M Z :=
  io (fun w => (Ok (match kv w !! key with Some _ => 1 | None => 0 end),
                set_kv (delete key (kv w)) w)).

Definition raw_publish (channel event_type : string) (data : EventData) : M unit :=
  io (fun w => (Ok tt, emit (Publish channel event_type data) w)).

(** Sorted sets.  A member occurs once; [zadd] of a member that is already
    present only updates its score. *)
Definition zset_of (w : World) (key : string) : Res (list (string * Z)) :=
  match kv w !! key with
  | None => Ok []
  | Some (mkEntry (RZSet ms) _) => Ok ms
  | Some (mkEntry (RStr _) _) => Raise wrongtype
  end.

Definition ttl_of (w : World) (key : string) : option Z :=
  match kv w !! key with
  | Some e => ttl e
  | None => None
  end.

(** A sorted set that becomes empty is removed by the broker. *)
Definition store_zset (key : string) (ms : list (string * Z)) (t : option Z)
    (w : World) : World :=
  match ms with
  | [] => set_kv (delete key (kv w)) w
  | _ => set_kv (<[key := mkEntry (RZSet ms) t]> (kv w)) w
  end.

Definition zremrangebyscore (key : string) (lo hi : Z) : M Z :=
  io (fun w => match zset_of w key with
               | Raise e => (Raise e, w)
               | Ok ms =>
                   let keep := List.filter (fun m => negb ((lo <=? snd m) && (snd m <=? hi))) ms in
                   (Ok (Z.of_nat (length ms) - Z.of_nat (length keep)),
                    store_zset key keep (ttl_of w key) w)
               end).

Definition zcard (key : string) : M Z :=
  io (fun w => match zset_of w key with
               | Raise e => (Raise e, w)
               | Ok ms => (Ok (Z.of_nat (length ms)), w)
               end).

(** The element of lowest score; among equal scores, the member that is
    first in lexicographic order. *)
Definition zless (a b : string * Z) : bool :=
  (snd a <? snd b) || ((snd a =? snd b) && String.ltb (fst a) (fst b)).

Fixpoint zmin (ms : list (string * Z)) : option (string * Z) :=
  match ms with
  | [] => None
  | m :: rest =>
      match zmin rest with
      | None => Some m
      | Some m' => if zless m' m then Some m' else Some m
      end
  end.

(** [zrange(key, 0, 0, withscores=True)] *)
Definition zrange_first (key : string) : M (list (string * Z)) :=
  io (fun w => match zset_of w key with
               | Raise e => (Raise e, w)
               | Ok ms => (Ok (match zmin ms with Some m => [m] | None => [] end), w)
               end).

(** [zadd(key, {member: score})] *)
Definition zadd (key member : string) (score : Z) : M Z :=
  io (fun w => match zset_of w key with
               | Raise e => (Raise e, w)
               | Ok ms =>
                   let present := existsb (fun m => String.eqb (fst m) member) ms in
                   let others := List.filter (fun m => negb (String.eqb (fst m) member)) ms in
                   (Ok (if present then 0 else 1),
                    store_zset key (others ++ [(member, score)]) (ttl_of w key) w)
               end).

Definition expire (key : string) (seconds : Z) : M bool :=
  io (fun w => match kv w !! key with
               | None => (Ok false, w)
               | Some e => (Ok true, set_kv (<[key := mkEntry (rval e) (Some seconds)]> (kv w)) w)
               end).

(** [RedisClient]: every key is namespaced, every failure is turned into a
    [RetryableError]. *)
Definition prefix : string := "videogen:cache:".

Definition _prefix_key (key : string) : string := prefix +:+ key.

Definition set (key : string) (value : StrVal) (ex : option Z) : M bool :=
  try_except
    (raw_set (_prefix_key key) value ex ;; ret true)
    (fun e => raise (RetryableError ("Failed to set Redis key: " +:+ str e) None)).

Definition get (key : string) : M (option StrVal) :=
  try_except
    (raw_get (_prefix_key key))
    (fun e => raise (RetryableError ("Failed to get Redis key: " +:+ str e) None)).

Definition delete (key : string) : M bool :=
  try_except
    (n <- raw_delete (_prefix_key key) ;; ret (0 <? n))
    (fun e => raise (RetryableError ("Failed to delete Redis key: " +:+ str e) None)).

End Redis.

(** ** api_gateway/services/event_publisher.py *)

Definition publish_event (job_id event_type : string) (data : EventData) : M unit :=
  try_except
    (Redis.raw_publish ("job_events:" +:+ job_id) event_type data ;; log)
    (fun _ => log).

(** ** api_gateway/services/sse_manager.py *)

(** The hub is process-local: a map from job to the queues of its live
    connections.  The queues are unbounded, so [put] appends. *)
Definition get_connections (job_id : string) (w : World)
    : list (list (string * EventData)) :=
  default [] (connections w !! job_id).

Definition broadcast_event (job_id event_type : string) (data : EventData) : M unit :=
  fun w =>
    match get_connections job_id w with
    | [] => (Ok tt, w)
    | qs =>
        (Ok tt,
         emit (Broadcast job_id event_type data)
              (set_connections
                 (<[job_id := List.map (fun q => (q ++ [(event_type, data)])%list) qs]>
                    (connections w)) w))
    end.

(** ** api_gateway/services/budget_helpers.py *)

Definition get_budget_limit (environment : string) : Decimal :=
  if String.eqb environment "production" || String.eqb environment "staging"
  then 200000
  else 5000.

(** ** uuid.UUID

    The orchestrator hands the ledger [UUID(job_id)], and the ledger turns
    it back into text with [str].  [UUID] is Python's, not the repository's.
    The upload route names a job [str(uuid.uuid4())]: 32 hexadecimal digits
    in lower case, grouped 8-4-4-4-12 by hyphens.  On such a text [UUID]
    returns a value whose [str] is the text itself; on a text that spells no
    identifier it raises [ValueError].  The store compares identifiers as
    texts, so the other spellings that the library reads (upper case,
    braces, the prefix [urn:uuid:], no hyphens) name no job; they are not
    told apart from malformed texts. *)
Definition is_hex (c : ascii) : bool :=
  existsb (Ascii.eqb c) (String.list_ascii_of_string "0123456789abcdef").

Fixpoint hex_digits (n : nat) (s : string) : option string :=
  match n with
  | O => Some s
  | S n' =>
      match s with
      | String c s' => if is_hex c then hex_digits n' s' else None
      | EmptyString => None
      end
  end.

Definition hyphen (s : string) : option string :=
  match s with
  | String c s' => if Ascii.eqb c "-"%char then Some s' else None
  | EmptyString => None
  end.

(** Groups of hexadecimal digits of the given lengths, with a hyphen
    between two groups; what follows the last group is returned. *)
Fixpoint hex_groups (lengths : list nat) (s : string) : option string :=
  match lengths with
  | [] => Some s
  | [n] => hex_digits n s
  | n :: rest =>
      match hex_digits n s with
      | Some s' =>
          match hyphen s' with
          | Some s'' => hex_groups rest s''
          | None => None
          end
      | None => None
      end
  end.

Definition is_uuid (s : string) : bool :=
  match hex_groups [8; 4; 4; 4; 12]%nat s with
  | Some EmptyString => true
  | _ => false
  end.

(** [str(UUID(job_id))] *)
Definition UUID (job_id : string) : M string :=
  if is_uuid job_id then ret job_id
  else raise (OtherException "badly formed hexadecimal UUID string").

(** ** shared/cost_tracking.py *)

Module CostTracker.

(** The methods take the job as a [UUID] and address the store with
    [str(job_id)]: the argument [job_id] below is that text. *)

(** The per-job [asyncio.Lock] serialises concurrent callers; a single
    caller at a time is modelled, so taking it has no effect.  The new total
    is written as [float(new_total)] and read back as [Decimal(str(...))]
    by the next reader: see the convention on money at the head of the
    file. *)
Definition track_cost (job_id stage_name api_name : string) (cost : Decimal) : M unit :=
  if cost <? 0 then
    raise (ValidationError ("Cost cannot be negative: " +:+ str_decimal2 cost) None)
  else
    try_except
      (Store.insert_cost (mkCost job_id stage_name api_name cost) ;;
       job_result <- Store.select_job job_id ;;
       match job_result with
       | row :: _ =>
           let current_total := total_cost row in
           let new_total := current_total + cost in
           Store.update_job job_id (mkPatch None None None None None (Some new_total))
       | [] => log
       end ;;
       log)
      (fun e => raise (RetryableError ("Failed to track cost: " +:+ str e) None)).

Definition get_total_cost (job_id : string) : M Decimal :=
  try_except
    (job_result <- Store.select_job job_id ;;
     match job_result with
     | row :: _ => ret (total_cost row)
     | [] => ret 0
     end)
    (fun e => raise (RetryableError ("Failed to get total cost: " +:+ str e) None)).

Definition check_budget (job_id : string) (new_cost limit : Decimal) : M bool :=
  try_except
    (current_total <- get_total_cost job_id ;;
     let projected_total := current_total + new_cost in
     ret (projected_total <=? limit))
    (fun e => raise (RetryableError ("Failed to check budget: " +:+ str e) None)).

Definition enforce_budget_limit (job_id : string) (limit : Decimal) : M unit :=
  try_except
    (current_total <- get_total_cost job_id ;;
     if limit <? current_total then
       let error_msg :=
         "Budget limit of $" +:+ str_decimal2 limit +:+ " exceeded for job "
           +:+ job_id +:+ ". Current total: $" +:+ str_float current_total in
       raise (BudgetExceededError error_msg (Some "BUDGET_EXCEEDED"))
     else ret tt)
    (fun e =>
       if is_BudgetExceededError e then raise e
       else raise (RetryableError ("Failed to enforce budget limit: " +:+ str e) None)).

End CostTracker.

(** ** api_gateway/orchestrator.py: the helpers *)

Record Settings : Type := mkSettings {
  environment : string;
  rate_limit_fail_closed : bool
}.

Definition check_cancellation (job_id : string) : M bool :=
  try_except
    (let cancel_key := "job_cancel:" +:+ job_id in
     cancelled <- Redis.get cancel_key ;;
     ret (match cancelled with Some _ => true | None => false end))
    (fun _ => log ;; ret false).

Definition update_progress (job_id : string) (progress : Z) (stage_name : string) : M unit :=
  try_except
    (Store.update_job job_id
       (mkPatch None (Some progress) (Some stage_name) None None None) ;;
     let cache_key := "job_status:" +:+ job_id in
     Redis.raw_delete cache_key ;;
     let progress_data := ProgressData progress stage_name in
     publish_event job_id "progress" progress_data ;;
     broadcast_event job_id "progress" progress_data ;;
     log)
    (fun _ => log).

Definition enforce_budget (cfg : Settings) (job_id : string) : M unit :=
  try_except
    (let limit := get_budget_limit (environment cfg) in
     uuid <- UUID job_id ;;
     CostTracker.enforce_budget_limit uuid limit)
    (fun e =>
       if is_BudgetExceededError e then
         publish_event job_id "error" (ErrorData (str e) (Some "BUDGET_EXCEEDED") false) ;;
         raise e
       else raise e).

Definition handle_pipeline_error (job_id : string) (error : Exn) : M unit :=
  try_except
    (let error_message := str error in
     let error_code :=
       if is_BudgetExceededError error then Some "BUDGET_EXCEEDED"
       else getattr_code error "MODULE_FAILURE" in
     let retryable :=
       if is_BudgetExceededError error then false else is_RetryableError error in
     Store.update_job job_id
       (mkPatch (Some "failed") None None (Some error_message) None None) ;;
     let cache_key := "job_status:" +:+ job_id in
     Redis.raw_delete cache_key ;;
     publish_event job_id "error" (ErrorData error_message error_code retryable) ;;
     log)
    (fun _ => log).

(** ** The stage collaborators *)

(** Outputs of the stages (shared/models), reduced to the fields the
    orchestrator reads.  Times are in milliseconds. *)
Record AudioAnalysis : Type := mkAudio { bpm : Z; beat_timestamps : list Z }.
Record ScenePlan : Type := mkPlan { transitions : list (string * Z) }.
Definition References := list string.
Definition ClipPrompts := list (Z * string).
Record Clip : Type := mkClip { clip_index : Z; clip_url : string; clip_duration : Z }.
Definition Clips := list Clip.
Record VideoOutput : Type := mkVideo { out_video_url : string; out_duration : Z }.

Inductive Outcome (A : Type) : Type :=
| Returns (a : A)
| Fails (e : Exn).
Arguments Returns {A} a.
Arguments Fails {A} e.

(** Modelled from the spec: the stage modules ([modules.<stage>.process])
    are not among the sources.  Spec 6 gives their contracts (typed output
    or failure) and spec 2 says that stages charge the Cost Ledger.  A
    collaborator is either not importable, or it is invoked, charges the
    ledger for some API calls and then returns or raises. *)
Record Collaborator (A : Type) : Type := mkCollab {
  installed : bool;
  charges : list (string * Decimal);
  outcome : Outcome A
}.
Arguments mkCollab {A}.
Arguments installed {A}.
Arguments charges {A}.
Arguments outcome {A}.

Fixpoint charge_all (job_id stage : string) (cs : list (string * Decimal)) : M unit :=
  match cs with
  | [] => ret tt
  | (api, cost) :: rest =>
      CostTracker.track_cost job_id stage api cost ;;
      charge_all job_id stage rest
  end.

(** [from modules.<stage>.process import process; await process(...)] *)
Definition call {A} (job_id stage : string) (c : Collaborator A) : M A :=
  if installed c then
    (fun w => (Ok tt, emit (Invoke stage) w)) ;;
    charge_all job_id stage (charges c) ;;
    match outcome c with
    | Returns a => ret a
    | Fails e => raise e
    end
  else raise (ImportError ("No module named 'modules." +:+ stage +:+ ".process'")).

(** Modelled from the spec: neither the stage modules nor
    shared/models/audio.py, scene.py and video.py, from which the
    orchestrator builds its stubs, are among the sources
    (shared/models/__init__.py exports nothing).  The record holds the six
    stage entry points, each a function of the arguments the orchestrator
    passes, and, for every stage, the exception that importing the model
    classes and building the stub of the stage raises, if any. *)
Record Collaborators : Type := mkCollabs {
  parse_audio : string -> string -> Collaborator AudioAnalysis;
  plan_scene : string -> string -> AudioAnalysis -> Collaborator ScenePlan;
  generate_references : string -> ScenePlan -> Collaborator References;
  generate_prompts : string -> ScenePlan -> option References -> Collaborator ClipPrompts;
  generate_videos : string -> ClipPrompts -> Collaborator Clips;
  compose_video :
    string -> Clips -> string -> list (string * Z) -> list Z -> Collaborator VideoOutput;
  stub_failure : string -> option Exn
}.

(** ** api_gateway/orchestrator.py: execute_pipeline *)

Module Orchestrator.

Definition cancelled_by_user : Exn := PipelineError "Job cancelled by user" None.

(** The stubs used when a stage module cannot be imported, as the
    constructors are called. *)
Definition stub_audio : AudioAnalysis := mkAudio 120000 [0; 500; 1000].
Definition stub_plan : ScenePlan := mkPlan [("cut", 0)].
Definition stub_prompts : ClipPrompts := [(0, "A scene")].
Definition stub_clips : Clips := [mkClip 0 "stub_url" 5000].
Definition stub_video : VideoOutput := mkVideo "stub_final_video_url" 120000.

(** [from shared.models.<module> import <classes>; <stub> = <Class>(...)] *)
Definition build {A} (failure : option Exn) (stub : A) : M A :=
  match failure with
  | None => ret stub
  | Some e => raise e
  end.

(** [try: ... import and call ... except ImportError: <stub>] *)
Definition call_or_stub {A} (job_id stage : string) (c : Collaborator A) (stub : M A) : M A :=
  try_except (call job_id stage c)
             (fun e => if is_ImportError e then log ;; stub else raise e).

(** A stage yields [None] when the function returned at its cancellation
    check, and its output otherwise. *)
Definition andthen {A B} (m : M (option A)) (k : A -> M (option B)) : M (option B) :=
  r <- m ;;
  match r with
  | None => ret None
  | Some a => k a
  end.

Notation "x <-! m ;; k" := (andthen m (fun x => k))
  (at level 100, m at next level, right associativity).

(** The budget check before an expensive stage (lines 255-263 and 340-348,
    which differ in the estimate and in the message only). *)
Definition precheck_budget (cfg : Settings) (job_id : string) (estimate : Decimal)
    (what : string) : M unit :=
  let limit := get_budget_limit (environment cfg) in
  uuid <- UUID job_id ;;
  can_proceed <- CostTracker.check_budget uuid estimate limit ;;
  if can_proceed then ret tt
  else raise (BudgetExceededError ("Would exceed budget limit before " +:+ what) None).

Section Pipeline.

Variable cfg : Settings.
Variable env : Collaborators.
Variables job_id audio_url user_prompt : string.

Definition set_processing : M unit :=
  Store.update_job job_id (mkPatch (Some "processing") None None None None None).

Definition last_beat (a : AudioAnalysis) : Z :=
  List.last (beat_timestamps a) 0.

(** Stage 1: Audio Parser (10% progress) *)
Definition stage1 : M (option AudioAnalysis) :=
  publish_event job_id "stage_update" (StageStarted "audio_parser") ;;
  cancelled <- check_cancellation job_id ;;
  if cancelled then
    handle_pipeline_error job_id cancelled_by_user ;; ret None
  else
    audio_data <- call_or_stub job_id "audio_parser" (parse_audio env job_id audio_url)
                    (build (stub_failure env "audio_parser") stub_audio) ;;
    update_progress job_id 10 "audio_parser" ;;
    publish_event job_id "stage_update"
      (StageCompleted "audio_parser" (Some (last_beat audio_data))) ;;
    ret (Some audio_data).

(** Stage 2: Scene Planner (20% progress) *)
Definition stage2 (audio_data : AudioAnalysis) : M (option ScenePlan) :=
  publish_event job_id "stage_update" (StageStarted "scene_planner") ;;
  cancelled <- check_cancellation job_id ;;
  if cancelled then
    handle_pipeline_error job_id cancelled_by_user ;; ret None
  else
    plan <- call_or_stub job_id "scene_planner" (plan_scene env job_id user_prompt audio_data)
              (build (stub_failure env "scene_planner") stub_plan) ;;
    update_progress job_id 20 "scene_planner" ;;
    publish_event job_id "stage_update" (StageCompleted "scene_planner" None) ;;
    ret (Some plan).

(** Stage 3: Reference Generator (30% progress), with fallback *)
Definition stage3 (plan : ScenePlan) : M (option (option References)) :=
  publish_event job_id "stage_update" (StageStarted "reference_generator") ;;
  cancelled <- check_cancellation job_id ;;
  if cancelled then
    handle_pipeline_error job_id cancelled_by_user ;; ret None
  else
    precheck_budget cfg job_id 5000 "reference generation" ;;
    references <-
      try_except
        (r <- call job_id "reference_generator" (generate_references env job_id plan) ;;
         ret (Some r))
        (fun e =>
           if is_ImportError e then log ;; ret None
           else
             log ;;
             Store.insert_stage
               (mkStage job_id "reference_generator" "failed" true (str e)) ;;
             ret None) ;;
    update_progress job_id 30 "reference_generator" ;;
    publish_event job_id "stage_update" (StageCompleted "reference_generator" None) ;;
    enforce_budget cfg job_id ;;
    ret (Some references).

(** Stage 4: Prompt Generator (40% progress) *)
Definition stage4 (plan : ScenePlan) (references : option References)
    : M (option ClipPrompts) :=
  publish_event job_id "stage_update" (StageStarted "prompt_generator") ;;
  cancelled <- check_cancellation job_id ;;
  if cancelled then
    handle_pipeline_error job_id cancelled_by_user ;; ret None
  else
    (* the fallback flag is read back and not used afterwards *)
    try_except
      (stage_result <- Store.select_stage job_id "reference_generator" ;;
       ret (match stage_result with
            | r :: _ => sr_fallback_mode r
            | [] => false
            end))
      (fun _ => log ;; ret false) ;;
    clip_prompts <- call_or_stub job_id "prompt_generator"
                      (generate_prompts env job_id plan references)
                      (build (stub_failure env "prompt_generator") stub_prompts) ;;
    update_progress job_id 40 "prompt_generator" ;;
    publish_event job_id "stage_update" (StageCompleted "prompt_generator" None) ;;
    ret (Some clip_prompts).

Definition insufficient_clips : Exn :=
  PipelineError "Insufficient clips generated (minimum 3 required)" None.

(** Stage 5: Video Generator (85% progress).  The stage is written in two
    parts: up to the return of the generator, and from the validation of
    its output on. *)
Definition stage5_generate (clip_prompts : ClipPrompts) : M (option Clips) :=
  publish_event job_id "stage_update" (StageStarted "video_generator") ;;
  cancelled <- check_cancellation job_id ;;
  if cancelled then
    handle_pipeline_error job_id cancelled_by_user ;; ret None
  else
    precheck_budget cfg job_id 10000 "video generation" ;;
    clips <- call_or_stub job_id "video_generator" (generate_videos env job_id clip_prompts)
               (build (stub_failure env "video_generator") stub_clips) ;;
    ret (Some clips).

Definition stage5_validate (clips : Clips) : M (option Clips) :=
  if Z.of_nat (length clips) <? 3 then raise insufficient_clips
  else
    update_progress job_id 85 "video_generator" ;;
    publish_event job_id "stage_update" (StageCompleted "video_generator" None) ;;
    enforce_budget cfg job_id ;;
    ret (Some clips).

Definition stage5 (clip_prompts : ClipPrompts) : M (option Clips) :=
  clips <-! stage5_generate clip_prompts ;;
  stage5_validate clips.

(** Stage 6: Composer (100% progress), and completion *)
Definition stage6 (audio_data : AudioAnalysis) (plan : ScenePlan) (clips : Clips)
    : M (option unit) :=
  publish_event job_id "stage_update" (StageStarted "composer") ;;
  cancelled <- check_cancellation job_id ;;
  if cancelled then
    handle_pipeline_error job_id cancelled_by_user ;; ret None
  else
    let transitions := transitions plan in
    let beat_timestamps := beat_timestamps audio_data in
    video_output <- call_or_stub job_id "composer"
                      (compose_video env job_id clips audio_url transitions beat_timestamps)
                      (build (stub_failure env "composer") stub_video) ;;
    job_result <- Store.select_job job_id ;;
    let total_cost := match job_result with
                      | row :: _ => total_cost row
                      | [] => 0
                      end in
    Store.update_job job_id
      (mkPatch (Some "completed") (Some 100) (Some "composer") None
               (Some (out_video_url video_output)) (Some total_cost)) ;;
    let cache_key := "job_status:" +:+ job_id in
    Redis.raw_delete cache_key ;;
    update_progress job_id 100 "composer" ;;
    publish_event job_id "completed"
      (CompletedData (out_video_url video_output) total_cost) ;;
    log ;;
    ret (Some tt).

(** The run up to and including stage 2, and up to and including stage 4. *)
Definition through_stage2 : M (option (AudioAnalysis * ScenePlan)) :=
  set_processing ;;
  audio_data <-! stage1 ;;
  plan <-! stage2 audio_data ;;
  ret (Some (audio_data, plan)).

Definition through_stage4
    : M (option (AudioAnalysis * ScenePlan * ClipPrompts)) :=
  ap <-! through_stage2 ;;
  references <-! stage3 (snd ap) ;;
  clip_prompts <-! stage4 (snd ap) references ;;
  ret (Some (fst ap, snd ap, clip_prompts)).

(** The body of the [try] block. *)
Definition pipeline_body : M (option unit) :=
  apc <-! through_stage4 ;;
  clips <-! stage5 (snd apc) ;;
  stage6 (fst (fst apc)) (snd (fst apc)) clips.

(** The two [except] clauses: both record the failure and re-raise the
    exception that was caught. *)
Definition on_error (e : Exn) : M unit :=
  if is_BudgetExceededError e || is_PipelineError e then
    handle_pipeline_error job_id e ;; raise e
  else
    log ;;
    handle_pipeline_error job_id
      (PipelineError ("Pipeline execution failed: " +:+ str e) None) ;;
    raise e.

Definition execute_pipeline : M unit :=
  try_except (pipeline_body ;; ret tt) on_error.

End Pipeline.

End Orchestrator.

(** Python truthiness of an optional string. *)
Definition truthy (o : option string) : bool :=
  match o with
  | Some s => negb (String.eqb s "")
  | None => false
  end.

Definition truthy_val (o : option StrVal) : bool :=
  match o with
  | Some (Plain s) => negb (String.eqb s "")
  | Some (JobDoc _) => true
  | None => false
  end.

(** ** api_gateway/worker.py *)

Module Worker.

Record JobData : Type := mkJobData {
  jd_job_id : option string;
  jd_user_id : option string;
  jd_audio_url : option string;
  jd_user_prompt : option string
}.

Definition cancelled_patch : JobPatch :=
  mkPatch (Some "failed") None None (Some "Job cancelled by user") None None.

Definition process_job (cfg : Settings) (env : Collaborators) (job_data : JobData) : M unit :=
  let job_id := jd_job_id job_data in
  let user_id := jd_user_id job_data in
  let audio_url := jd_audio_url job_data in
  let user_prompt := jd_user_prompt job_data in
  if negb (truthy job_id && truthy user_id && truthy audio_url && truthy user_prompt) then
    log
  else
    let job_id := default "" job_id in
    let audio_url := default "" audio_url in
    let user_prompt := default "" user_prompt in
    try_except
      (let cancel_key := "job_cancel:" +:+ job_id in
       flag <- Redis.get cancel_key ;;
       if truthy_val flag then
         log ;;
         Store.update_job job_id cancelled_patch
       else
         Orchestrator.execute_pipeline cfg env job_id audio_url user_prompt ;;
         log)
      (fun e =>
         if is_BudgetExceededError e || is_PipelineError e then log
         else if is_RetryableError e then log ;; raise e
         else
           log ;;
           Store.update_job job_id
             (mkPatch (Some "failed") None None
                      (Some ("Unexpected error: " +:+ str e)) None None)).

End Worker.

(** ** api_gateway/services/queue_service.py *)

Definition QUEUE_NAME : string := "video_generation".

Definition remove_job (job_id : string) : M bool :=
  try_except
    (let job_key := QUEUE_NAME +:+ ":job:" +:+ job_id in
     Redis.raw_delete job_key ;;
     log ;;
     ret true)
    (fun _ => log ;; ret false).

(** ** api_gateway/services/rate_limiter.py *)

(** [now] is the value of [int(time.time())] read by the call. *)
Definition check_rate_limit (cfg : Settings) (user_id : string) (now : Z) : M unit :=
  let key := "rate_limit:" +:+ user_id in
  let one_hour_ago := now - 3600 in
  try_except
    (Redis.zremrangebyscore key 0 one_hour_ago ;;
     count <- Redis.zcard key ;;
     (if 5 <=? count then
        oldest_entries <- Redis.zrange_first key ;;
        let retry_after :=
          match oldest_entries with
          | (_, oldest_time) :: _ => 3600 - (now - oldest_time)
          | [] => 3600
          end in
        log ;;
        raise (RateLimitError "Rate limit exceeded: 5 jobs per hour" retry_after
                              (Some "RATE_LIMIT_EXCEEDED"))
      else ret tt) ;;
     Redis.zadd key (pretty now) now ;;
     Redis.expire key 3600 ;;
     log)
    (fun e =>
       if is_RateLimitError e then raise e
       else
         log ;;
         if rate_limit_fail_closed cfg then
           log ;;
           raise (RateLimitError "Rate limit service unavailable" 60
                                 (Some "RATE_LIMIT_SERVICE_UNAVAILABLE"))
         else log).

(** ** api_gateway/dependencies.py and api_gateway/routes/jobs.py *)

Module Routes.

Definition verify_job_ownership (job_id current_user : string) : M JobRow :=
  try_except
    (result <- Store.select_job job_id ;;
     match result with
     | [] => raise (HTTPException 404 "Job not found")
     | job :: _ =>
         if negb (String.eqb (user_id job) current_user) then
           raise (HTTPException 403 "Job does not belong to user")
         else ret job
     end)
    (fun e =>
       if is_HTTPException e then raise e
       else log ;; raise (HTTPException 500 "Failed to verify job ownership")).

(** [json.loads] of a cached string; text that is not a document does not
    decode to a job. *)
Definition json_loads (v : StrVal) : M JobRow :=
  match v with
  | JobDoc j => ret j
  | Plain s => raise (OtherException ("JSONDecodeError: " +:+ s))
  end.

Definition get_job_status (job_id current_user : string) : M JobRow :=
  job <- verify_job_ownership job_id current_user ;;
  let cache_key := "job_status:" +:+ job_id in
  cached <- try_except
              (cached <- Redis.get cache_key ;;
               if truthy_val cached then
                 match cached with
                 | Some v => cached_data <- json_loads v ;; ret (Some cached_data)
                 | None => ret None
                 end
               else ret None)
              (fun _ => log ;; ret None) ;;
  match cached with
  | Some cached_data => ret cached_data
  | None =>
      try_except (Redis.set cache_key (JobDoc job) (Some 30) ;; ret tt)
                 (fun _ => log) ;;
      ret job
  end.

Record ListResponse : Type := mkList {
  lr_jobs : list JobRow;
  lr_total : Z;
  lr_limit : Z;
  lr_offset : Z
}.

Definition valid_statuses : list string :=
  ["queued"; "processing"; "completed"; "failed"].

Definition matches (user : string) (status_filter : option string) (j : JobRow) : bool :=
  String.eqb (user_id j) user
  && match status_filter with
     | Some s => if truthy status_filter then String.eqb (status j) s else true
     | None => true
     end.

(** Modelled from the spec: shared/database.py is not among the sources;
    the count query [select("*", count="exact")] with its equality
    filters. *)
Definition count_jobs (user : string) (status_filter : option string) : M Z :=
  io (fun w => (Ok (Z.of_nat (length (List.filter (matches user status_filter) (jobs w)))), w)).

(** Modelled from the spec: shared/database.py is not among the sources;
    the row query with its equality filters and [limit(n)]: the first [n]
    matching rows in the order the store yields them. *)
Definition select_jobs (user : string) (status_filter : option string) (n : Z)
    : M (list JobRow) :=
  io (fun w => (Ok (firstn (Z.to_nat n) (List.filter (matches user status_filter) (jobs w))), w)).

(** [list.sort(key=created_at, reverse=True)]: stable, descending. *)
Fixpoint insert_desc (x : JobRow) (l : list JobRow) : list JobRow :=
  match l with
  | [] => [x]
  | y :: l' =>
      if String.ltb (created_at x) (created_at y) then y :: insert_desc x l'
      else x :: y :: l'
  end.

Fixpoint sort_desc (l : list JobRow) : list JobRow :=
  match l with
  | [] => []
  | x :: l' => insert_desc x (sort_desc l')
  end.

(** [l[offset:offset + limit]] for non-negative bounds *)
Definition slice (l : list JobRow) (offset limit : Z) : list JobRow :=
  firstn (Z.to_nat limit) (skipn (Z.to_nat offset) l).

Definition list_jobs (status_filter : option string) (limit offset : Z)
    (current_user : string) : M ListResponse :=
  (* Query(10, ge=1, le=50) and Query(0, ge=0) *)
  if negb ((1 <=? limit) && (limit <=? 50) && (0 <=? offset)) then
    raise (HTTPException 422 "Unprocessable Entity")
  else
    try_except
      ((if truthy status_filter then
          if negb (existsb (String.eqb (default "" status_filter)) valid_statuses) then
            raise (ValidationError
                     "Invalid status filter. Must be one of: ['queued', 'processing', 'completed', 'failed']"
                     None)
          else ret tt
        else ret tt) ;;
       total <- count_jobs current_user status_filter ;;
       all_jobs <- select_jobs current_user status_filter (limit + offset) ;;
       let all_jobs := sort_desc all_jobs in
       let jobs := slice all_jobs offset limit in
       ret (mkList jobs total limit offset))
      (fun e =>
         if is_ValidationError e then raise e
         else log ;; raise (HTTPException 500 "Failed to list jobs")).

Record CancelResponse : Type := mkCancel {
  cr_job : string;
  cr_status : string;
  cr_message : string
}.

Definition cancel_job (job_id current_user : string) : M CancelResponse :=
  job <- verify_job_ownership job_id current_user ;;
  let job_status := status job in
  if negb (String.eqb job_status "queued" || String.eqb job_status "processing") then
    raise (HTTPException 400 ("Cannot cancel job with status: " +:+ job_status))
  else
    try_except
      ((if String.eqb job_status "queued" then
          remove_job job_id ;;
          Store.update_job job_id Worker.cancelled_patch
        else if String.eqb job_status "processing" then
          let cancel_key := "job_cancel:" +:+ job_id in
          Redis.set cancel_key (Plain "1") (Some 900) ;;
          Store.update_job job_id Worker.cancelled_patch
        else ret tt) ;;
       let cache_key := "job_status:" +:+ job_id in
       Redis.raw_delete cache_key ;;
       log ;;
       ret (mkCancel job_id "failed" "Job cancelled by user"))
      (fun _ => log ;; raise (HTTPException 500 "Failed to cancel job")).

End Routes.

(** ** Vocabulary of the properties *)

(** The total the ledger reads for a job: [data[0]["total_cost"]], or zero
    when there is no row. *)
Definition current_total (job_id : string) (w : World) : Decimal :=
  match List.filter (fun j => String.eqb (id j) job_id) (jobs w) with
  | row :: _ => total_cost row
  | [] => 0
  end.

Definition has_job (job_id : string) (w : World) : bool :=
  existsb (fun j => String.eqb (id j) job_id) (jobs w).

(** The broker keys as the wrapper and the raw client address them. *)
Definition cancel_marker_key (job_id : string) : string :=
  Redis._prefix_key ("job_cancel:" +:+ job_id).
Definition status_cache_key (job_id : string) : string :=
  Redis._prefix_key ("job_status:" +:+ job_id).
Definition payload_key (job_id : string) : string :=
  QUEUE_NAME +:+ ":job:" +:+ job_id.

Definition failed_patch (msg : string) : JobPatch :=
  mkPatch (Some "failed") None None (Some msg) None None.

Definition patch_rows (job_id : string) (p : JobPatch) (js : list JobRow) : list JobRow :=
  List.map (fun j => if String.eqb (id j) job_id then apply_patch p j else j) js.

Definition opt_is (o : option string) (s : string) : bool :=
  match o with
  | Some x => String.eqb x s
  | None => false
  end.

Definition channel_of (job_id : string) : string := "job_events:" +:+ job_id.

(** *** Classes of observable actions *)

Definition is_failed_write (a : Action) : bool :=
  match a with
  | JobUpdate _ p => opt_is (p_status p) "failed"
  | _ => false
  end.

Definition is_completed_write (a : Action) : bool :=
  match a with
  | JobUpdate _ p => opt_is (p_status p) "completed"
  | _ => false
  end.

Definition is_error_event (a : Action) : bool :=
  match a with
  | Publish _ ty _ => String.eqb ty "error"
  | _ => false
  end.



(** Anything but a terminal write or the [completed] event. *)
Definition non_terminal (a : Action) : bool :=
  match a with
  | JobUpdate _ p => negb (opt_is (p_status p) "failed" || opt_is (p_status p) "completed")
  | Publish _ ty _ => negb (String.eqb ty "completed")
  | Broadcast _ ty _ => negb (String.eqb ty "completed")
  | Invoke _ => true
  end.

(** Updates of a job row that leave its status alone, and the progress
    events. *)
Definition progress_only (a : Action) : bool :=
  match a with
  | JobUpdate _ p => match p_status p with None => true | Some _ => false end
  | Publish _ ty _ | Broadcast _ ty _ => String.eqb ty "progress"
  | Invoke _ => false
  end.

(** Every write of column [progress] writes [v]. *)
Definition progress_is (v : Z) (a : Action) : bool :=
  match a with
  | JobUpdate _ p => match p_progress p with Some x => x =? v | None => true end
  | _ => true
  end.

(** *** Trace monitors *)

Section Monitors.

Context {S : Type}.
Variable step : S -> Action -> option S.

Fixpoint run_monitor (s : S) (t : list Action) : option S :=
  match t with
  | [] => Some s
  | a :: t' =>
      match step s a with
      | Some s' => run_monitor s' t'
      | None => None
      end
  end.

(** From a monitor state in [P], whatever [m] appends to the trace is
    accepted, and result and final monitor state are related by [Q]. *)
Definition accepts {A} (P : S -> Prop) (m : M A) (Q : Res A -> S -> Prop) : Prop :=
  forall w s, P s ->
    exists t s', trace (snd (m w)) = (trace w ++ t)%list
                 /\ run_monitor s t = Some s' /\ Q (fst (m w)) s'.


End Monitors.

(** [m] only appends actions of class [K] to the trace. *)
Definition only {A} (K : Action -> bool) (m : M A) : Prop :=
  forall w, exists t, trace (snd (m w)) = (trace w ++ t)%list /\ forallb K t = true.

(** [m] returns normally from every world. *)
Definition never_raises {A} (m : M A) : Prop :=
  forall w, exists a, fst (m w) = Ok a.

(** The progress monitor: its state is the last value written to column
    [progress]; a write is accepted when it does not go back and its value
    is one of the stage values. *)
Definition stage_values : list Z := [0; 10; 20; 30; 40; 85; 100].

Definition progress_step (last : Z) (a : Action) : option Z :=
  match a with
  | JobUpdate _ p =>
      match p_progress p with
      | Some v => if (last <=? v) && existsb (Z.eqb v) stage_values then Some v else None
      | None => Some last
      end
  | _ => Some last
  end.

(** The values written to column [progress], in order. *)
Fixpoint progress_writes (t : list Action) : list Z :=
  match t with
  | [] => []
  | JobUpdate _ p :: t' =>
      match p_progress p with
      | Some v => v :: progress_writes t'
      | None => progress_writes t'
      end
  | _ :: t' => progress_writes t'
  end.

(** The values the column visits: repeated writes of the same value count
    once. *)
Fixpoint visited (l : list Z) : list Z :=
  match l with
  | [] => []
  | x :: l' =>
      match l' with
      | y :: _ => if x =? y then visited l' else x :: visited l'
      | [] => [x]
      end
  end.

(** The terminal discipline of one orchestrator run.  [Running]: no
    terminal write yet.  [Completed]: [status=completed] is written; the
    final progress update and the [completed] event may follow, or the
    write of [status=failed] if the run still fails.  [Failed]:
    [status=failed] is written; only the [error] event may follow.
    [Closed]: the terminal event is out; nothing may follow. *)
Inductive Phase : Type := Running | Completed | Failed | Closed.

Definition phase_step (ph : Phase) (a : Action) : option Phase :=
  match ph with
  | Running =>
      if is_failed_write a then Some Failed
      else if is_completed_write a then Some Completed
      else if non_terminal a then Some Running
      else None
  | Completed =>
      if is_failed_write a then Some Failed
      else if progress_only a then Some Completed
      else match a with
           | Publish _ ty _ => if String.eqb ty "completed" then Some Closed else None
           | _ => None
           end
  | Failed => if is_error_event a then Some Closed else None
  | Closed => None
  end.

Definition terminal_discipline (t : list Action) : bool :=
  match run_monitor phase_step Running t with
  | Some _ => true
  | None => false
  end.








(** The budget invariant in the words of the specification (3, 8.4). *)
Definition within_budget (cfg : Settings) (job_id : string) (w : World) : Prop :=
  current_total job_id w <= get_budget_limit (environment cfg).

(** Admissions of one user at the given clock readings, in order: [true]
    for a call that returns, [false] for a call that raises. *)
Fixpoint admissions (cfg : Settings) (user : string) (times : list Z) (w : World)
    : list bool * World :=
  match times with
  | [] => ([], w)
  | now :: rest =>
      match check_rate_limit cfg user now w with
      | (r, w') =>
          let (bs, w'') := admissions cfg user rest w' in
          ((match r with Ok _ => true | Raise _ => false end) :: bs, w'')
      end
  end.

Definition count_true (bs : list bool) : nat := length (List.filter (fun b : bool => b) bs).

(** The page of the specification (4.K): rows [offset, offset + limit) of
    all the matching rows in descending order of [created_at]. *)
Definition page_of_full_order (user : string) (status_filter : option string)
    (limit offset : Z) (w : World) : list JobRow :=
  Routes.slice (Routes.sort_desc (List.filter (Routes.matches user status_filter) (jobs w)))
               offset limit.

(** The budget invariant as the specification claims it for the ledger:
    a charge that completes leaves the job within its budget. *)
Definition ledger_keeps_budget : Prop :=
  forall cfg job_id stage api cost w w',
    within_budget cfg job_id w ->
    CostTracker.track_cost job_id stage api cost w = (Ok tt, w') ->
    within_budget cfg job_id w'.

(** The patch of a charge: only [total_cost] is written. *)
Definition cost_patch (c : Decimal) : JobPatch := mkPatch None None None None None (Some c).


Definition invokes (stage : string) (a : Action) : bool :=
  match a with
  | Invoke s => String.eqb s stage
  | _ => false
  end.

Definition not_invoking (stage : string) (a : Action) : bool := negb (invokes stage a).







(** What the budget check before a stage leads to when it fails, for a run
    that started in [w0] and reached the stage in [w1]: the run raises the
    budget error; the rows of the job are marked failed with its message;
    after the announcement of the stage come the failed write and the
    [error] event with code [BUDGET_EXCEEDED], not retryable; and the
    collaborator of the stage is invoked nowhere in the run. *)
Definition budget_stop (cfg : Settings) (env : Collaborators)
    (job_id audio_url user_prompt : string) (w0 w1 : World) (stage what : string) : Prop :=
  let msg := "Would exceed budget limit before " +:+ what in
  exists w2,
    Orchestrator.execute_pipeline cfg env job_id audio_url user_prompt w0
      = (Raise (BudgetExceededError msg None), w2)
    /\ jobs w2 = patch_rows job_id (failed_patch msg) (jobs w1)
    /\ trace w2
       = (trace w1 ++
          [Publish (channel_of job_id) "stage_update" (StageStarted stage);
           JobUpdate job_id (failed_patch msg);
           Publish (channel_of job_id) "error"
                   (ErrorData msg (Some "BUDGET_EXCEEDED") false)])%list
    /\ exists t, trace w2 = (trace w0 ++ t)%list
                 /\ forallb (not_invoking stage) t = true.

(** The sorted set of a user, the members that survive the trimming at
    clock reading [now], and the set after the admission at [now]. *)
Definition rate_key (user : string) : string := "rate_limit:" +:+ user.

Definition in_window (now : Z) (ms : list (string * Z)) : list (string * Z) :=
  List.filter (fun m => negb ((0 <=? snd m) && (snd m <=? now - 3600))) ms.

Definition admitted (now : Z) (ms : list (string * Z)) : list (string * Z) :=
  (List.filter (fun m => negb (String.eqb (fst m) (pretty now))) (in_window now ms)
     ++ [(pretty now, now)])%list.

(** The sum of the cost entries recorded for a job. *)
Definition entries_sum (job_id : string) (w : World) : Decimal :=
  fold_right Z.add 0
    (List.map cr_cost
       (List.filter (fun r => String.eqb (cr_job_id r) job_id) (job_costs w))).

(** *** Frames: what a computation leaves alone *)

(** Every step of [m] takes the world to one related by [R]. *)
Definition preserves {A} (R : World -> World -> Prop) (m : M A) : Prop :=
  forall w, R w (snd (m w)).

(** A relation between worlds that can be chained along a computation:
    a preorder that a call leaving the process respects, whether the call
    is performed or fails as the fault schedule has it. *)
Class Frame (R : World -> World -> Prop) : Prop := {
  frame_refl : forall w, R w w;
  frame_trans : forall a b c, R a b -> R b c -> R a c;
  frame_io : forall (A : Type) (act : M A),
      (forall w, R w (snd (act w))) -> forall w, R w (snd (io act w))
}.


(** The rows of a table after a sequence of updates of one job. *)
Definition patched (job_id : string) (ps : list JobPatch) (js : list JobRow) : list JobRow :=
  fold_left (fun rows p => patch_rows job_id p rows) ps js.

(** What a run for [job_id] may do to the table of jobs and to the broker's
    key space: update the rows of the job, and delete the raw key
    [job_status:<job_id>]. *)
Definition run_frame (job_id : string) (w w' : World) : Prop :=
  (exists ps, jobs w' = patched job_id ps (jobs w))
  /\ (kv w' = kv w \/ kv w' = delete ("job_status:" +:+ job_id) (kv w)).

(** The entry under one broker key is the same. *)
Definition same_key (k : string) (w w' : World) : Prop := kv w' !! k = kv w !! k.

(** Two rows that differ at most in the columns an update can write. *)
Definition same_identity (j j' : JobRow) : Prop :=
  id j' = id j /\ user_id j' = user_id j /\ created_at j' = created_at j.

(** [all([job_id, user_id, audio_url, user_prompt])] *)
Definition payload_complete (job_data : Worker.JobData) : bool :=
  truthy (Worker.jd_job_id job_data) && truthy (Worker.jd_user_id job_data)
  && truthy (Worker.jd_audio_url job_data) && truthy (Worker.jd_user_prompt job_data).

(** Any action at all. *)
Definition any_action (a : Action) : bool := true.

(** What [m] appends to the trace from [w] starts with the actions [l]. *)
Definition begins_with {A} (m : M A) (w : World) (l : list Action) : Prop :=
  exists t, trace (snd (m w)) = (trace w ++ l ++ t)%list.

Definition processing_patch : JobPatch := mkPatch (Some "processing") None None None None None.

(** A stage, started in [w], has stopped at its cancellation check: it
    returned [None] after announcing itself, marking the job failed with
    the message of a cancellation and publishing the [error] event. *)
Definition stopped_at {A} (job_id stage : string) (w : World)
    (r : Res (option A) * World) : Prop :=
  fst r = Ok None
  /\ jobs (snd r) = patch_rows job_id (failed_patch "Job cancelled by user") (jobs w)
  /\ trace (snd r)
     = (trace w ++
        [Publish (channel_of job_id) "stage_update" (StageStarted stage);
         JobUpdate job_id (failed_patch "Job cancelled by user");
         Publish (channel_of job_id) "error"
                 (ErrorData "Job cancelled by user" None false)])%list.

(** A terminal write carries the columns that go with the status:
    [completed] comes with progress 100, the stage [composer], the video
    URL and the total; [failed] comes with an error message. *)
Definition well_formed_write (a : Action) : bool :=
  match a with
  | JobUpdate _ p =>
      (if opt_is (p_status p) "completed"
       then opt_is (p_current_stage p) "composer"
            && match p_progress p, p_video_url p, p_total_cost p with
               | Some v, Some _, Some _ => v =? 100
               | _, _, _ => false
               end
       else true)
      && (if opt_is (p_status p) "failed"
          then match p_error_message p with Some _ => true | None => false end
          else true)
  | _ => true
  end.

(** Descending order of creation: a row is not older than the next one. *)
Definition not_older (a b : JobRow) : Prop :=
  String.ltb (created_at a) (created_at b) = false.

(** ** api_gateway/services/sse_manager.py: the registry of connections *)

Module SseHub.

(** A Python [dict]: an association list with distinct keys, in insertion
    order. *)
Section Dict.

Context {K V : Type} `{EqDecision K}.

Fixpoint dict_get (k : K) (d : list (K * V)) : option V :=
  match d with
  | [] => None
  | (k', v) :: d' => if decide (k' = k) then Some v else dict_get k d'
  end.

(** [k in d] *)
Definition dict_mem (k : K) (d : list (K * V)) : bool :=
  match dict_get k d with Some _ => true | None => false end.

(** [d[k] = v]: a key that is present keeps its position. *)
Fixpoint dict_set (k : K) (v : V) (d : list (K * V)) : list (K * V) :=
  match d with
  | [] => [(k, v)]
  | (k', v') :: d' =>
      if decide (k' = k) then (k, v) :: d' else (k', v') :: dict_set k v d'
  end.

(** [del d[k]] *)
Fixpoint dict_del (k : K) (d : list (K * V)) : list (K * V) :=
  match d with
  | [] => []
  | (k', v') :: d' => if decide (k' = k) then d' else (k', v') :: dict_del k d'
  end.

End Dict.

(** An [asyncio.Queue] is known by its identity. *)
Definition QueueId := nat.

(** The two module-level dictionaries.  Clock readings ([time.time()]) are
    rational numbers of seconds. *)
Record Hub : Type := mkHub {
  connections : list (string * list QueueId);
  connection_timestamps : list (string * list (QueueId * Q))
}.

Definition MAX_CONNECTIONS_PER_JOB : nat := 10.

Definition too_many : Exn := OtherException "Maximum 10 connections per job exceeded".

(** [now] is the value of [time.time()] read by the call. *)
Definition add_connection (job_id : string) (queue : QueueId) (now : Q) (h : Hub)
    : Res unit * Hub :=
  let conns := if dict_mem job_id (connections h) then connections h
               else dict_set job_id [] (connections h) in
  let qs := default [] (dict_get job_id conns) in
  if (MAX_CONNECTIONS_PER_JOB <=? length qs)%nat then
    (Raise too_many, mkHub conns (connection_timestamps h))
  else
    let conns := dict_set job_id (qs ++ [queue])%list conns in
    let ts := if dict_mem job_id (connection_timestamps h) then connection_timestamps h
              else dict_set job_id [] (connection_timestamps h) in
    let ts := dict_set job_id (dict_set queue now (default [] (dict_get job_id ts))) ts in
    (Ok tt, mkHub conns ts).

(** [l.remove(x)]: the first occurrence goes; [None] stands for the
    [ValueError] raised when there is none. *)
Fixpoint list_remove (x : QueueId) (l : list QueueId) : option (list QueueId) :=
  match l with
  | [] => None
  | y :: l' => if decide (y = x) then Some l' else cons y <$> list_remove x l'
  end.

Definition remove_connection (job_id : string) (queue : QueueId) (h : Hub) : Hub :=
  let conns :=
    match dict_get job_id (connections h) with
    | Some qs =>
        match list_remove queue qs with
        | Some qs' =>
            if (length qs' =? 0)%nat then dict_del job_id (connections h)
            else dict_set job_id qs' (connections h)
        | None => connections h
        end
    | None => connections h
    end in
  let ts :=
    match dict_get job_id (connection_timestamps h) with
    | Some d =>
        if dict_mem queue d then
          match dict_del queue d with
          | [] => dict_del job_id (connection_timestamps h)
          | d' => dict_set job_id d' (connection_timestamps h)
          end
        else connection_timestamps h
    | None => connection_timestamps h
    end in
  mkHub conns ts.

Definition get_connections (job_id : string) (h : Hub) : list QueueId :=
  default [] (dict_get job_id (connections h)).

(** [current_time - last_heartbeat > timeout_seconds] *)
Definition stale (current_time last_heartbeat : Q) (timeout_seconds : Z) : bool :=
  negb (Qle_bool (current_time - last_heartbeat)%Q (inject_Z timeout_seconds)).

(** The inner loop of the sweep, over the snapshot [list(timestamps.items())]
    of one job. *)
Fixpoint sweep_job (current_time : Q) (timeout_seconds : Z) (items : list (QueueId * Q))
    (queues : list QueueId) (timestamps : list (QueueId * Q)) (removed_count : Z)
    : list QueueId * list (QueueId * Q) * Z :=
  match items with
  | [] => (queues, timestamps, removed_count)
  | (queue, last_heartbeat) :: rest =>
      if stale current_time last_heartbeat timeout_seconds then
        match list_remove queue queues with
        | Some queues' =>
            sweep_job current_time timeout_seconds rest queues'
                      (dict_del queue timestamps) (removed_count + 1)
        | None => sweep_job current_time timeout_seconds rest queues timestamps removed_count
        end
      else sweep_job current_time timeout_seconds rest queues timestamps removed_count
  end.

(** The outer loop, over the snapshot [list(connections.items())]. *)
Fixpoint sweep (current_time : Q) (timeout_seconds : Z)
    (snapshot : list (string * list QueueId)) (h : Hub) (removed_count : Z) : Z * Hub :=
  match snapshot with
  | [] => (removed_count, h)
  | (job_id, queues) :: rest =>
      match dict_get job_id (connection_timestamps h) with
      | None => sweep current_time timeout_seconds rest h removed_count
      | Some timestamps =>
          match sweep_job current_time timeout_seconds timestamps queues timestamps
                          removed_count with
          | (queues', timestamps', removed_count') =>
              let conns := match queues' with
                           | [] => dict_del job_id (connections h)
                           | _ => dict_set job_id queues' (connections h)
                           end in
              let ts := match timestamps' with
                        | [] => dict_del job_id (connection_timestamps h)
                        | _ => dict_set job_id timestamps' (connection_timestamps h)
                        end in
              sweep current_time timeout_seconds rest (mkHub conns ts) removed_count'
          end
      end
  end.

Definition cleanup_stale_connections (current_time : Q) (timeout_seconds : Z) (h : Hub)
    : Z * Hub :=
  sweep current_time timeout_seconds (connections h) h 0.

Definition update_connection_timestamp (job_id : string) (queue : QueueId) (now : Q)
    (h : Hub) : Hub :=
  match dict_get job_id (connection_timestamps h) with
  | Some d =>
      if dict_mem queue d
      then mkHub (connections h) (dict_set job_id (dict_set queue now d) (connection_timestamps h))
      else h
  | None => h
  end.

End SseHub.

(** No job has more connections than the hub allows. *)
Definition within_capacity (h : SseHub.Hub) : Prop :=
  Forall (fun e => (length (snd e) <= SseHub.MAX_CONNECTIONS_PER_JOB)%nat)
         (SseHub.connections h).

(** The dictionaries of the hub have distinct keys, and no queue is
    registered twice for a job. *)
Definition well_formed (h : SseHub.Hub) : Prop :=
  List.NoDup (List.map fst (SseHub.connections h))
  /\ Forall (fun e => List.NoDup (snd e)) (SseHub.connections h)
  /\ List.NoDup (List.map fst (SseHub.connection_timestamps h))
  /\ Forall (fun e => List.NoDup (List.map fst (snd e))) (SseHub.connection_timestamps h).

(** The connection has gone without a heartbeat for longer than the
    timeout. *)
Definition is_stale (h : SseHub.Hub) (current_time : Q) (timeout_seconds : Z)
    (job_id : string) (queue : SseHub.QueueId) : bool :=
  match SseHub.dict_get job_id (SseHub.connection_timestamps h) with
  | Some d =>
      match SseHub.dict_get queue d with
      | Some last_heartbeat => SseHub.stale current_time last_heartbeat timeout_seconds
      | None => false
      end
  | None => false
  end.

(** The number of stale connections among the given entries, and in the
    hub. *)
Definition stale_sum (h : SseHub.Hub) (current_time : Q) (timeout_seconds : Z)
    (snapshot : list (string * list SseHub.QueueId)) : Z :=
  fold_right Z.add 0
    (List.map (fun e => Z.of_nat (length (List.filter
                                            (is_stale h current_time timeout_seconds (fst e))
                                            (snd e))))
              snapshot).

Definition stale_count (h : SseHub.Hub) (current_time : Q) (timeout_seconds : Z) : Z :=
  stale_sum h current_time timeout_seconds (SseHub.connections h).

(** The last heartbeat recorded for a queue in the timestamps of one job is
    older than the timeout. *)
Definition stale_in (current_time : Q) (timeout_seconds : Z)
    (items : list (SseHub.QueueId * Q)) (queue : SseHub.QueueId) : bool :=
  match SseHub.dict_get queue items with
  | Some last_heartbeat => SseHub.stale current_time last_heartbeat timeout_seconds
  | None => false
  end.

(** ** shared/validation.py *)

Module Validation.

Section Prompt.

(** A Python [str] is a sequence of characters; [isspace] tells the
    characters that [str.strip()] removes. *)
Variable Char : Type.
Variable isspace : Char -> bool.

Fixpoint lstrip (s : list Char) : list Char :=
  match s with
  | [] => []
  | c :: s' => if isspace c then lstrip s' else s
  end.

Definition rstrip (s : list Char) : list Char := rev (lstrip (rev s)).

(** [s.strip()] *)
Definition strip (s : list Char) : list Char := rstrip (lstrip s).

(** The prompt is typed as [str], so the [isinstance] check passes. *)
Definition validate_prompt (prompt : list Char) (min_length max_length : Z) : Res unit :=
  match prompt with
  | [] => Raise (ValidationError "Prompt is required" None)
  | _ =>
      let prompt_length := Z.of_nat (length (strip prompt)) in
      if prompt_length <? min_length then
        Raise (ValidationError
                 ("Prompt must be at least " +:+ pretty min_length
                    +:+ " characters long (current: " +:+ pretty prompt_length +:+ ")")
                 None)
      else if max_length <? prompt_length then
        Raise (ValidationError
                 ("Prompt must be at most " +:+ pretty max_length
                    +:+ " characters long (current: " +:+ pretty prompt_length +:+ ")")
                 None)
      else Ok tt
  end.

End Prompt.

Arguments lstrip {Char}.
Arguments rstrip {Char}.
Arguments strip {Char}.
Arguments validate_prompt {Char}.

End Validation.

(** ** Scenarios

    Concrete worlds, settings and collaborators on which the properties
    are exercised. *)

Module Scenario.

(** The identifier of the job of most scenarios, as the upload route
    generates them. *)
Definition J : string := "3f2a9c1e-7b4d-4e8a-9f10-5c6d7e8f9a0b".

Definition outage : Exn := OtherException "Connection refused".

Definition world_with_outage : World :=
  mkWorld [mkJob J "u" "processing" 20 (Some "scene_planner") None None 0 "2024-05-01T10:00:00"]
          [] [] ∅ ∅ [] [Some outage].

Definition development : Settings := mkSettings "development" false.
Definition production : Settings := mkSettings "production" false.

Definition fresh_job : JobRow :=
  mkJob J "u" "processing" 0 None None None 0 "2024-05-01T10:00:00".

Definition fresh_world : World := mkWorld [fresh_job] [] [] ∅ ∅ [] [].

(** Two jobs of one user, stored oldest first. *)
Definition older_job : JobRow :=
  mkJob "A" "u" "completed" 100 (Some "composer") None (Some "https://cdn/a.mp4") 4200
        "2024-05-01T10:00:00".
Definition newer_job : JobRow :=
  mkJob "B" "u" "queued" 0 None None None 0 "2024-05-02T09:30:00".
Definition two_jobs_world : World := mkWorld [older_job; newer_job] [] [] ∅ ∅ [] [].

(** A job in progress whose status is in the status cache. *)
Definition processing_job : JobRow :=
  mkJob J "u" "processing" 20 (Some "scene_planner") None None 0 "2024-05-01T10:00:00".
Definition cached_world : World :=
  mkWorld [processing_job] [] []
          {[ status_cache_key J := mkEntry (RStr (JobDoc processing_job)) (Some 30) ]}
          ∅ [] [].

(** A clock reading, in seconds. *)
Definition noon : Z := 1714557600.

(** Collaborators that work, and a set whose audio parser crashes with an
    exception from outside the pipeline's own hierarchy. *)
Definition crash : Exn := OtherException "decoder crashed".
Definition good {A} (a : A) : Collaborator A := mkCollab true [] (Returns a).
Definition three_clips : Clips :=
  [mkClip 0 "https://cdn/c0.mp4" 5000; mkClip 1 "https://cdn/c1.mp4" 5000;
   mkClip 2 "https://cdn/c2.mp4" 5000].
Definition working_env : Collaborators :=
  mkCollabs (fun _ _ => good Orchestrator.stub_audio)
            (fun _ _ _ => good Orchestrator.stub_plan)
            (fun _ _ => mkCollab true [("sdxl", 1200)] (Returns ["https://cdn/ref.png"]))
            (fun _ _ _ => good Orchestrator.stub_prompts)
            (fun _ _ => mkCollab true [("svd", 2400)] (Returns three_clips))
            (fun _ _ _ _ _ => good (mkVideo "https://cdn/final.mp4" 15000))
            (fun _ => None).

(** A job as the upload endpoint leaves it, and its queue entry. *)
Definition queued_job : JobRow :=
  mkJob J "u" "queued" 0 None None None 0 "2024-05-01T10:00:00".
Definition queued_world : World := mkWorld [queued_job] [] [] ∅ ∅ [] [].
Definition job_data : Worker.JobData :=
  Worker.mkJobData (Some J) (Some "u") (Some "https://cdn/in.mp3")
                   (Some "a city at night, neon lights, slow camera moves, rain").

(** A job in production that has already cost 1960.00. *)
Definition nearly_spent_world : World :=
  mkWorld [mkJob J "u" "queued" 0 None None None 196000 "2024-05-01T10:00:00"]
          [] [] ∅ ∅ [] [].

(** Collaborators whose reference synthesis charges 1999.00. *)
Definition costly_env : Collaborators :=
  mkCollabs (parse_audio working_env) (plan_scene working_env)
            (fun _ _ => mkCollab true [("sdxl", 199900)] (Returns ["https://cdn/ref.png"]))
            (generate_prompts working_env) (generate_videos working_env)
            (compose_video working_env) (stub_failure working_env).

(** Collaborators whose clip generator charges 16.00 and returns two
    clips. *)
Definition two_clips : Clips :=
  [mkClip 0 "https://cdn/c0.mp4" 5000; mkClip 1 "https://cdn/c1.mp4" 5000].
Definition two_clips_env : Collaborators :=
  mkCollabs (parse_audio working_env) (plan_scene working_env)
            (generate_references working_env) (generate_prompts working_env)
            (fun _ _ => mkCollab true [("svd", 1600)] (Returns two_clips))
            (compose_video working_env) (stub_failure working_env).

(** A job whose identifier is no UUID. *)
Definition malformed_world : World :=
  mkWorld [mkJob "job-1" "u" "queued" 0 None None None 0 "2024-05-01T10:00:00"]
          [] [] ∅ ∅ [] [].

(** No stage module is installed, and the model classes of the stubs
    cannot be imported. *)
Definition absent {A} (a : A) : Collaborator A := mkCollab false [] (Returns a).
Definition bare_env : Collaborators :=
  mkCollabs (fun _ _ => absent Orchestrator.stub_audio)
            (fun _ _ _ => absent Orchestrator.stub_plan)
            (fun _ _ => absent [])
            (fun _ _ _ => absent Orchestrator.stub_prompts)
            (fun _ _ => absent Orchestrator.stub_clips)
            (fun _ _ _ _ _ => absent Orchestrator.stub_video)
            (fun stage =>
               Some (ImportError
                       (if String.eqb stage "audio_parser"
                        then "No module named 'shared.models.audio'"
                        else if String.eqb stage "scene_planner"
                             then "No module named 'shared.models.scene'"
                             else "No module named 'shared.models.video'"))).

Definition audio_in : string := "https://cdn/in.mp3".
Definition prompt_in : string := "a city at night, neon lights, slow camera moves, rain".

(** A job in progress that has been cancelled: the marker is set. *)
Definition cancelled_world : World :=
  mkWorld [processing_job] [] []
          {[ cancel_marker_key J := mkEntry (RStr (Plain "1")) (Some 900) ]}
          ∅ [] [].

(** A world in which the first [n] calls that leave the process succeed and
    the next one fails. *)
Definition world_failing_at (n : nat) : World :=
  mkWorld [queued_job] [] [] ∅ ∅ [] (repeat None n ++ [Some outage]).

(** Collaborators whose reference synthesis crashes, and collaborators
    whose clip generator charges 2500.00. *)
Definition degraded_env : Collaborators :=
  mkCollabs (parse_audio working_env) (plan_scene working_env)
            (fun _ _ => mkCollab true [] (Fails crash))
            (generate_prompts working_env) (generate_videos working_env)
            (compose_video working_env) (stub_failure working_env).
Definition overspending_env : Collaborators :=
  mkCollabs (parse_audio working_env) (plan_scene working_env)
            (generate_references working_env) (generate_prompts working_env)
            (fun _ _ => mkCollab true [("svd", 250000)] (Returns three_clips))
            (compose_video working_env) (stub_failure working_env).

(** A user who has been admitted five times, at five consecutive seconds. *)
Definition full_window_world : World :=
  snd (admissions development "u" [noon; noon + 1; noon + 2; noon + 3; noon + 4] fresh_world).

(** A hub with two connections for one job: queue 0 registered at time 0,
    queue 1 at time 100. *)
Definition empty_hub : SseHub.Hub := SseHub.mkHub [] [].
Definition two_connections_hub : SseHub.Hub :=
  snd (SseHub.add_connection J 1%nat (inject_Z 100)
         (snd (SseHub.add_connection J 0%nat (inject_Z 0) empty_hub))).

(** A prompt of sixty letters, and the blank as the only space. *)
Definition is_blank (c : Ascii.ascii) : bool := Ascii.eqb c " "%char.
Definition sixty_letters : list Ascii.ascii := repeat "a"%char 60.

End Scenario.
Import Scenario.

(** * Properties *)

(** ** The monad *)

Lemma bind_ok {A B} (m : M A) (k : A -> M B) w a w' :
  m w = (Ok a, w') -> bind m k w = k a w'.
Proof. intros H. unfold bind. now rewrite H. Qed.

Lemma bind_raise {A B} (m : M A) (k : A -> M B) w e w' :
  m w = (Raise e, w') -> bind m k w = (Raise e, w').
Proof. intros H. unfold bind. now rewrite H. Qed.

Lemma try_except_ok {A} (m : M A) h w a w' :
  m w = (Ok a, w') -> try_except m h w = (Ok a, w').
Proof. intros H. unfold try_except. now rewrite H. Qed.

Lemma try_except_raise {A} (m : M A) h w e w' :
  m w = (Raise e, w') -> try_except m h w = h e w'.
Proof. intros H. unfold try_except. now rewrite H. Qed.

Lemma io_no_fault {A} (act : M A) w :
  faults w = [] -> io act w = act w.
Proof. intros H. unfold io. now rewrite H. Qed.

Lemma io_fault {A} (act : M A) w e fs :
  faults w = Some e :: fs -> io act w = (Raise e, set_faults fs w).
Proof. intros H. unfold io. now rewrite H. Qed.

(** A handler that returns makes the whole [try] return. *)
Lemma try_except_total {A} (m : M A) (h : Exn -> M A) :
  (forall e, never_raises (h e)) -> never_raises (try_except m h).
Proof.
  intros Hh w. unfold try_except.
  destruct (m w) as [[a | e] w'].
  - now exists a.
  - apply Hh.
Qed.

Lemma ret_never_raises {A} (a : A) : never_raises (ret a).
Proof. intros w. now exists a. Qed.

Lemma publish_event_never_raises job_id ty d : never_raises (publish_event job_id ty d).
Proof. apply try_except_total. intros e. apply ret_never_raises. Qed.

(** ** C9: the cancellation check fails open *)

Lemma raw_get_frame key w r w' :
  Redis.raw_get key w = (r, w') ->
  jobs w' = jobs w /\ trace w' = trace w /\ kv w' = kv w.
Proof.
  unfold Redis.raw_get, io. intros H.
  destruct (faults w) as [| [e |] fs].
  - destruct (kv w !! key) as [[[v | ms] t] |]; inversion H; subst; auto.
  - inversion H; subst; auto.
  - destruct (kv (set_faults fs w) !! key) as [[[v | ms] t] |];
      inversion H; subst; auto.
Qed.

(** C9. If the broker read of the cancellation marker raises, whatever the
    exception, [check_cancellation] returns [False]: the failure is
    swallowed, the job rows and the observable trace are left as they
    were, and the run goes on as for a job that is not cancelled. *)
Theorem check_cancellation_fails_open :
  forall (job_id : string) (w : World) (e : Exn) (w' : World),
    Redis.raw_get (cancel_marker_key job_id) w = (Raise e, w') ->
    check_cancellation job_id w = (Ok false, w')
    /\ jobs w' = jobs w /\ trace w' = trace w.
Proof.
  intros job_id w e w' H. split.
  - unfold check_cancellation.
    erewrite try_except_raise; [reflexivity |].
    erewrite bind_raise; [reflexivity |].
    unfold Redis.get. erewrite try_except_raise by exact H. reflexivity.
  - apply raw_get_frame in H. tauto.
Qed.

Lemma check_cancellation_fails_open_witness :
  Redis.raw_get (cancel_marker_key J) world_with_outage
    = (Raise outage, set_faults [] world_with_outage)
  /\ check_cancellation J world_with_outage = (Ok false, set_faults [] world_with_outage).
Proof.
  split; [reflexivity |].
  apply (check_cancellation_fails_open J world_with_outage outage
           (set_faults [] world_with_outage)).
  reflexivity.
Defined.

Lemma check_cancellation_never_raises job_id : never_raises (check_cancellation job_id).
Proof.
  apply try_except_total. intros e w. now exists false.
Qed.

(** ** C10: a failed progress update never raises *)

(** C10. [update_progress] returns normally from every world and for every
    schedule of failures of the store write, of the cache invalidation and
    of the publications: nothing it does can raise into the pipeline. *)
Theorem update_progress_never_raises :
  forall (job_id : string) (progress : Z) (stage_name : string) (w : World),
    exists w', update_progress job_id progress stage_name w = (Ok tt, w').
Proof.
  intros job_id progress stage_name w.
  unfold update_progress, try_except.
  match goal with |- context [match ?b w with _ => _ end] => destruct (b w) as [[[] | e] w1] end.
  - now exists w1.
  - now exists w1.
Qed.

(** The failure of the durable write itself is swallowed: the row keeps its
    progress and no event is published. *)
Example update_progress_store_failure :
  update_progress J 30 "reference_generator" world_with_outage
  = (Ok tt, set_faults [] world_with_outage).
Proof. reflexivity. Qed.

(** ** The ledger *)

Lemma select_job_inv job_id w r w' :
  Store.select_job job_id w = (r, w') ->
  jobs w' = jobs w /\ trace w' = trace w /\ kv w' = kv w /\
  (forall rows, r = Ok rows -> rows = List.filter (fun j => String.eqb (id j) job_id) (jobs w)).
Proof.
  unfold Store.select_job, io. intros H.
  destruct (faults w) as [| [e |] fs]; inversion H; subst; cbn;
    repeat split; auto; intros rows Hr; inversion Hr; reflexivity.
Qed.

Lemma get_total_cost_ok job_id w c w' :
  CostTracker.get_total_cost job_id w = (Ok c, w') ->
  c = current_total job_id w' /\ jobs w' = jobs w /\ trace w' = trace w.
Proof.
  unfold CostTracker.get_total_cost, try_except, bind. intros H.
  destruct (Store.select_job job_id w) as [[rows | e] w1] eqn:Hs.
  - apply select_job_inv in Hs. destruct Hs as (Hj & Ht & _ & Hr).
    specialize (Hr rows eq_refl). unfold current_total.
    destruct rows as [| row rest]; inversion H; subst; cbn in *.
    + rewrite Hj, <- Hr. auto.
    + rewrite Hj, <- Hr. auto.
  - inversion H.
Qed.

Lemma enforce_budget_limit_ok job_id limit w w' :
  CostTracker.enforce_budget_limit job_id limit w = (Ok tt, w') ->
  current_total job_id w' <= limit /\ jobs w' = jobs w /\ trace w' = trace w.
Proof.
  unfold CostTracker.enforce_budget_limit, try_except, bind. intros H.
  destruct (CostTracker.get_total_cost job_id w) as [[c | e] w1] eqn:Hg.
  - apply get_total_cost_ok in Hg. destruct Hg as (Hc & Hj & Ht).
    destruct (limit <? c) eqn:Hlt.
    + cbn in H. inversion H.
    + inversion H; subst. apply Z.ltb_ge in Hlt. auto.
  - cbn in H. destruct (is_BudgetExceededError _); inversion H.
Qed.

Lemma UUID_ok job_id w : is_uuid job_id = true -> UUID job_id w = (Ok job_id, w).
Proof. intros H. unfold UUID. now rewrite H. Qed.

Lemma UUID_malformed job_id w :
  is_uuid job_id = false ->
  UUID job_id w = (Raise (OtherException "badly formed hexadecimal UUID string"), w).
Proof. intros H. unfold UUID. now rewrite H. Qed.

Lemma enforce_budget_ok cfg job_id w w' :
  enforce_budget cfg job_id w = (Ok tt, w') ->
  within_budget cfg job_id w' /\ jobs w' = jobs w /\ trace w' = trace w.
Proof.
  unfold enforce_budget, try_except, bind. intros H.
  destruct (is_uuid job_id) eqn:Hu;
    [rewrite UUID_ok in H by exact Hu | rewrite UUID_malformed in H by exact Hu; inversion H].
  destruct (CostTracker.enforce_budget_limit _ _ w) as [[[] | e] w1] eqn:He.
  - inversion H; subst. now apply enforce_budget_limit_ok in He.
  - destruct (is_BudgetExceededError e).
    + unfold bind in H. destruct (publish_event _ _ _ w1) as [[[] | e'] w2]; inversion H.
    + inversion H.
Qed.

Lemma update_job_inv job_id p w r w' :
  Store.update_job job_id p w = (r, w') ->
  (exists e, r = Raise e /\ jobs w' = jobs w /\ trace w' = trace w /\ kv w' = kv w)
  \/ (r = Ok tt /\ jobs w' = patch_rows job_id p (jobs w)
      /\ trace w' = (trace w ++ [JobUpdate job_id p])%list /\ kv w' = kv w).
Proof.
  unfold Store.update_job, io. intros H.
  destruct (faults w) as [| [e |] fs]; inversion H; subst; cbn; eauto 10.
Qed.

Lemma insert_cost_inv r0 w r w' :
  Store.insert_cost r0 w = (r, w') ->
  jobs w' = jobs w /\ trace w' = trace w /\ kv w' = kv w.
Proof.
  unfold Store.insert_cost, io. intros H.
  destruct (faults w) as [| [e |] fs]; inversion H; subst; cbn; auto.
Qed.

Lemma filter_patch_rows job_id p js :
  List.filter (fun j => String.eqb (id j) job_id) (patch_rows job_id p js)
  = List.map (apply_patch p) (List.filter (fun j => String.eqb (id j) job_id) js).
Proof.
  induction js as [| j js IH]; [reflexivity |].
  cbn. destruct (String.eqb (id j) job_id) eqn:E; cbn.
  - rewrite E. cbn. now f_equal.
  - rewrite E. exact IH.
Qed.

Lemma has_job_filter job_id w :
  has_job job_id w = match List.filter (fun j => String.eqb (id j) job_id) (jobs w) with
                     | [] => false | _ :: _ => true end.
Proof.
  unfold has_job. induction (jobs w) as [| j js IH]; [reflexivity |].
  cbn. destruct (String.eqb (id j) job_id); [reflexivity | exact IH].
Qed.

Lemma track_cost_ok job_id stage api cost w w' :
  CostTracker.track_cost job_id stage api cost w = (Ok tt, w') ->
  0 <= cost
  /\ current_total job_id w'
     = (if has_job job_id w then current_total job_id w + cost else 0).
Proof.
  unfold CostTracker.track_cost. destruct (cost <? 0) eqn:Hneg; [inversion 1 |].
  apply Z.ltb_ge in Hneg. intros H. split; [exact Hneg |].
  unfold try_except, bind in H.
  destruct (Store.insert_cost _ w) as [[[] | e] w1] eqn:Hi; [| inversion H].
  apply insert_cost_inv in Hi. destruct Hi as (Hj1 & _).
  destruct (Store.select_job job_id w1) as [[rows | e] w2] eqn:Hs; [| inversion H].
  apply select_job_inv in Hs. destruct Hs as (Hj2 & _ & _ & Hr).
  specialize (Hr rows eq_refl).
  rewrite has_job_filter. unfold current_total at 2.
  rewrite <- Hj1, <- Hr.
  destruct rows as [| row rest].
  - cbn in H. inversion H; subst. unfold current_total. rewrite Hj2, <- Hr. reflexivity.
  - destruct (Store.update_job _ _ w2) as [[[] | e] w3] eqn:Hu; [| inversion H].
    cbn in H. inversion H; subst.
    apply update_job_inv in Hu. destruct Hu as [(e & He & _) | (_ & Hj3 & _)]; [discriminate |].
    unfold current_total. rewrite Hj3, filter_patch_rows, Hj2, <- Hr. reflexivity.
Qed.

(** A charge when the store answers every call. *)
Lemma track_cost_no_fault job_id stage api cost w :
  faults w = [] -> 0 <= cost ->
  exists w',
    CostTracker.track_cost job_id stage api cost w = (Ok tt, w')
    /\ faults w' = []
    /\ job_costs w' = (job_costs w ++ [mkCost job_id stage api cost])%list
    /\ jobs w' = (if has_job job_id w
                  then patch_rows job_id (cost_patch (current_total job_id w + cost)) (jobs w)
                  else jobs w)
    /\ kv w' = kv w.
Proof.
  intros Hf Hc. unfold CostTracker.track_cost.
  destruct (cost <? 0) eqn:E; [apply Z.ltb_lt in E; lia|].
  rewrite has_job_filter. unfold current_total.
  unfold try_except, bind, Store.insert_cost, Store.select_job, Store.update_job, log, ret.
  rewrite (io_no_fault _ w Hf). cbn.
  rewrite io_no_fault by exact Hf. cbn.
  destruct (List.filter (fun j => String.eqb (id j) job_id) (jobs w)) as [|row rest] eqn:Hrows.
  - eexists. split; [reflexivity|]. cbn. auto.
  - rewrite io_no_fault by exact Hf. cbn.
    eexists. split; [reflexivity|]. cbn. auto.
Qed.

(** ** C2: the budget bound holds when it is enforced *)

(** C2, as stated, fails: in development (limit 50.00) a charge of 60.00 on
    a job with no cost so far completes and leaves [total_cost] at 60.00,
    an observable moment at which the total is above the limit. *)
Lemma ledger_does_not_keep_budget : ~ ledger_keeps_budget.
Proof.
  intros H.
  specialize (H development J "video_generator" "svd" 6000 fresh_world
                (snd (CostTracker.track_cost J "video_generator" "svd" 6000 fresh_world))).
  assert (Hw : within_budget development J fresh_world) by (vm_compute; discriminate).
  specialize (H Hw eq_refl). vm_compute in H. apply H. reflexivity.
Qed.

(** C2, amended.  The limit is 2000.00 in production and staging and 50.00
    otherwise.  The job is within that limit whenever the orchestrator's
    enforcement returns without raising.  The ledger does not consult the
    limit: a charge that completes has a non-negative cost and does not
    lower the total, and, the store answering, every charge with a
    non-negative cost completes, whatever the total. *)
Theorem budget_bound_when_enforced :
  forall (cfg : Settings) (job_id : string) (w : World),
    (forall w', enforce_budget cfg job_id w = (Ok tt, w') -> within_budget cfg job_id w')
    /\ (forall stage api cost w',
          CostTracker.track_cost job_id stage api cost w = (Ok tt, w') ->
          0 <= cost /\ current_total job_id w <= current_total job_id w')
    /\ (forall stage api cost,
          faults w = [] -> 0 <= cost ->
          exists w', CostTracker.track_cost job_id stage api cost w = (Ok tt, w'))
    /\ get_budget_limit (environment cfg)
       = (if String.eqb (environment cfg) "production"
             || String.eqb (environment cfg) "staging"
          then 200000 else 5000).
Proof.
  intros cfg job_id w. split; [| split; [| split]].
  - intros w' H. now apply enforce_budget_ok in H.
  - intros stage api cost w' H. apply track_cost_ok in H. destruct H as (Hc & Ht).
    split; [exact Hc |]. rewrite Ht, has_job_filter. unfold current_total.
    destruct (List.filter _ (jobs w)); lia.
  - intros stage api cost Hf Hc.
    destruct (track_cost_no_fault job_id stage api cost w Hf Hc) as (w' & H & _).
    now exists w'.
  - reflexivity.
Qed.

Lemma budget_bound_when_enforced_witness :
  is_uuid J = true
  /\ enforce_budget development J fresh_world = (Ok tt, fresh_world)
  /\ within_budget development J fresh_world
  /\ (let w' := snd (CostTracker.track_cost J "video_generator" "svd" 6000 fresh_world) in
      current_total J fresh_world <= current_total J w'
      /\ ~ within_budget development J w').
Proof.
  destruct (budget_bound_when_enforced development J fresh_world) as (He & Ht & _).
  split; [reflexivity |]. split; [reflexivity |].
  split; [apply He; reflexivity |].
  split.
  - apply (Ht "video_generator" "svd" 6000). reflexivity.
  - vm_compute. intros H. apply H. reflexivity.
Defined.

(** ** C4: the sliding window of the rate limiter *)

(** C4, evaluated at the failing input: six admissions of one user at the
    same clock reading.  The member added to the sorted set is the
    timestamp itself, so the six calls leave one member in the set and
    none of them is refused. *)
Theorem six_admissions_in_one_second :
  fst (admissions development "u" [noon; noon; noon; noon; noon; noon] fresh_world)
    = [true; true; true; true; true; true]
  /\ count_true
       (fst (admissions development "u" [noon; noon; noon; noon; noon; noon] fresh_world))
     = 6%nat
  /\ kv (snd (admissions development "u" [noon; noon; noon; noon; noon; noon] fresh_world))
       !! "rate_limit:u"
     = Some (mkEntry (RZSet [("1714557600", noon)]) (Some 3600)).
Proof. repeat split; vm_compute; reflexivity. Qed.

(** At distinct readings the window works as described: the sixth call
    within the hour is refused with the time left until the oldest
    admission leaves the window, and a call is admitted again once it
    has. *)
Example admissions_at_distinct_seconds :
  fst (admissions development "u"
         [noon; noon + 1; noon + 2; noon + 3; noon + 4; noon + 5; noon + 3599; noon + 3600]
         fresh_world)
    = [true; true; true; true; true; false; false; true]
  /\ fst (check_rate_limit development "u" (noon + 5)
            (snd (admissions development "u"
                    [noon; noon + 1; noon + 2; noon + 3; noon + 4] fresh_world)))
     = Raise (RateLimitError "Rate limit exceeded: 5 jobs per hour" 3595
                             (Some "RATE_LIMIT_EXCEEDED")).
Proof. split; vm_compute; reflexivity. Qed.

(** One call, the broker working: the set is trimmed to the window; with
    five or more members left the call is refused with the time until the
    oldest leaves the window; otherwise the timestamp is added as member
    and score, and the key expires in an hour. *)
Lemma zset_of_store key ms t w :
  Redis.zset_of (Redis.store_zset key ms t w) key = Ok ms.
Proof.
  unfold Redis.zset_of, Redis.store_zset. destruct ms as [| m ms]; cbn.
  - now rewrite lookup_delete_eq.
  - now rewrite lookup_insert_eq.
Qed.

Lemma faults_store key ms t w : faults (Redis.store_zset key ms t w) = faults w.
Proof. unfold Redis.store_zset. destruct ms; reflexivity. Qed.

Lemma check_rate_limit_step cfg user now w ms :
  faults w = [] ->
  Redis.zset_of w (rate_key user) = Ok ms ->
  let r := check_rate_limit cfg user now w in
  if 5 <=? Z.of_nat (length (in_window now ms)) then
    fst r = Raise (RateLimitError "Rate limit exceeded: 5 jobs per hour"
                     (match Redis.zmin (in_window now ms) with
                      | Some (_, oldest) => 3600 - (now - oldest)
                      | None => 3600
                      end)
                     (Some "RATE_LIMIT_EXCEEDED"))
    /\ Redis.zset_of (snd r) (rate_key user) = Ok (in_window now ms)
  else
    fst r = Ok tt
    /\ Redis.zset_of (snd r) (rate_key user) = Ok (admitted now ms)
    /\ Redis.ttl_of (snd r) (rate_key user) = Some 3600.
Proof.
  intros Hf Hz r.
  set (keep := in_window now ms).
  set (w1 := Redis.store_zset (rate_key user) keep (Redis.ttl_of w (rate_key user)) w).
  assert (Hf1 : faults w1 = []) by (subst w1; now rewrite faults_store).
  assert (Hz1 : Redis.zset_of w1 (rate_key user) = Ok keep) by apply zset_of_store.
  assert (H1 : Redis.zremrangebyscore (rate_key user) 0 (now - 3600) w
               = (Ok (Z.of_nat (length ms) - Z.of_nat (length keep)), w1)).
  { unfold Redis.zremrangebyscore. rewrite io_no_fault by exact Hf. now rewrite Hz. }
  assert (H2 : Redis.zcard (rate_key user) w1 = (Ok (Z.of_nat (length keep)), w1)).
  { unfold Redis.zcard. rewrite io_no_fault by exact Hf1. now rewrite Hz1. }
  destruct (5 <=? Z.of_nat (length keep)) eqn:Hc.
  - assert (Hr : r = (Raise (RateLimitError "Rate limit exceeded: 5 jobs per hour"
                              (match Redis.zmin keep with
                               | Some (_, oldest) => 3600 - (now - oldest)
                               | None => 3600
                               end)
                              (Some "RATE_LIMIT_EXCEEDED")), w1)).
    { subst r. unfold check_rate_limit. fold (rate_key user).
      unfold try_except. unfold bind at 1. rewrite H1. unfold bind at 1. rewrite H2.
      rewrite Hc.
      unfold bind, Redis.zrange_first. rewrite io_no_fault by exact Hf1. rewrite Hz1.
      destruct (Redis.zmin keep) as [[m s] |]; reflexivity. }
    rewrite Hr. cbn [fst snd]. auto.
  - set (others := List.filter (fun m => negb (String.eqb (fst m) (pretty now))) keep).
    set (w2 := Redis.store_zset (rate_key user) (others ++ [(pretty now, now)])%list
                 (Redis.ttl_of w1 (rate_key user)) w1).
    assert (Hf2 : faults w2 = []) by (subst w2; now rewrite faults_store).
    assert (H3 : Redis.zadd (rate_key user) (pretty now) now w1
                 = (Ok (if existsb (fun m => String.eqb (fst m) (pretty now)) keep
                        then 0 else 1), w2)).
    { unfold Redis.zadd. rewrite io_no_fault by exact Hf1. now rewrite Hz1. }
    assert (Hk : kv w2 !! rate_key user
                 = Some (mkEntry (RZSet (others ++ [(pretty now, now)])%list)
                                 (Redis.ttl_of w1 (rate_key user)))).
    { subst w2. unfold Redis.store_zset.
      destruct (others ++ [(pretty now, now)])%list eqn:E.
      - destruct others; discriminate.
      - cbn. now rewrite lookup_insert_eq. }
    assert (Hr : r = (Ok tt,
                      set_kv (<[rate_key user :=
                                  mkEntry (RZSet (others ++ [(pretty now, now)])%list)
                                          (Some 3600)]> (kv w2)) w2)).
    { subst r. unfold check_rate_limit. fold (rate_key user).
      unfold try_except. unfold bind at 1. rewrite H1. unfold bind at 1. rewrite H2.
      rewrite Hc. unfold bind. cbn [ret]. rewrite H3.
      unfold Redis.expire. rewrite io_no_fault by exact Hf2. rewrite Hk. reflexivity. }
    rewrite Hr. cbn [fst snd].
    unfold Redis.zset_of, Redis.ttl_of. cbn [kv set_kv].
    rewrite lookup_insert_eq. auto.
Qed.

(** ** C8: the page returned by list-jobs *)

(** C8, evaluated at the failing input: a user with two jobs, stored oldest
    first, asks for the first page of one row.  The query is limited to
    [limit + offset] rows before the rows are sorted, so the page holds the
    older job, where the full descending order starts with the newer. *)
Theorem list_jobs_truncates_before_sorting :
  fst (Routes.list_jobs None 1 0 "u" two_jobs_world)
    = Ok (Routes.mkList [older_job] 2 1 0)
  /\ page_of_full_order "u" None 1 0 two_jobs_world = [newer_job].
Proof. split; vm_compute; reflexivity. Qed.

(** When the query limit does not cut matching rows off, the page is the
    one the specification describes. *)
Lemma list_jobs_page_when_all_fetched status_filter limit offset user w :
  faults w = [] ->
  1 <= limit <= 50 -> 0 <= offset ->
  (truthy status_filter = true ->
   existsb (String.eqb (default "" status_filter)) Routes.valid_statuses = true) ->
  (length (List.filter (Routes.matches user status_filter) (jobs w))
   <= Z.to_nat (limit + offset))%nat ->
  Routes.list_jobs status_filter limit offset user w
  = (Ok (Routes.mkList (page_of_full_order user status_filter limit offset w)
           (Z.of_nat (length (List.filter (Routes.matches user status_filter) (jobs w))))
           limit offset), w).
Proof.
  intros Hf [Hl1 Hl2] Ho Hvalid Hlen. unfold Routes.list_jobs.
  replace (1 <=? limit) with true by (symmetry; apply Z.leb_le; lia).
  replace (limit <=? 50) with true by (symmetry; apply Z.leb_le; lia).
  replace (0 <=? offset) with true by (symmetry; apply Z.leb_le; lia).
  cbn [andb negb].
  assert (Hguard :
    (if truthy status_filter
     then if negb (existsb (String.eqb (default "" status_filter)) Routes.valid_statuses)
          then raise (ValidationError
                 "Invalid status filter. Must be one of: ['queued', 'processing', 'completed', 'failed']"
                 None)
          else ret tt
     else ret tt) w = (Ok tt, w)).
  { destruct (truthy status_filter); [| reflexivity].
    rewrite (Hvalid eq_refl). reflexivity. }
  unfold try_except. unfold bind at 1. rewrite Hguard.
  unfold bind, Routes.count_jobs, Routes.select_jobs.
  rewrite !io_no_fault by exact Hf.
  unfold page_of_full_order. rewrite firstn_all2 by exact Hlen. reflexivity.
Qed.

(** ** C7: cancellation *)

Lemma raw_delete_inv key w r w' :
  Redis.raw_delete key w = (r, w') ->
  jobs w' = jobs w /\ trace w' = trace w.
Proof.
  unfold Redis.raw_delete, io. intros H.
  destruct (faults w) as [| [e |] fs]; inversion H; subst; cbn; auto.
Qed.

Lemma raw_set_inv key v ex w r w' :
  Redis.raw_set key v ex w = (r, w') ->
  jobs w' = jobs w /\ trace w' = trace w.
Proof.
  unfold Redis.raw_set, io. intros H.
  destruct (faults w) as [| [e |] fs]; inversion H; subst; cbn; auto.
Qed.

Lemma remove_job_inv job_id w r w' :
  remove_job job_id w = (r, w') ->
  (exists b, r = Ok b) /\ jobs w' = jobs w /\ trace w' = trace w.
Proof.
  unfold remove_job, try_except, bind. intros H.
  destruct (Redis.raw_delete _ w) as [[n | e] w1] eqn:Hd;
    apply raw_delete_inv in Hd; cbn in H; inversion H; subst; eauto.
Qed.

Lemma redis_set_inv key v ex w r w' :
  Redis.set key v ex w = (r, w') ->
  jobs w' = jobs w /\ trace w' = trace w.
Proof.
  unfold Redis.set, try_except, bind. intros H.
  destruct (Redis.raw_set _ _ _ w) as [[[] | e] w1] eqn:Hd;
    apply raw_set_inv in Hd; cbn in H; inversion H; subst; eauto.
Qed.

(** [Remove(job_id)] is idempotent: removing again changes nothing. *)
Lemma remove_job_idempotent job_id w :
  faults w = [] ->
  remove_job job_id (snd (remove_job job_id w))
  = (Ok true, snd (remove_job job_id w)).
Proof.
  intros Hf.
  assert (H1 : remove_job job_id w = (Ok true, set_kv (delete (payload_key job_id) (kv w)) w)).
  { unfold remove_job, try_except, bind, Redis.raw_delete. rewrite io_no_fault by exact Hf.
    reflexivity. }
  rewrite H1. cbn [snd].
  unfold remove_job, try_except, bind, Redis.raw_delete.
  rewrite io_no_fault by exact Hf.
  cbn. fold (payload_key job_id). rewrite delete_delete_eq.
  destruct (delete (payload_key job_id) (kv w) !! payload_key job_id); reflexivity.
Qed.

Lemma verify_job_ownership_ok job_id user w job w' :
  Routes.verify_job_ownership job_id user w = (Ok job, w') ->
  jobs w' = jobs w /\ trace w' = trace w
  /\ user_id job = user
  /\ exists rest, List.filter (fun j => String.eqb (id j) job_id) (jobs w) = job :: rest.
Proof.
  unfold Routes.verify_job_ownership, try_except, bind. intros H.
  destruct (Store.select_job job_id w) as [[rows | e] w1] eqn:Hs.
  - apply select_job_inv in Hs. destruct Hs as (Hj & Ht & _ & Hr).
    specialize (Hr rows eq_refl).
    destruct rows as [| row rest]; [cbn in H; inversion H |].
    destruct (String.eqb (user_id row) user) eqn:Hu; cbn in H; inversion H; subst.
    apply String.eqb_eq in Hu. eauto 10.
  - cbn in H. destruct (is_HTTPException e); cbn in H; inversion H.
Qed.

Lemma cancel_job_ok job_id user w resp w' :
  Routes.cancel_job job_id user w = (Ok resp, w') ->
  jobs w' = patch_rows job_id Worker.cancelled_patch (jobs w)
  /\ exists job rest,
       List.filter (fun j => String.eqb (id j) job_id) (jobs w) = job :: rest
       /\ user_id job = user
       /\ (status job = "queued" \/ status job = "processing").
Proof.
  unfold Routes.cancel_job. intros H. unfold bind at 1 in H.
  destruct (Routes.verify_job_ownership job_id user w) as [[job | e] w1] eqn:Hv;
    [| inversion H].
  apply verify_job_ownership_ok in Hv. destruct Hv as (Hj1 & _ & Hu & rest & Hrows).
  destruct (String.eqb (status job) "queued") eqn:Hq.
  - cbn [orb negb] in H. unfold try_except, bind in H.
    destruct (remove_job job_id w1) as [[b | e] w2] eqn:Hr.
    2:{ apply remove_job_inv in Hr. destruct Hr as ((b & Hb) & _). discriminate. }
    apply remove_job_inv in Hr. destruct Hr as (_ & Hj2 & _).
    destruct (Store.update_job job_id _ w2) as [[[] | e] w3] eqn:Hup; [| inversion H].
    apply update_job_inv in Hup.
    destruct Hup as [(e & He & _) | (_ & Hj3 & _)]; [discriminate |].
    destruct (Redis.raw_delete _ w3) as [[n | e] w4] eqn:Hd; [| inversion H].
    apply raw_delete_inv in Hd. destruct Hd as (Hj4 & _).
    cbn in H. inversion H; subst. split.
    + congruence.
    + exists job, rest. apply String.eqb_eq in Hq. auto.
  - destruct (String.eqb (status job) "processing") eqn:Hp.
    + cbn [orb negb] in H. unfold try_except, bind in H.
      destruct (Redis.set _ _ _ w1) as [[b | e] w2] eqn:Hr; [| inversion H].
      apply redis_set_inv in Hr. destruct Hr as (Hj2 & _).
      destruct (Store.update_job job_id _ w2) as [[[] | e] w3] eqn:Hup; [| inversion H].
      apply update_job_inv in Hup.
      destruct Hup as [(e & He & _) | (_ & Hj3 & _)]; [discriminate |].
      destruct (Redis.raw_delete _ w3) as [[n | e] w4] eqn:Hd; [| inversion H].
      apply raw_delete_inv in Hd. destruct Hd as (Hj4 & _).
      cbn in H. inversion H; subst. split.
      * congruence.
      * exists job, rest. apply String.eqb_eq in Hp. auto.
    + cbn in H. inversion H.
Qed.

(** X23. A second cancellation of a job that was just cancelled (the store
    answering) is refused with status 400 and changes nothing: the job is
    not failed a second time. *)
Lemma cancel_job_twice job_id user w resp w' :
  Routes.cancel_job job_id user w = (Ok resp, w') ->
  faults w' = [] ->
  Routes.cancel_job job_id user w'
  = (Raise (HTTPException 400 "Cannot cancel job with status: failed"), w').
Proof.
  intros H Hf. apply cancel_job_ok in H.
  destruct H as (Hj & job & rest & Hrows & Hu & _).
  unfold Routes.cancel_job, bind, Routes.verify_job_ownership, try_except, bind,
    Store.select_job.
  rewrite io_no_fault by exact Hf.
  rewrite Hj, filter_patch_rows, Hrows. cbn.
  rewrite Hu, String.eqb_refl. reflexivity.
Qed.

(** C7, evaluated at the failing input: a job in progress whose status is
    cached.  The cancellation succeeds, sets the marker for fifteen minutes
    and marks the row failed, but the key it deletes is not the key under
    which the status is cached: the cached document survives, and the
    status endpoint goes on answering [processing]. *)
Theorem cancel_job_leaves_status_cache :
  let w' := snd (Routes.cancel_job J "u" cached_world) in
  fst (Routes.cancel_job J "u" cached_world)
    = Ok (Routes.mkCancel J "failed" "Job cancelled by user")
  /\ List.map status (jobs w') = ["failed"]
  /\ kv w' !! cancel_marker_key J = Some (mkEntry (RStr (Plain "1")) (Some 900))
  /\ kv w' !! status_cache_key J
     = Some (mkEntry (RStr (JobDoc processing_job)) (Some 30))
  /\ fst (Routes.get_job_status J "u" w') = Ok processing_job.
Proof. repeat split; vm_compute; reflexivity. Qed.
(** ** Reasoning about traces *)

Section OnlyRules.

Variable K : Action -> bool.

Lemma only_ret {A} (a : A) : only K (ret a).
Proof. intros w. exists []. cbn. now rewrite app_nil_r. Qed.

Lemma only_raise {A} e : only K (@raise A e).
Proof. intros w. exists []. cbn. now rewrite app_nil_r. Qed.

Lemma only_bind {A B} (m : M A) (k : A -> M B) :
  only K m -> (forall a, only K (k a)) -> only K (bind m k).
Proof.
  intros Hm Hk w. unfold bind.
  destruct (Hm w) as (t1 & Ht1 & Hk1).
  destruct (m w) as [[a | e] w1]; cbn in Ht1.
  - destruct (Hk a w1) as (t2 & Ht2 & Hk2).
    exists (t1 ++ t2)%list. split.
    + rewrite Ht2, Ht1. now rewrite app_assoc.
    + rewrite forallb_app. now rewrite Hk1, Hk2.
  - exists t1. auto.
Qed.

Lemma only_try_except {A} (m : M A) (h : Exn -> M A) :
  only K m -> (forall e, only K (h e)) -> only K (try_except m h).
Proof.
  intros Hm Hh w. unfold try_except.
  destruct (Hm w) as (t1 & Ht1 & Hk1).
  destruct (m w) as [[a | e] w1]; cbn in Ht1.
  - exists t1. auto.
  - destruct (Hh e w1) as (t2 & Ht2 & Hk2).
    exists (t1 ++ t2)%list. split.
    + rewrite Ht2, Ht1. now rewrite app_assoc.
    + rewrite forallb_app. now rewrite Hk1, Hk2.
Qed.

Lemma only_io {A} (act : M A) : only K act -> only K (io act).
Proof.
  intros Ha w. unfold io.
  destruct (faults w) as [| [e |] fs].
  - apply Ha.
  - exists []. cbn. now rewrite app_nil_r.
  - destruct (Ha (set_faults fs w)) as (t & Ht & Hk). exists t. auto.
Qed.

(** A computation that leaves the trace alone. *)
Lemma only_same_trace {A} (m : M A) :
  (forall w, trace (snd (m w)) = trace w) -> only K m.
Proof. intros H w. exists []. rewrite H. cbn. now rewrite app_nil_r. Qed.

Lemma only_emit (a : Action) : K a = true -> only K (fun w => (Ok tt, emit a w)).
Proof. intros Ha w. exists [a]. cbn. now rewrite Ha. Qed.

Lemma only_select_job job_id : only K (Store.select_job job_id).
Proof. apply only_io, only_same_trace. reflexivity. Qed.

Lemma only_select_stage job_id st : only K (Store.select_stage job_id st).
Proof. apply only_io, only_same_trace. reflexivity. Qed.

Lemma only_insert_stage r : only K (Store.insert_stage r).
Proof. apply only_io, only_same_trace. reflexivity. Qed.

Lemma only_insert_cost r : only K (Store.insert_cost r).
Proof. apply only_io, only_same_trace. reflexivity. Qed.

Lemma only_update_job job_id p :
  K (JobUpdate job_id p) = true -> only K (Store.update_job job_id p).
Proof.
  intros Ha. apply only_io. intros w. exists [JobUpdate job_id p]. cbn. now rewrite Ha.
Qed.

Lemma only_raw_delete key : only K (Redis.raw_delete key).
Proof. apply only_io, only_same_trace. reflexivity. Qed.

Lemma only_raw_get key : only K (Redis.raw_get key).
Proof.
  apply only_io, only_same_trace. intros w.
  destruct (kv w !! key) as [[[v | ms] t] |]; reflexivity.
Qed.

Lemma only_redis_get key : only K (Redis.get key).
Proof. apply only_try_except; [apply only_raw_get | intros e; apply only_raise]. Qed.

Lemma only_publish_event job_id ty d :
  K (Publish (channel_of job_id) ty d) = true -> only K (publish_event job_id ty d).
Proof.
  intros Ha. apply only_try_except.
  - apply only_bind; [| intros; apply only_ret].
    apply only_io. intros w. exists [Publish (channel_of job_id) ty d]. cbn. now rewrite Ha.
  - intros e. apply only_ret.
Qed.

Lemma only_broadcast_event job_id ty d :
  K (Broadcast job_id ty d) = true -> only K (broadcast_event job_id ty d).
Proof.
  intros Ha w. unfold broadcast_event.
  destruct (get_connections job_id w) as [| q qs].
  - exists []. cbn. now rewrite app_nil_r.
  - exists [Broadcast job_id ty d]. cbn. now rewrite Ha.
Qed.

Lemma only_check_cancellation job_id : only K (check_cancellation job_id).
Proof.
  apply only_try_except.
  - apply only_bind; [apply only_redis_get | intros; apply only_ret].
  - intros e. apply only_bind; [apply only_ret | intros; apply only_ret].
Qed.

Lemma only_update_progress job_id v st :
  K (JobUpdate job_id (mkPatch None (Some v) (Some st) None None None)) = true ->
  K (Publish (channel_of job_id) "progress" (ProgressData v st)) = true ->
  K (Broadcast job_id "progress" (ProgressData v st)) = true ->
  only K (update_progress job_id v st).
Proof.
  intros H1 H2 H3. apply only_try_except; [| intros; apply only_ret].
  apply only_bind; [now apply only_update_job | intros _].
  apply only_bind; [apply only_raw_delete | intros _].
  apply only_bind; [now apply only_publish_event | intros _].
  apply only_bind; [now apply only_broadcast_event | intros _].
  apply only_ret.
Qed.

Hypothesis K_cost : forall job_id c, K (JobUpdate job_id (cost_patch c)) = true.

Lemma only_track_cost job_id st api c : only K (CostTracker.track_cost job_id st api c).
Proof.
  unfold CostTracker.track_cost. destruct (c <? 0); [apply only_raise |].
  apply only_try_except; [| intros; apply only_raise].
  apply only_bind; [apply only_insert_cost | intros _].
  apply only_bind; [apply only_select_job | intros rows].
  apply only_bind; [| intros; apply only_ret].
  destruct rows as [| row rest]; [apply only_ret |].
  apply only_update_job. apply K_cost.
Qed.

Lemma only_charge_all job_id st cs : only K (charge_all job_id st cs).
Proof.
  induction cs as [| [api c] cs IH]; cbn; [apply only_ret |].
  apply only_bind; [apply only_track_cost | intros _; exact IH].
Qed.

Lemma only_call {A} job_id st (c : Collaborator A) :
  K (Invoke st) = true -> only K (call job_id st c).
Proof.
  intros Hi. unfold call. destruct (installed c); [| apply only_raise].
  apply only_bind; [now apply only_emit | intros _].
  apply only_bind; [apply only_charge_all | intros _].
  destruct (outcome c); [apply only_ret | apply only_raise].
Qed.

Lemma only_build {A} failure (stub : A) : only K (Orchestrator.build failure stub).
Proof. destruct failure; [apply only_raise | apply only_ret]. Qed.

Lemma only_call_or_stub {A} job_id st (c : Collaborator A) failure (stub : A) :
  K (Invoke st) = true ->
  only K (Orchestrator.call_or_stub job_id st c (Orchestrator.build failure stub)).
Proof.
  intros Hi. apply only_try_except; [now apply only_call |].
  intros e. destruct (is_ImportError e); [| apply only_raise].
  apply only_bind; [apply only_ret | intros; apply only_build].
Qed.

Lemma only_UUID job_id : only K (UUID job_id).
Proof. unfold UUID. destruct (is_uuid job_id); [apply only_ret | apply only_raise]. Qed.

Lemma only_get_total_cost job_id : only K (CostTracker.get_total_cost job_id).
Proof.
  apply only_try_except; [| intros; apply only_raise].
  apply only_bind; [apply only_select_job | intros rows].
  destruct rows; apply only_ret.
Qed.

Lemma only_precheck_budget cfg job_id est what :
  only K (Orchestrator.precheck_budget cfg job_id est what).
Proof.
  apply only_bind; [apply only_UUID | intros uuid].
  apply only_bind.
  - apply only_try_except; [| intros; apply only_raise].
    apply only_bind; [apply only_get_total_cost | intros; apply only_ret].
  - intros b. destruct b; [apply only_ret | apply only_raise].
Qed.

Lemma only_enforce_budget cfg job_id :
  (forall d, K (Publish (channel_of job_id) "error" d) = true) ->
  only K (enforce_budget cfg job_id).
Proof.
  intros He. apply only_try_except.
  - apply only_bind; [apply only_UUID | intros uuid].
    apply only_try_except.
    + apply only_bind; [apply only_get_total_cost | intros c].
      destruct (_ <? c); [apply only_raise | apply only_ret].
    + intros e. destruct (is_BudgetExceededError e); apply only_raise.
  - intros e. destruct (is_BudgetExceededError e); [| apply only_raise].
    apply only_bind; [apply only_publish_event, He | intros; apply only_raise].
Qed.

End OnlyRules.

Section MonitorRules.

Context {S : Type}.
Variable step : S -> Action -> option S.

Lemma run_monitor_app s t1 t2 :
  run_monitor step s (t1 ++ t2)
  = match run_monitor step s t1 with
    | Some s' => run_monitor step s' t2
    | None => None
    end.
Proof.
  revert s. induction t1 as [| a t1 IH]; intros s; cbn; [reflexivity |].
  destruct (step s a); [apply IH | reflexivity].
Qed.

Lemma accepts_ret {A} (P : S -> Prop) (a : A) (Q : Res A -> S -> Prop) :
  (forall s, P s -> Q (Ok a) s) -> accepts step P (ret a) Q.
Proof.
  intros H w s Hs. exists [], s. cbn. rewrite app_nil_r. auto.
Qed.


Lemma accepts_bind {A B} (P : S -> Prop) (m : M A) (k : A -> M B)
    (Q1 : Res A -> S -> Prop) (Q : Res B -> S -> Prop) :
  accepts step P m Q1 ->
  (forall a, accepts step (Q1 (Ok a)) (k a) Q) ->
  (forall e s, Q1 (Raise e) s -> Q (Raise e) s) ->
  accepts step P (bind m k) Q.
Proof.
  intros Hm Hk He w s Hs. unfold bind.
  destruct (Hm w s Hs) as (t1 & s1 & Ht1 & Hr1 & Hq1).
  destruct (m w) as [[a | e] w1]; cbn in *.
  - destruct (Hk a w1 s1 Hq1) as (t2 & s2 & Ht2 & Hr2 & Hq2).
    exists (t1 ++ t2)%list, s2. repeat split.
    + rewrite Ht2, Ht1. now rewrite app_assoc.
    + now rewrite run_monitor_app, Hr1.
    + exact Hq2.
  - exists t1, s1. auto.
Qed.

Lemma accepts_try_except {A} (P : S -> Prop) (m : M A) (h : Exn -> M A)
    (Q1 Q : Res A -> S -> Prop) :
  accepts step P m Q1 ->
  (forall e, accepts step (Q1 (Raise e)) (h e) Q) ->
  (forall a s, Q1 (Ok a) s -> Q (Ok a) s) ->
  accepts step P (try_except m h) Q.
Proof.
  intros Hm Hh Ha w s Hs. unfold try_except.
  destruct (Hm w s Hs) as (t1 & s1 & Ht1 & Hr1 & Hq1).
  destruct (m w) as [[a | e] w1]; cbn in *.
  - exists t1, s1. auto.
  - destruct (Hh e w1 s1 Hq1) as (t2 & s2 & Ht2 & Hr2 & Hq2).
    exists (t1 ++ t2)%list, s2. repeat split.
    + rewrite Ht2, Ht1. now rewrite app_assoc.
    + now rewrite run_monitor_app, Hr1.
    + exact Hq2.
Qed.

Lemma accepts_weaken {A} (P P' : S -> Prop) (m : M A) (Q Q' : Res A -> S -> Prop) :
  accepts step P m Q ->
  (forall s, P' s -> P s) ->
  (forall r s, Q r s -> Q' r s) ->
  accepts step P' m Q'.
Proof.
  intros H HP HQ w s Hs.
  destruct (H w s (HP s Hs)) as (t & s' & Ht & Hr & Hq). eauto 10.
Qed.

(** Actions of a class that keeps the monitor within [P]. *)
Lemma run_monitor_invariant (K : Action -> bool) (P : S -> Prop) :
  (forall s a, P s -> K a = true -> exists s', step s a = Some s' /\ P s') ->
  forall t s, P s -> forallb K t = true ->
    exists s', run_monitor step s t = Some s' /\ P s'.
Proof.
  intros Hstep t. induction t as [| a t IH]; intros s Hs Hk; cbn in *.
  - eauto.
  - apply andb_prop in Hk. destruct Hk as (Ha & Hk).
    destruct (Hstep s a Hs Ha) as (s1 & Hs1 & HP1). rewrite Hs1. now apply IH.
Qed.

Lemma only_accepts {A} (K : Action -> bool) (P : S -> Prop) (m : M A) :
  only K m ->
  (forall s a, P s -> K a = true -> exists s', step s a = Some s' /\ P s') ->
  accepts step P m (fun _ s => P s).
Proof.
  intros Hm Hstep w s Hs.
  destruct (Hm w) as (t & Ht & Hk).
  destruct (run_monitor_invariant K P Hstep t s Hs Hk) as (s' & Hr & HP).
  eauto 10.
Qed.

End MonitorRules.

Lemma only_handle_pipeline_error K job_id e :
  (forall m, K (JobUpdate job_id (failed_patch m)) = true) ->
  (forall d, K (Publish (channel_of job_id) "error" d) = true) ->
  only K (handle_pipeline_error job_id e).
Proof.
  intros H1 H2. apply only_try_except; [| intros; apply only_ret].
  apply only_bind; [apply only_update_job, H1 | intros _].
  apply only_bind; [apply only_raw_delete | intros _].
  apply only_bind; [apply only_publish_event, H2 | intros _].
  apply only_ret.
Qed.

(** The classes that the stages stay within: every action but a write of
    another progress value. *)
Ltac only_auto :=
  repeat first
    [ apply only_ret
    | apply only_raise
    | apply only_publish_event; reflexivity
    | apply only_update_progress; reflexivity
    | apply only_check_cancellation
    | apply only_handle_pipeline_error; intros; reflexivity
    | apply only_call_or_stub; [intros; reflexivity | reflexivity]
    | apply only_call; [intros; reflexivity | reflexivity]
    | apply only_precheck_budget
    | apply only_enforce_budget; intros; reflexivity
    | apply only_select_job
    | apply only_select_stage
    | apply only_insert_stage
    | apply only_raw_delete
    | apply only_update_job; reflexivity
    | apply only_bind; [| intros ?]
    | apply only_try_except; [| intros ?]
    | match goal with |- only _ (if ?b then _ else _) => destruct b end
    | match goal with |- only _ (match ?x with _ => _ end) => destruct x end ].

Section ProgressClasses.

Variable cfg : Settings.
Variable env : Collaborators.
Variables job_id audio_url user_prompt : string.

Lemma stage1_progress :
  only (progress_is 10) (Orchestrator.stage1 env job_id audio_url).
Proof. unfold Orchestrator.stage1. only_auto. Qed.

Lemma stage2_progress a :
  only (progress_is 20) (Orchestrator.stage2 env job_id user_prompt a).
Proof. unfold Orchestrator.stage2. only_auto. Qed.

Lemma stage3_progress p :
  only (progress_is 30) (Orchestrator.stage3 cfg env job_id p).
Proof. unfold Orchestrator.stage3. only_auto. Qed.

Lemma stage4_progress p r :
  only (progress_is 40) (Orchestrator.stage4 env job_id p r).
Proof. unfold Orchestrator.stage4. only_auto. Qed.

Lemma stage5_progress c :
  only (progress_is 85) (Orchestrator.stage5 cfg env job_id c).
Proof.
  unfold Orchestrator.stage5, Orchestrator.andthen, Orchestrator.stage5_generate,
    Orchestrator.stage5_validate.
  only_auto.
Qed.

Lemma stage6_progress a p c :
  only (progress_is 100) (Orchestrator.stage6 env job_id audio_url a p c).
Proof. unfold Orchestrator.stage6. only_auto. Qed.

Lemma on_error_progress v e :
  only (progress_is v) (Orchestrator.on_error job_id e).
Proof. unfold Orchestrator.on_error. only_auto. Qed.

End ProgressClasses.

(** ** Progress *)

Lemma stage_values_sorted : StronglySorted Z.lt stage_values.
Proof. unfold stage_values. repeat constructor; lia. Qed.

(** A non-decreasing list drawn from a strictly increasing one visits a
    subsequence of it. *)
Lemma visited_sublist (l chain : list Z) :
  StronglySorted Z.lt chain ->
  StronglySorted Z.le l ->
  Forall (fun x => x ∈ chain) l ->
  visited l `sublist_of` chain.
Proof.
  revert chain. induction l as [| x l IH]; intros chain Hc Hs Hin.
  - apply sublist_nil_l.
  - apply StronglySorted_cons in Hs. destruct Hs as (Hx & Hs).
    apply Forall_cons in Hin. destruct Hin as (Hxin & Hin).
    cbn [visited]. destruct l as [| y l'].
    + apply sublist_cons_l. apply list_elem_of_split in Hxin.
      destruct Hxin as (k1 & k2 & ->). exists k1, k2. split; [reflexivity |].
      apply sublist_nil_l.
    + destruct (x =? y) eqn:E.
      * now apply IH.
      * apply Z.eqb_neq in E.
        apply sublist_cons_l. apply list_elem_of_split in Hxin.
        destruct Hxin as (k1 & k2 & ->). exists k1, k2. split; [reflexivity |].
        apply IH; [now apply StronglySorted_app_1_r, StronglySorted_cons in Hc | exact Hs |].
        assert (Hxy : x < y).
        { apply Forall_cons in Hx. lia. }
        assert (Hy : Forall (Z.le y) (y :: l')).
        { apply StronglySorted_cons in Hs. constructor; [lia | tauto]. }
        rewrite Forall_forall in Hin, Hy |- *.
        intros z Hz. specialize (Hin z Hz). specialize (Hy z Hz).
        apply elem_of_app in Hin. destruct Hin as [Hz1 | Hz2].
        -- assert (z < x); [| lia].
           eapply (StronglySorted_app_1_elem_of Z.lt k1 (x :: k2)); eauto. left.
        -- apply elem_of_cons in Hz2. destruct Hz2 as [-> | ?]; [lia | assumption].
Qed.

(** What the progress monitor accepts is non-decreasing and drawn from the
    stage values. *)
Lemma progress_monitor_sound t :
  forall s s', run_monitor progress_step s t = Some s' ->
    StronglySorted Z.le (progress_writes t)
    /\ Forall (Z.le s) (progress_writes t)
    /\ Forall (fun v => v ∈ stage_values) (progress_writes t).
Proof.
  induction t as [| a t IH]; intros s s' H.
  - repeat split; constructor.
  - destruct a as [j p | | |]; cbn [run_monitor progress_step progress_writes] in *;
      try (apply IH in H; exact H).
    destruct (p_progress p) as [v |]; [| apply IH in H; exact H].
    destruct (s <=? v) eqn:Hle; [| discriminate].
    destruct (existsb (Z.eqb v) stage_values) eqn:Hin; [| discriminate].
    cbn [andb] in H. apply IH in H. destruct H as (Hs & Hv & Hc).
    apply Z.leb_le in Hle.
    repeat split.
    + constructor; assumption.
    + constructor; [exact Hle |].
      eapply Forall_impl; [exact Hv |]. cbn. intros; lia.
    + constructor; [| exact Hc].
      apply existsb_exists in Hin. destruct Hin as (x & Hx & Hvx).
      apply Z.eqb_eq in Hvx. subst x. now apply list_elem_of_In.
Qed.

(** A stage that only writes the progress value [v'] takes the monitor
    from at most [v] to at most [v']. *)
Lemma progress_stage {A} (v v' : Z) (m : M A) :
  v <= v' -> existsb (Z.eqb v') stage_values = true ->
  only (progress_is v') m ->
  accepts progress_step (fun s => s <= v) m (fun _ s => s <= v').
Proof.
  intros Hv Hin Hm.
  eapply accepts_weaken with (P := fun s => s <= v') (Q := fun _ s => s <= v').
  - apply (only_accepts progress_step (progress_is v')); [exact Hm |].
    intros s a Hs Hk. destruct a as [j p | | |]; cbn in *; eauto.
    destruct (p_progress p) as [x |]; eauto.
    apply Z.eqb_eq in Hk. subst x.
    assert (E : (s <=? v') = true) by now apply Z.leb_le.
    rewrite E, Hin. cbn. eexists; split; [reflexivity | lia].
  - cbn. intros; lia.
  - auto.
Qed.

Section Sequencing.

Context {S : Type}.
Variable step : S -> Action -> option S.

(** Sequencing when the assertions do not depend on the result. *)
Lemma accepts_seq {A B} (P P1 P2 : S -> Prop) (m : M A) (k : A -> M B) :
  accepts step P m (fun _ => P1) ->
  (forall a, accepts step P1 (k a) (fun _ => P2)) ->
  (forall s, P1 s -> P2 s) ->
  accepts step P (bind m k) (fun _ => P2).
Proof.
  intros Hm Hk H12. eapply accepts_bind; [exact Hm | exact Hk |]. cbn. auto.
Qed.

Lemma accepts_andthen_seq {A B} (P P1 P2 : S -> Prop)
    (m : M (option A)) (k : A -> M (option B)) :
  accepts step P m (fun _ => P1) ->
  (forall a, accepts step P1 (k a) (fun _ => P2)) ->
  (forall s, P1 s -> P2 s) ->
  accepts step P (Orchestrator.andthen m k) (fun _ => P2).
Proof.
  intros Hm Hk H12. unfold Orchestrator.andthen.
  eapply accepts_seq; [exact Hm | | exact H12].
  intros [a |]; [apply Hk | apply accepts_ret; exact H12].
Qed.

End Sequencing.

Section ProgressOfRun.

Variable cfg : Settings.
Variable env : Collaborators.
Variables job_id audio_url user_prompt : string.

Lemma through_stage2_progress_accepted :
  accepts progress_step (fun s => s <= 0)
    (Orchestrator.through_stage2 env job_id audio_url user_prompt)
    (fun _ s => s <= 20).
Proof.
  unfold Orchestrator.through_stage2.
  eapply accepts_seq with (P1 := fun s => s <= 0).
  - apply (progress_stage 0 0); [lia | reflexivity |].
    unfold Orchestrator.set_processing. now apply only_update_job.
  - intros _. eapply accepts_andthen_seq with (P1 := fun s => s <= 10).
    + apply (progress_stage 0 10); [lia | reflexivity | apply stage1_progress].
    + intros a. eapply accepts_andthen_seq with (P1 := fun s => s <= 20).
      * apply (progress_stage 10 20); [lia | reflexivity | apply stage2_progress].
      * intros p. apply accepts_ret. auto.
      * auto.
    + cbn. intros; lia.
  - cbn. intros; lia.
Qed.

Lemma through_stage4_progress_accepted :
  accepts progress_step (fun s => s <= 0)
    (Orchestrator.through_stage4 cfg env job_id audio_url user_prompt)
    (fun _ s => s <= 40).
Proof.
  unfold Orchestrator.through_stage4.
  eapply accepts_andthen_seq with (P1 := fun s => s <= 20).
  - apply through_stage2_progress_accepted.
  - intros ap. eapply accepts_andthen_seq with (P1 := fun s => s <= 30).
    + apply (progress_stage 20 30); [lia | reflexivity | apply stage3_progress].
    + intros r. eapply accepts_andthen_seq with (P1 := fun s => s <= 40).
      * apply (progress_stage 30 40); [lia | reflexivity | apply stage4_progress].
      * intros c. apply accepts_ret. auto.
      * auto.
    + cbn. intros; lia.
  - cbn. intros; lia.
Qed.

Lemma pipeline_body_progress_accepted :
  accepts progress_step (fun s => s <= 0)
    (Orchestrator.pipeline_body cfg env job_id audio_url user_prompt)
    (fun _ s => s <= 100).
Proof.
  unfold Orchestrator.pipeline_body.
  eapply accepts_andthen_seq with (P1 := fun s => s <= 40).
  - apply through_stage4_progress_accepted.
  - intros apc. eapply accepts_andthen_seq with (P1 := fun s => s <= 85).
    + apply (progress_stage 40 85); [lia | reflexivity | apply stage5_progress].
    + intros c. apply (progress_stage 85 100); [lia | reflexivity | apply stage6_progress].
    + cbn. intros; lia.
  - cbn. intros; lia.
Qed.

Lemma execute_pipeline_progress_accepted :
  accepts progress_step (fun s => s <= 0)
    (Orchestrator.execute_pipeline cfg env job_id audio_url user_prompt)
    (fun _ s => s <= 100).
Proof.
  unfold Orchestrator.execute_pipeline.
  eapply accepts_try_except with (Q1 := fun _ s => s <= 100).
  - eapply accepts_seq with (P1 := fun s => s <= 100).
    + apply pipeline_body_progress_accepted.
    + intros _. apply accepts_ret. auto.
    + auto.
  - intros e. apply (progress_stage 100 100); [lia | reflexivity | apply on_error_progress].
  - auto.
Qed.

End ProgressOfRun.

(** C3. In every run of the orchestrator, successful or not and whatever
    fails on the way, the values written to column [progress] never
    decrease, and the values the column visits form a subsequence of
    0, 10, 20, 30, 40, 85, 100 in that order. *)
Theorem progress_visits_stage_values_in_order :
  forall (cfg : Settings) (env : Collaborators) (job_id audio_url user_prompt : string)
         (w : World),
    exists t,
      trace (snd (Orchestrator.execute_pipeline cfg env job_id audio_url user_prompt w))
        = (trace w ++ t)%list
      /\ Sorted Z.le (progress_writes t)
      /\ visited (progress_writes t) `sublist_of` stage_values.
Proof.
  intros cfg env job_id audio_url user_prompt w.
  destruct (execute_pipeline_progress_accepted cfg env job_id audio_url user_prompt w 0)
    as (t & s' & Ht & Hr & _); [cbn; lia |].
  exists t. split; [exact Ht |].
  apply progress_monitor_sound in Hr. destruct Hr as (Hs & _ & Hc).
  split.
  - now apply StronglySorted_Sorted.
  - apply visited_sublist; [apply stage_values_sorted | exact Hs | exact Hc].
Qed.

Section EmittingRules.

Context {S : Type}.
Variable step : S -> Action -> option S.




End EmittingRules.

(** ** The terminal discipline of a run *)









Section DisciplineOfRun.

Variable cfg : Settings.
Variable env : Collaborators.
Variables job_id audio_url user_prompt : string.












End DisciplineOfRun.

(** A successful run writes every stage value, the last one twice (with the
    completion and with the final progress update). *)
Example progress_of_successful_run :
  let run := Worker.process_job production working_env job_data queued_world in
  fst run = Ok tt
  /\ List.map status (jobs (snd run)) = ["completed"]
  /\ progress_writes (trace (snd run)) = [10; 20; 30; 40; 85; 100; 100]
  /\ visited (progress_writes (trace (snd run))) = [10; 20; 30; 40; 85; 100].
Proof. repeat split; vm_compute; reflexivity. Qed.

(** ** C1: terminal writes and terminal events *)










(** A run that finds the cancellation marker at its first checkpoint: the
    failed write is followed by the [error] event and by nothing else. *)
Example cancelled_run :
  let run := Orchestrator.execute_pipeline production working_env J audio_in prompt_in
               cancelled_world in
  fst run = Ok tt
  /\ trace (snd run)
     = [JobUpdate J (mkPatch (Some "processing") None None None None None);
        Publish (channel_of J) "stage_update" (StageStarted "audio_parser");
        JobUpdate J (failed_patch "Job cancelled by user");
        Publish (channel_of J) "error" (ErrorData "Job cancelled by user" None false)].
Proof. split; vm_compute; reflexivity. Qed.

(** The discipline does not make [completed] final: when the cache
    invalidation that follows the completion write fails (here the 47th
    call that leaves the process), the run is recorded as failed after it
    was recorded as completed. *)
Example completion_then_failure :
  let run := Orchestrator.execute_pipeline production working_env J audio_in prompt_in
               (world_failing_at 46) in
  fst run = Raise outage
  /\ List.map status (jobs (snd run)) = ["failed"]
  /\ existsb is_completed_write (trace (snd run)) = true
  /\ terminal_discipline (trace (snd run)) = true.
Proof. repeat split; vm_compute; reflexivity. Qed.

(** ** Runs without failures of the store or the broker *)

Lemma andthen_some {A B} (m : M (option A)) (k : A -> M (option B)) w a w' :
  m w = (Ok (Some a), w') -> Orchestrator.andthen m k w = k a w'.
Proof. intros H. unfold Orchestrator.andthen, bind. now rewrite H. Qed.

Lemma andthen_raise {A B} (m : M (option A)) (k : A -> M (option B)) w e w' :
  m w = (Raise e, w') -> Orchestrator.andthen m k w = (Raise e, w').
Proof. intros H. unfold Orchestrator.andthen, bind. now rewrite H. Qed.

Lemma publish_event_no_fault job_id ty d w :
  faults w = [] ->
  publish_event job_id ty d w = (Ok tt, emit (Publish (channel_of job_id) ty d) w).
Proof.
  intros Hf. unfold publish_event, try_except, bind, Redis.raw_publish.
  rewrite io_no_fault by exact Hf. reflexivity.
Qed.

Lemma check_cancellation_clear job_id w :
  faults w = [] -> kv w !! cancel_marker_key job_id = None ->
  check_cancellation job_id w = (Ok false, w).
Proof.
  intros Hf Hk. unfold check_cancellation, try_except, bind, Redis.get, try_except,
    Redis.raw_get.
  rewrite io_no_fault by exact Hf.
  unfold cancel_marker_key in Hk. rewrite Hk. reflexivity.
Qed.

Lemma get_total_cost_no_fault job_id w :
  faults w = [] ->
  CostTracker.get_total_cost job_id w = (Ok (current_total job_id w), w).
Proof.
  intros Hf. unfold CostTracker.get_total_cost, try_except, bind, Store.select_job.
  rewrite io_no_fault by exact Hf. unfold current_total.
  destruct (List.filter _ (jobs w)); reflexivity.
Qed.

Lemma precheck_budget_malformed cfg job_id est what w :
  is_uuid job_id = false ->
  Orchestrator.precheck_budget cfg job_id est what w
  = (Raise (OtherException "badly formed hexadecimal UUID string"), w).
Proof.
  intros Hu. unfold Orchestrator.precheck_budget, bind.
  now rewrite UUID_malformed by exact Hu.
Qed.

Lemma precheck_budget_exceeded cfg job_id est what w :
  is_uuid job_id = true ->
  faults w = [] ->
  get_budget_limit (environment cfg) < current_total job_id w + est ->
  Orchestrator.precheck_budget cfg job_id est what w
  = (Raise (BudgetExceededError ("Would exceed budget limit before " +:+ what) None), w).
Proof.
  intros Hu Hf Hlt. unfold Orchestrator.precheck_budget, bind at 1.
  rewrite UUID_ok by exact Hu.
  unfold bind, CostTracker.check_budget, try_except, bind.
  rewrite get_total_cost_no_fault by exact Hf.
  replace (current_total job_id w + est <=? get_budget_limit (environment cfg)) with false
    by (symmetry; apply Z.leb_gt; exact Hlt).
  reflexivity.
Qed.

Lemma precheck_budget_within cfg job_id est what w :
  is_uuid job_id = true ->
  faults w = [] ->
  current_total job_id w + est <= get_budget_limit (environment cfg) ->
  Orchestrator.precheck_budget cfg job_id est what w = (Ok tt, w).
Proof.
  intros Hu Hf Hle. unfold Orchestrator.precheck_budget, bind at 1.
  rewrite UUID_ok by exact Hu.
  unfold bind, CostTracker.check_budget, try_except, bind.
  rewrite get_total_cost_no_fault by exact Hf.
  replace (current_total job_id w + est <=? get_budget_limit (environment cfg)) with true
    by (symmetry; apply Z.leb_le; exact Hle).
  reflexivity.
Qed.

Lemma handle_pipeline_error_no_fault job_id e w :
  faults w = [] ->
  exists w',
    handle_pipeline_error job_id e w = (Ok tt, w')
    /\ jobs w' = patch_rows job_id (failed_patch (str e)) (jobs w)
    /\ trace w'
       = (trace w ++
          [JobUpdate job_id (failed_patch (str e));
           Publish (channel_of job_id) "error"
             (ErrorData (str e)
                (if is_BudgetExceededError e then Some "BUDGET_EXCEEDED"
                 else getattr_code e "MODULE_FAILURE")
                (if is_BudgetExceededError e then false else is_RetryableError e))])%list
    /\ faults w' = [].
Proof.
  intros Hf. unfold handle_pipeline_error, try_except, bind, Store.update_job,
    Redis.raw_delete.
  rewrite io_no_fault by exact Hf.
  rewrite io_no_fault by exact Hf.
  rewrite publish_event_no_fault by exact Hf.
  eexists. split; [reflexivity |]. cbn -[String.append channel_of].
  rewrite <- app_assoc. auto.
Qed.

Lemma on_error_no_fault job_id e w :
  faults w = [] -> is_PipelineError e = true ->
  exists w',
    Orchestrator.on_error job_id e w = (Raise e, w')
    /\ jobs w' = patch_rows job_id (failed_patch (str e)) (jobs w)
    /\ trace w'
       = (trace w ++
          [JobUpdate job_id (failed_patch (str e));
           Publish (channel_of job_id) "error"
             (ErrorData (str e)
                (if is_BudgetExceededError e then Some "BUDGET_EXCEEDED"
                 else getattr_code e "MODULE_FAILURE")
                (if is_BudgetExceededError e then false else is_RetryableError e))])%list.
Proof.
  intros Hf He. unfold Orchestrator.on_error. rewrite He, orb_true_r.
  destruct (handle_pipeline_error_no_fault job_id e w Hf) as (w' & H & Hj & Ht & _).
  exists w'. unfold bind. rewrite H. auto.
Qed.

(** ** C5 and C6: the budget check before a stage, and the clip count *)

Section BudgetPrecheck.

Variable cfg : Settings.
Variable env : Collaborators.
Variables job_id audio_url user_prompt : string.

Lemma through_stage2_invokes_no_references :
  only (not_invoking "reference_generator")
       (Orchestrator.through_stage2 env job_id audio_url user_prompt).
Proof.
  unfold Orchestrator.through_stage2, Orchestrator.andthen, Orchestrator.set_processing,
    Orchestrator.stage1, Orchestrator.stage2.
  only_auto.
Qed.

Lemma through_stage4_invokes_no_generator :
  only (not_invoking "video_generator")
       (Orchestrator.through_stage4 cfg env job_id audio_url user_prompt).
Proof.
  unfold Orchestrator.through_stage4, Orchestrator.through_stage2, Orchestrator.andthen,
    Orchestrator.set_processing, Orchestrator.stage1, Orchestrator.stage2,
    Orchestrator.stage3, Orchestrator.stage4.
  only_auto.
Qed.

(** What a run does when the body of the [try] block raises a budget error
    right after announcing a stage. *)
Lemma budget_error_recorded (w0 w1 : World) (stage what : string) :
  faults w1 = [] ->
  Orchestrator.pipeline_body cfg env job_id audio_url user_prompt w0
  = (Raise (BudgetExceededError ("Would exceed budget limit before " +:+ what) None),
     emit (Publish (channel_of job_id) "stage_update" (StageStarted stage)) w1) ->
  (exists t, trace w1 = (trace w0 ++ t)%list /\ forallb (not_invoking stage) t = true) ->
  budget_stop cfg env job_id audio_url user_prompt w0 w1 stage what.
Proof.
  intros Hf Hbody (t & Ht & Hk). unfold budget_stop.
  set (e := BudgetExceededError ("Would exceed budget limit before " +:+ what) None) in *.
  set (w1' := emit (Publish (channel_of job_id) "stage_update" (StageStarted stage)) w1) in *.
  destruct (on_error_no_fault job_id e w1' Hf eq_refl) as (w2 & H & Hj & Htr).
  exists w2. unfold Orchestrator.execute_pipeline.
  erewrite try_except_raise by (erewrite bind_raise by exact Hbody; reflexivity).
  split; [exact H |]. split; [exact Hj |].
  assert (Htr' : trace w2
                 = (trace w1 ++
                    [Publish (channel_of job_id) "stage_update" (StageStarted stage);
                     JobUpdate job_id (failed_patch (str e));
                     Publish (channel_of job_id) "error"
                       (ErrorData (str e) (Some "BUDGET_EXCEEDED") false)])%list).
  { rewrite Htr. subst w1'. cbn [trace emit]. rewrite <- app_assoc. reflexivity. }
  split; [exact Htr' |].
  eexists. split.
  - rewrite Htr', Ht, <- app_assoc. reflexivity.
  - rewrite forallb_app, Hk. reflexivity.
Qed.

(** C5. Before reference generation (estimate 50.00) and before video
    generation (estimate 100.00) the orchestrator checks the current total
    plus the estimate against the limit of the environment.  When a run for
    a job with a well-formed identifier reaches either stage without a
    cancellation marker and the sum is above the limit, then, the store and
    the broker working, the run raises the budget error, the job is marked
    failed, the [error] event carries the code [BUDGET_EXCEEDED] and is not
    retryable, and the collaborator of the stage is not invoked. *)
Theorem budget_precheck_stops_stage :
  forall w0 : World,
    is_uuid job_id = true ->
    (forall ap w1,
        Orchestrator.through_stage2 env job_id audio_url user_prompt w0
          = (Ok (Some ap), w1) ->
        faults w1 = [] ->
        kv w1 !! cancel_marker_key job_id = None ->
        get_budget_limit (environment cfg) < current_total job_id w1 + 5000 ->
        budget_stop cfg env job_id audio_url user_prompt w0 w1
                    "reference_generator" "reference generation")
    /\ (forall apc w1,
          Orchestrator.through_stage4 cfg env job_id audio_url user_prompt w0
            = (Ok (Some apc), w1) ->
          faults w1 = [] ->
          kv w1 !! cancel_marker_key job_id = None ->
          get_budget_limit (environment cfg) < current_total job_id w1 + 10000 ->
          budget_stop cfg env job_id audio_url user_prompt w0 w1
                      "video_generator" "video generation").
Proof.
  intros w0 Hu. split.
  - intros ap w1 H2 Hf Hk Hlt.
    apply budget_error_recorded; [exact Hf | |].
    + unfold Orchestrator.pipeline_body.
      apply andthen_raise. unfold Orchestrator.through_stage4.
      erewrite andthen_some by exact H2.
      apply andthen_raise.
      unfold Orchestrator.stage3, bind.
      rewrite publish_event_no_fault by exact Hf.
      rewrite check_cancellation_clear by assumption.
      rewrite precheck_budget_exceeded by assumption.
      reflexivity.
    + destruct (through_stage2_invokes_no_references w0) as (t & Ht & Hkk).
      rewrite H2 in Ht. eauto.
  - intros apc w1 H4 Hf Hk Hlt.
    apply budget_error_recorded; [exact Hf | |].
    + unfold Orchestrator.pipeline_body.
      erewrite andthen_some by exact H4.
      apply andthen_raise. unfold Orchestrator.stage5.
      apply andthen_raise.
      unfold Orchestrator.stage5_generate, bind.
      rewrite publish_event_no_fault by exact Hf.
      rewrite check_cancellation_clear by assumption.
      rewrite precheck_budget_exceeded by assumption.
      reflexivity.
    + destruct (through_stage4_invokes_no_generator w0) as (t & Ht & Hkk).
      rewrite H4 in Ht. eauto.
Qed.

(** C6, amended.  If the video generator (or the stub that stands in for
    it) yields fewer than three clips, the orchestrator raises
    [PipelineError("Insufficient clips generated (minimum 3 required)")],
    and, the store and the broker working, the job is marked failed with
    that message and the [error] event is published with it, with no code
    and not retryable. *)
Theorem too_few_clips_fail_the_job :
  forall (w0 : World) apc (w1 : World) (clips : Clips) (w2 : World),
    Orchestrator.through_stage4 cfg env job_id audio_url user_prompt w0
      = (Ok (Some apc), w1) ->
    Orchestrator.stage5_generate cfg env job_id (snd apc) w1 = (Ok (Some clips), w2) ->
    (length clips < 3)%nat ->
    faults w2 = [] ->
    let msg := "Insufficient clips generated (minimum 3 required)" in
    exists w3,
      Orchestrator.execute_pipeline cfg env job_id audio_url user_prompt w0
        = (Raise (PipelineError msg None), w3)
      /\ jobs w3 = patch_rows job_id (failed_patch msg) (jobs w2)
      /\ trace w3
         = (trace w2 ++
            [JobUpdate job_id (failed_patch msg);
             Publish (channel_of job_id) "error" (ErrorData msg None false)])%list.
Proof.
  intros w0 apc w1 clips w2 H4 H5 Hlen Hf msg.
  destruct (on_error_no_fault job_id Orchestrator.insufficient_clips w2 Hf eq_refl)
    as (w3 & H & Hj & Htr).
  exists w3. split; [| split; [exact Hj | exact Htr]].
  unfold Orchestrator.execute_pipeline.
  erewrite try_except_raise; [exact H |].
  erewrite bind_raise; [reflexivity |].
  unfold Orchestrator.pipeline_body.
  erewrite andthen_some by exact H4.
  apply andthen_raise. unfold Orchestrator.stage5.
  erewrite andthen_some by exact H5.
  unfold Orchestrator.stage5_validate.
  replace (Z.of_nat (length clips) <? 3) with true by (symmetry; apply Z.ltb_lt; lia).
  reflexivity.
Qed.

End BudgetPrecheck.

Lemma budget_precheck_stops_stage_witness :
  budget_stop production working_env J audio_in prompt_in nearly_spent_world
    (snd (Orchestrator.through_stage2 working_env J audio_in prompt_in nearly_spent_world))
    "reference_generator" "reference generation"
  /\ budget_stop production costly_env J audio_in prompt_in queued_world
       (snd (Orchestrator.through_stage4 production costly_env J audio_in prompt_in
               queued_world))
       "video_generator" "video generation".
Proof.
  split.
  - apply (proj1 (budget_precheck_stops_stage production working_env J audio_in prompt_in
                    nearly_spent_world eq_refl)
                 (Orchestrator.stub_audio, Orchestrator.stub_plan));
      vm_compute; reflexivity.
  - apply (proj2 (budget_precheck_stops_stage production costly_env J audio_in prompt_in
                    queued_world eq_refl)
                 (Orchestrator.stub_audio, Orchestrator.stub_plan, Orchestrator.stub_prompts));
      vm_compute; reflexivity.
Defined.

(** C6, as stated, fails in the message: a run whose clip generator returns
    two clips raises [PipelineError], but not with the message the claim
    gives. *)
Lemma insufficient_clips_message_differs :
  let r := fst (Orchestrator.execute_pipeline production two_clips_env J audio_in prompt_in
                  queued_world) in
  r = Raise (PipelineError "Insufficient clips generated (minimum 3 required)" None)
  /\ r <> Raise (PipelineError "Insufficient clips generated" None).
Proof. split; [vm_compute; reflexivity | vm_compute; discriminate]. Qed.

Lemma too_few_clips_fail_the_job_witness :
  exists w3,
    Orchestrator.execute_pipeline production two_clips_env J audio_in prompt_in queued_world
      = (Raise (PipelineError "Insufficient clips generated (minimum 3 required)" None), w3)
    /\ List.map status (jobs w3) = ["failed"].
Proof.
  pose (w1 := snd (Orchestrator.through_stage4 production two_clips_env J audio_in prompt_in
                     queued_world)).
  pose (w2 := snd (Orchestrator.stage5_generate production two_clips_env J
                     Orchestrator.stub_prompts w1)).
  destruct (too_few_clips_fail_the_job production two_clips_env J audio_in prompt_in
              queued_world
              (Orchestrator.stub_audio, Orchestrator.stub_plan, Orchestrator.stub_prompts)
              w1 two_clips w2)
    as (w3 & Hrun & Hjobs & _).
  - vm_compute; reflexivity.
  - vm_compute; reflexivity.
  - cbn. lia.
  - vm_compute; reflexivity.
  - exists w3. split; [exact Hrun |]. rewrite Hjobs. vm_compute. reflexivity.
Defined.

(** A job whose identifier is malformed never gets past the first budget
    check: [UUID(job_id)] raises [ValueError], the run is recorded as failed
    with no error code, and the reference generator is not invoked. *)
Example malformed_identifier_fails_the_run :
  let run := Orchestrator.execute_pipeline production working_env "job-1" audio_in prompt_in
               malformed_world in
  fst run = Raise (OtherException "badly formed hexadecimal UUID string")
  /\ List.map error_message (jobs (snd run))
     = [Some "Pipeline execution failed: badly formed hexadecimal UUID string"]
  /\ List.filter is_error_event (trace (snd run))
     = [Publish (channel_of "job-1") "error"
          (ErrorData "Pipeline execution failed: badly formed hexadecimal UUID string"
                     None false)]
  /\ forallb (not_invoking "reference_generator") (trace (snd run)) = true.
Proof. repeat split; vm_compute; reflexivity. Qed.

(** With no stage module installed and the model classes missing, as in the
    sources at hand, the first stub cannot be built and the run fails in
    stage 1. *)
Example missing_models_fail_the_run :
  let run := Orchestrator.execute_pipeline production bare_env J audio_in prompt_in
               queued_world in
  fst run = Raise (ImportError "No module named 'shared.models.audio'")
  /\ List.map error_message (jobs (snd run))
     = [Some "Pipeline execution failed: No module named 'shared.models.audio'"]
  /\ progress_writes (trace (snd run)) = [].
Proof. repeat split; vm_compute; reflexivity. Qed.

(** * Further properties of the code *)

(** ** The cost ledger *)

Lemma filter_patch_rows_other job_id other p js :
  other <> job_id ->
  List.filter (fun j => String.eqb (id j) other) (patch_rows job_id p js)
  = List.filter (fun j => String.eqb (id j) other) js.
Proof.
  intros Hne. induction js as [|j js IH]; [reflexivity|].
  cbn. destruct (String.eqb (id j) job_id) eqn:E.
  - apply String.eqb_eq in E. cbn.
    destruct (String.eqb (id j) other) eqn:E'.
    + apply String.eqb_eq in E'. congruence.
    + exact IH.
  - destruct (String.eqb (id j) other); [f_equal|]; exact IH.
Qed.

(** X1. When the store answers, a charge with a non-negative cost adds
    one entry to the ledger, for the job, the stage and the API it was
    called with; of the rows of the job it writes the total only, and it
    does not lower it; the entries and the total of every other job are as
    they were. *)
Theorem track_cost_appends_one_entry :
  forall (job_id stage api : string) (cost : Decimal) (w : World),
    faults w = [] -> 0 <= cost -> has_job job_id w = true ->
    exists w' entry,
      CostTracker.track_cost job_id stage api cost w = (Ok tt, w')
      /\ job_costs w' = (job_costs w ++ [entry])%list
      /\ cr_job_id entry = job_id /\ cr_stage_name entry = stage /\ cr_api_name entry = api
      /\ (exists total, jobs w' = patch_rows job_id (cost_patch total) (jobs w))
      /\ current_total job_id w <= current_total job_id w'
      /\ forall other, other <> job_id ->
           entries_sum other w' = entries_sum other w
           /\ current_total other w' = current_total other w.
Proof.
  intros job_id stage api cost w Hf Hc Hj.
  destruct (track_cost_no_fault job_id stage api cost w Hf Hc) as (w' & Ht & _ & Hcs & Hjs & _).
  rewrite Hj in Hjs.
  exists w', (mkCost job_id stage api cost).
  split; [exact Ht|]. split; [exact Hcs|]. repeat (split; [reflexivity |]).
  split; [eexists; exact Hjs |].
  split.
  { rewrite has_job_filter in Hj. unfold current_total in *. rewrite Hjs, filter_patch_rows.
    destruct (List.filter _ (jobs w)); [discriminate | cbn; lia]. }
  intros other Hne. split.
  { unfold entries_sum. rewrite Hcs, List.filter_app. cbn.
    destruct (String.eqb job_id other) eqn:E'; [apply String.eqb_eq in E'; congruence|].
    now rewrite app_nil_r. }
  { unfold current_total. rewrite Hjs, filter_patch_rows_other by exact Hne. reflexivity. }
Qed.

Lemma track_cost_appends_one_entry_witness :
  exists w' entry,
    CostTracker.track_cost J "video_generator" "svd" 6000 fresh_world = (Ok tt, w')
    /\ job_costs w' = (job_costs fresh_world ++ [entry])%list
    /\ cr_job_id entry = J /\ cr_stage_name entry = "video_generator"
    /\ cr_api_name entry = "svd"
    /\ (exists total, jobs w' = patch_rows J (cost_patch total) (jobs fresh_world))
    /\ current_total J fresh_world <= current_total J w'
    /\ forall other, other <> J ->
         entries_sum other w' = entries_sum other fresh_world
         /\ current_total other w' = current_total other fresh_world.
Proof.
  apply (track_cost_appends_one_entry J "video_generator" "svd" 6000 fresh_world);
    [reflexivity | lia | reflexivity].
Defined.

(** X2. A charge that raises never changes a row of table [jobs]: the total
    stays as it was.  A negative cost is refused with a [ValidationError]
    before anything is written; every other failure is a [RetryableError],
    and then the cost entry may already have been inserted (there is no
    rollback), so that the entries exceed the total. *)
Theorem failed_charge_leaves_total :
  forall (job_id stage api : string) (cost : Decimal) (w : World) (e : Exn) (w' : World),
    CostTracker.track_cost job_id stage api cost w = (Raise e, w') ->
    jobs w' = jobs w
    /\ ((cost < 0 /\ is_ValidationError e = true /\ w' = w)
        \/ (0 <= cost /\ is_RetryableError e = true
            /\ (job_costs w' = job_costs w
                \/ job_costs w' = (job_costs w ++ [mkCost job_id stage api cost])%list))).
Proof.
  intros job_id stage api cost w e w'.
  unfold CostTracker.track_cost.
  destruct (cost <? 0) eqn:E.
  { apply Z.ltb_lt in E. unfold raise. intros H. injection H as <- <-.
    split; [reflexivity|]. left. auto. }
  apply Z.ltb_ge in E.
  unfold try_except, bind, Store.insert_cost, Store.select_job, Store.update_job, log, ret, raise, io.
  destruct w as [js ss cs m cn tr fs]. cbn.
  destruct fs as [|[e1|] fs1]; cbn.
  - destruct (List.filter _ js); cbn; intros H; discriminate.
  - intros H. injection H as <- <-. split; [reflexivity|]. right. auto.
  - destruct fs1 as [|[e2|] fs2]; cbn.
    + destruct (List.filter _ js); cbn; intros H; discriminate.
    + intros H. injection H as <- <-. split; [reflexivity|]. right. auto.
    + destruct (List.filter _ js); cbn.
      * intros H; discriminate.
      * destruct fs2 as [|[e3|] fs3]; cbn; intros H; try discriminate.
        injection H as <- <-. split; [reflexivity|]. right. auto.
Qed.

Lemma failed_charge_leaves_total_witness :
  let w := world_failing_at 1 in
  let e := RetryableError "Failed to track cost: Connection refused" None in
  let w' := set_faults [] (set_job_costs [mkCost J "video_generator" "svd" 6000] w) in
  CostTracker.track_cost J "video_generator" "svd" 6000 w = (Raise e, w')
  /\ jobs w' = jobs w
  /\ ((6000 < 0 /\ is_ValidationError e = true /\ w' = w)
      \/ (0 <= 6000 /\ is_RetryableError e = true
          /\ (job_costs w' = job_costs w
              \/ job_costs w'
                 = (job_costs w ++ [mkCost J "video_generator" "svd" 6000])%list))).
Proof.
  split; [reflexivity |].
  apply (failed_charge_leaves_total J "video_generator" "svd" 6000 (world_failing_at 1)
           (RetryableError "Failed to track cost: Connection refused" None)).
  reflexivity.
Defined.

Lemma check_budget_no_fault job_id new_cost limit w :
  faults w = [] ->
  CostTracker.check_budget job_id new_cost limit w
  = (Ok (current_total job_id w + new_cost <=? limit), w).
Proof.
  intros Hf. unfold CostTracker.check_budget, try_except, bind.
  rewrite get_total_cost_no_fault by exact Hf. reflexivity.
Qed.

Lemma enforce_budget_limit_no_fault job_id limit w :
  faults w = [] ->
  CostTracker.enforce_budget_limit job_id limit w
  = (if limit <? current_total job_id w
     then Raise (BudgetExceededError
                   ("Budget limit of $" +:+ str_decimal2 limit +:+ " exceeded for job "
                      +:+ job_id +:+ ". Current total: $"
                      +:+ str_float (current_total job_id w))
                   (Some "BUDGET_EXCEEDED"))
     else Ok tt, w).
Proof.
  intros Hf. unfold CostTracker.enforce_budget_limit, try_except, bind.
  rewrite get_total_cost_no_fault by exact Hf.
  destruct (limit <? current_total job_id w); reflexivity.
Qed.

Lemma enforce_budget_within cfg job_id w :
  is_uuid job_id = true -> faults w = [] ->
  current_total job_id w <= get_budget_limit (environment cfg) ->
  enforce_budget cfg job_id w = (Ok tt, w).
Proof.
  intros Hu Hf Hle. unfold enforce_budget, try_except, bind.
  rewrite UUID_ok by exact Hu.
  rewrite enforce_budget_limit_no_fault by exact Hf.
  replace (get_budget_limit (environment cfg) <? current_total job_id w) with false
    by (symmetry; apply Z.ltb_ge; exact Hle).
  reflexivity.
Qed.

Lemma enforce_budget_exceeded cfg job_id w :
  is_uuid job_id = true -> faults w = [] ->
  get_budget_limit (environment cfg) < current_total job_id w ->
  let msg := "Budget limit of $" +:+ str_decimal2 (get_budget_limit (environment cfg))
               +:+ " exceeded for job " +:+ job_id +:+ ". Current total: $"
               +:+ str_float (current_total job_id w) in
  enforce_budget cfg job_id w
  = (Raise (BudgetExceededError msg (Some "BUDGET_EXCEEDED")),
     emit (Publish (channel_of job_id) "error"
             (ErrorData msg (Some "BUDGET_EXCEEDED") false)) w).
Proof.
  intros Hu Hf Hlt msg. unfold enforce_budget, try_except, bind.
  rewrite UUID_ok by exact Hu.
  rewrite enforce_budget_limit_no_fault by exact Hf.
  replace (get_budget_limit (environment cfg) <? current_total job_id w) with true
    by (symmetry; apply Z.ltb_lt; exact Hlt).
  cbn [is_BudgetExceededError].
  rewrite publish_event_no_fault by exact Hf. reflexivity.
Qed.

(** X3. When the store answers, the check with no new cost and the
    enforcement agree: the check returns [True] exactly when the enforcement
    passes, and [False] exactly when the enforcement raises the budget error
    with code [BUDGET_EXCEEDED]; a total equal to the limit passes both. *)
Theorem check_budget_agrees_with_enforcement :
  forall (job_id : string) (limit : Decimal) (w : World),
    faults w = [] ->
    (fst (CostTracker.check_budget job_id 0 limit w) = Ok true
     <-> fst (CostTracker.enforce_budget_limit job_id limit w) = Ok tt)
    /\ (fst (CostTracker.check_budget job_id 0 limit w) = Ok false
        <-> exists msg, fst (CostTracker.enforce_budget_limit job_id limit w)
                        = Raise (BudgetExceededError msg (Some "BUDGET_EXCEEDED")))
    /\ (current_total job_id w = limit ->
        fst (CostTracker.enforce_budget_limit job_id limit w) = Ok tt).
Proof.
  intros job_id limit w Hf.
  rewrite check_budget_no_fault, enforce_budget_limit_no_fault by exact Hf.
  rewrite Z.add_0_r. cbn.
  destruct (limit <? current_total job_id w) eqn:E;
    [apply Z.ltb_lt in E | apply Z.ltb_ge in E].
  - assert (L : (current_total job_id w <=? limit) = false) by (apply Z.leb_gt; lia).
    rewrite L. repeat split; try discriminate; eauto; lia.
  - assert (L : (current_total job_id w <=? limit) = true) by (apply Z.leb_le; lia).
    rewrite L. repeat split; try discriminate; auto.
    intros [msg H]. discriminate.
Qed.

(** X4. The check before an expensive stage is sound for charges within
    the estimate: when the check passes with an estimate and the stage then
    charges at most that much, the enforcement after the stage passes. *)
Theorem charge_within_estimate_passes_enforcement :
  forall (cfg : Settings) (job_id what stage api : string) (estimate cost : Decimal)
         (w : World),
    faults w = [] -> has_job job_id w = true ->
    0 <= cost <= estimate ->
    fst (Orchestrator.precheck_budget cfg job_id estimate what w) = Ok tt ->
    exists w',
      CostTracker.track_cost job_id stage api cost w = (Ok tt, w')
      /\ enforce_budget cfg job_id w' = (Ok tt, w').
Proof.
  intros cfg job_id what stage api est cost w Hf Hj Hc Hp.
  destruct (is_uuid job_id) eqn:Hu.
  2:{ rewrite precheck_budget_malformed in Hp by exact Hu. discriminate. }
  destruct (Z.le_gt_cases (current_total job_id w + est) (get_budget_limit (environment cfg)))
    as [Hle|Hgt].
  2:{ rewrite precheck_budget_exceeded in Hp by (auto; lia). discriminate. }
  destruct (track_cost_no_fault job_id stage api cost w Hf (proj1 Hc))
    as (w' & Ht & Hf' & _ & Hjs & _).
  exists w'. split; [exact Ht|].
  assert (Htot : current_total job_id w' = current_total job_id w + cost).
  { rewrite Hj in Hjs. rewrite has_job_filter in Hj. unfold current_total in *.
    rewrite Hjs, filter_patch_rows.
    destruct (List.filter _ (jobs w)); [discriminate | reflexivity]. }
  unfold enforce_budget, try_except, bind. rewrite UUID_ok by exact Hu.
  rewrite enforce_budget_limit_no_fault by exact Hf'.
  assert (L : (get_budget_limit (environment cfg) <? current_total job_id w') = false)
    by (apply Z.ltb_ge; lia).
  rewrite L. reflexivity.
Qed.

Lemma charge_within_estimate_passes_enforcement_witness :
  exists w',
    CostTracker.track_cost J "reference_generator" "sdxl" 1200 fresh_world = (Ok tt, w')
    /\ enforce_budget development J w' = (Ok tt, w').
Proof.
  apply (charge_within_estimate_passes_enforcement development J "reference generation"
           "reference_generator" "sdxl" 5000 1200 fresh_world);
    [reflexivity | reflexivity | lia | reflexivity].
Defined.

Lemma check_budget_agrees_with_enforcement_witness :
  (fst (CostTracker.check_budget J 0 200000 nearly_spent_world) = Ok true
   <-> fst (CostTracker.enforce_budget_limit J 200000 nearly_spent_world) = Ok tt)
  /\ (fst (CostTracker.check_budget J 0 200000 nearly_spent_world) = Ok false
      <-> exists msg, fst (CostTracker.enforce_budget_limit J 200000 nearly_spent_world)
                      = Raise (BudgetExceededError msg (Some "BUDGET_EXCEEDED")))
  /\ (current_total J nearly_spent_world = 200000 ->
      fst (CostTracker.enforce_budget_limit J 200000 nearly_spent_world) = Ok tt).
Proof.
  apply (check_budget_agrees_with_enforcement J 200000 nearly_spent_world). reflexivity.
Defined.

(** ** Frames *)

Section FrameRules.

Variable R : World -> World -> Prop.
Context `{!Frame R}.

Lemma preserves_ret {A} (a : A) : preserves R (ret a).
Proof. intros w. apply frame_refl. Qed.

Lemma preserves_raise {A} e : preserves R (@raise A e).
Proof. intros w. apply frame_refl. Qed.

Lemma preserves_bind {A B} (m : M A) (k : A -> M B) :
  preserves R m -> (forall a, preserves R (k a)) -> preserves R (bind m k).
Proof.
  intros Hm Hk w. unfold bind. specialize (Hm w).
  destruct (m w) as [[a | e] w1]; cbn in Hm; [| exact Hm].
  eapply frame_trans; [exact Hm | apply Hk].
Qed.

Lemma preserves_try_except {A} (m : M A) (h : Exn -> M A) :
  preserves R m -> (forall e, preserves R (h e)) -> preserves R (try_except m h).
Proof.
  intros Hm Hh w. unfold try_except. specialize (Hm w).
  destruct (m w) as [[a | e] w1]; cbn in Hm; [exact Hm |].
  eapply frame_trans; [exact Hm | apply Hh].
Qed.

Lemma preserves_io {A} (act : M A) : preserves R act -> preserves R (io act).
Proof. intros Ha w. now apply frame_io. Qed.

Lemma preserves_andthen {A B} (m : M (option A)) (k : A -> M (option B)) :
  preserves R m -> (forall a, preserves R (k a)) -> preserves R (Orchestrator.andthen m k).
Proof.
  intros Hm Hk. apply preserves_bind; [exact Hm |].
  intros [a |]; [apply Hk | apply preserves_ret].
Qed.

(** Computations built from steps that [R] admits. *)
Hypothesis R_quiet :
  forall w w', jobs w' = jobs w -> kv w' = kv w -> faults w' = faults w -> R w w'.

Lemma preserves_quiet {A} (m : M A) :
  (forall w, jobs (snd (m w)) = jobs w /\ kv (snd (m w)) = kv w
             /\ faults (snd (m w)) = faults w) ->
  preserves R m.
Proof. intros H w. now apply R_quiet; apply H. Qed.

Lemma preserves_select_job job_id : preserves R (Store.select_job job_id).
Proof. apply preserves_io, preserves_quiet. intros w. now cbn. Qed.

Lemma preserves_select_stage job_id st : preserves R (Store.select_stage job_id st).
Proof. apply preserves_io, preserves_quiet. intros w. now cbn. Qed.

Lemma preserves_insert_stage r : preserves R (Store.insert_stage r).
Proof. apply preserves_io, preserves_quiet. intros w. now cbn. Qed.

Lemma preserves_insert_cost r : preserves R (Store.insert_cost r).
Proof. apply preserves_io, preserves_quiet. intros w. now cbn. Qed.

Lemma preserves_raw_get key : preserves R (Redis.raw_get key).
Proof.
  apply preserves_io, preserves_quiet. intros w.
  destruct (kv w !! key) as [[[v | ms] t] |]; now cbn.
Qed.

Lemma preserves_redis_get key : preserves R (Redis.get key).
Proof.
  apply preserves_try_except; [apply preserves_raw_get | intros; apply preserves_raise].
Qed.

Lemma preserves_publish_event job_id ty d : preserves R (publish_event job_id ty d).
Proof.
  apply preserves_try_except; [| intros; apply preserves_ret].
  apply preserves_bind; [| intros; apply preserves_ret].
  apply preserves_io, preserves_quiet. intros w. now cbn.
Qed.

Lemma preserves_broadcast_event job_id ty d : preserves R (broadcast_event job_id ty d).
Proof.
  apply preserves_quiet. intros w. unfold broadcast_event.
  destruct (get_connections job_id w); now cbn.
Qed.

Lemma preserves_check_cancellation job_id : preserves R (check_cancellation job_id).
Proof.
  apply preserves_try_except.
  - apply preserves_bind; [apply preserves_redis_get | intros; apply preserves_ret].
  - intros. apply preserves_bind; [apply preserves_ret | intros; apply preserves_ret].
Qed.

Lemma preserves_get_total_cost job_id : preserves R (CostTracker.get_total_cost job_id).
Proof.
  apply preserves_try_except; [| intros; apply preserves_raise].
  apply preserves_bind; [apply preserves_select_job |].
  intros [| row rest]; apply preserves_ret.
Qed.

Variable job_id : string.
Hypothesis R_update : forall p, preserves R (Store.update_job job_id p).
Hypothesis R_delete : preserves R (Redis.raw_delete ("job_status:" +:+ job_id)).

Lemma preserves_update_progress v st : preserves R (update_progress job_id v st).
Proof.
  apply preserves_try_except; [| intros; apply preserves_ret].
  apply preserves_bind; [apply R_update | intros _].
  apply preserves_bind; [apply R_delete | intros _].
  apply preserves_bind; [apply preserves_publish_event | intros _].
  apply preserves_bind; [apply preserves_broadcast_event | intros _].
  apply preserves_ret.
Qed.

Lemma preserves_handle_pipeline_error e : preserves R (handle_pipeline_error job_id e).
Proof.
  apply preserves_try_except; [| intros; apply preserves_ret].
  apply preserves_bind; [apply R_update | intros _].
  apply preserves_bind; [apply R_delete | intros _].
  apply preserves_bind; [apply preserves_publish_event | intros _].
  apply preserves_ret.
Qed.

Lemma preserves_track_cost st api c : preserves R (CostTracker.track_cost job_id st api c).
Proof.
  unfold CostTracker.track_cost. destruct (c <? 0); [apply preserves_raise |].
  apply preserves_try_except; [| intros; apply preserves_raise].
  apply preserves_bind; [apply preserves_insert_cost | intros _].
  apply preserves_bind; [apply preserves_select_job | intros rows].
  apply preserves_bind; [| intros; apply preserves_ret].
  destruct rows as [| row rest]; [apply preserves_ret | apply R_update].
Qed.

Lemma preserves_charge_all st cs : preserves R (charge_all job_id st cs).
Proof.
  induction cs as [| [api c] cs IH]; cbn; [apply preserves_ret |].
  apply preserves_bind; [apply preserves_track_cost | intros _; exact IH].
Qed.

Lemma preserves_call {A} st (c : Collaborator A) : preserves R (call job_id st c).
Proof.
  unfold call. destruct (installed c); [| apply preserves_raise].
  apply preserves_bind; [apply preserves_quiet; intros w; now cbn | intros _].
  apply preserves_bind; [apply preserves_charge_all | intros _].
  destruct (outcome c); [apply preserves_ret | apply preserves_raise].
Qed.

Lemma preserves_build {A} failure (stub : A) : preserves R (Orchestrator.build failure stub).
Proof. destruct failure; [apply preserves_raise | apply preserves_ret]. Qed.

Lemma preserves_call_or_stub {A} st (c : Collaborator A) failure (stub : A) :
  preserves R (Orchestrator.call_or_stub job_id st c (Orchestrator.build failure stub)).
Proof.
  apply preserves_try_except; [apply preserves_call |].
  intros e. destruct (is_ImportError e); [| apply preserves_raise].
  apply preserves_bind; [apply preserves_ret | intros; apply preserves_build].
Qed.

Lemma preserves_UUID : preserves R (UUID job_id).
Proof.
  unfold UUID. destruct (is_uuid job_id); [apply preserves_ret | apply preserves_raise].
Qed.

Lemma preserves_precheck_budget cfg est what :
  preserves R (Orchestrator.precheck_budget cfg job_id est what).
Proof.
  apply preserves_bind; [apply preserves_UUID | intros uuid].
  apply preserves_bind.
  - apply preserves_try_except; [| intros; apply preserves_raise].
    apply preserves_bind; [apply preserves_get_total_cost | intros; apply preserves_ret].
  - intros [|]; [apply preserves_ret | apply preserves_raise].
Qed.

Lemma preserves_enforce_budget cfg : preserves R (enforce_budget cfg job_id).
Proof.
  apply preserves_try_except.
  - apply preserves_bind; [apply preserves_UUID | intros uuid].
    apply preserves_try_except.
    + apply preserves_bind; [apply preserves_get_total_cost | intros c].
      destruct (_ <? c); [apply preserves_raise | apply preserves_ret].
    + intros e. destruct (is_BudgetExceededError e); apply preserves_raise.
  - intros e. destruct (is_BudgetExceededError e); [| apply preserves_raise].
    apply preserves_bind; [apply preserves_publish_event | intros; apply preserves_raise].
Qed.

Ltac preserves_auto :=
  repeat first
    [ apply preserves_ret
    | apply preserves_raise
    | apply preserves_publish_event
    | apply preserves_update_progress
    | apply preserves_check_cancellation
    | apply preserves_handle_pipeline_error
    | apply preserves_call_or_stub
    | apply preserves_call
    | apply preserves_precheck_budget
    | apply preserves_enforce_budget
    | apply preserves_select_job
    | apply preserves_select_stage
    | apply preserves_insert_stage
    | apply R_delete
    | apply R_update
    | apply preserves_redis_get
    | apply preserves_andthen; [| intros ?]
    | apply preserves_bind; [| intros ?]
    | apply preserves_try_except; [| intros ?]
    | match goal with |- preserves _ (if ?b then _ else _) => destruct b end
    | match goal with |- preserves _ (match ?x with _ => _ end) => destruct x end ].

Lemma preserves_execute_pipeline cfg env audio_url user_prompt :
  preserves R (Orchestrator.execute_pipeline cfg env job_id audio_url user_prompt).
Proof.
  unfold Orchestrator.execute_pipeline, Orchestrator.pipeline_body,
    Orchestrator.through_stage4, Orchestrator.through_stage2, Orchestrator.set_processing,
    Orchestrator.stage1, Orchestrator.stage2, Orchestrator.stage3, Orchestrator.stage4,
    Orchestrator.stage5, Orchestrator.stage5_generate, Orchestrator.stage5_validate,
    Orchestrator.stage6, Orchestrator.on_error.
  preserves_auto.
Qed.

End FrameRules.
Lemma patched_app job_id ps1 ps2 js :
  patched job_id (ps1 ++ ps2) js = patched job_id ps2 (patched job_id ps1 js).
Proof. unfold patched. apply fold_left_app. Qed.

(** A preorder that does not look at the fault schedule is a frame. *)
Lemma frame_of_preorder (R : World -> World -> Prop) :
  (forall w, R w w) ->
  (forall a b c, R a b -> R b c -> R a c) ->
  (forall fs w, R w (set_faults fs w)) ->
  Frame R.
Proof.
  intros Hr Ht Hf. split; [exact Hr | exact Ht |].
  intros A act Ha w. unfold io. destruct (faults w) as [| [e |] fs]; cbn.
  - apply Ha.
  - apply Hf.
  - eapply Ht; [apply (Hf fs) | apply Ha].
Qed.

#[local] Instance run_frame_is_frame job_id : Frame (run_frame job_id).
Proof.
  apply frame_of_preorder.
  - intros w. split; [exists []; reflexivity | now left].
  - intros a b c [[ps1 H1] K1] [[ps2 H2] K2]. split.
    + exists (ps1 ++ ps2)%list. now rewrite patched_app, <- H1.
    + destruct K2 as [-> | ->]; [exact K1 |].
      destruct K1 as [-> | ->]; [now right |].
      right. now rewrite delete_delete_eq.
  - intros fs w. split; [exists []; reflexivity | now left].
Qed.

Lemma run_frame_quiet job_id w w' :
  jobs w' = jobs w -> kv w' = kv w -> faults w' = faults w -> run_frame job_id w w'.
Proof. intros Hj Hk _. split; [exists []; exact Hj | now left]. Qed.

Lemma run_frame_update job_id p : preserves (run_frame job_id) (Store.update_job job_id p).
Proof.
  apply preserves_io; [apply _ |]. intros w. cbn.
  split; [exists [p]; reflexivity | now left].
Qed.

Lemma run_frame_delete job_id :
  preserves (run_frame job_id) (Redis.raw_delete ("job_status:" +:+ job_id)).
Proof.
  apply preserves_io; [apply _ |]. intros w. cbn.
  split; [exists []; reflexivity | now right].
Qed.

Lemma execute_pipeline_run_frame cfg env job_id audio_url user_prompt :
  preserves (run_frame job_id)
            (Orchestrator.execute_pipeline cfg env job_id audio_url user_prompt).
Proof.
  apply preserves_execute_pipeline.
  - apply _.
  - apply run_frame_quiet.
  - apply run_frame_update.
  - apply run_frame_delete.
Qed.

Lemma raw_status_key_is_not_prefixed job_id key :
  "job_status:" +:+ job_id <> Redis._prefix_key key.
Proof. cbn. discriminate. Qed.

Lemma run_frame_prefixed job_id w w' key :
  run_frame job_id w w' ->
  kv w' !! Redis._prefix_key key = kv w !! Redis._prefix_key key.
Proof.
  intros [_ [-> | ->]]; [reflexivity |].
  apply lookup_delete_ne, raw_status_key_is_not_prefixed.
Qed.

(** The rows after a sequence of updates of one job, row by row. *)
Lemma patched_map job_id ps js :
  patched job_id ps js
  = List.map (fun j => if String.eqb (id j) job_id
                       then fold_left (fun r p => apply_patch p r) ps j else j) js.
Proof.
  revert js. induction ps as [| p ps IH]; intros js; cbn.
  - induction js as [| j js IHjs]; cbn; [reflexivity |].
    rewrite <- IHjs. now destruct (String.eqb (id j) job_id).
  - unfold patched in IH. rewrite IH. unfold patch_rows. rewrite List.map_map.
    apply List.map_ext. intros j.
    destruct (String.eqb (id j) job_id) eqn:E; cbn; now rewrite E.
Qed.

Lemma fold_apply_patch_identity ps j :
  same_identity j (fold_left (fun r p => apply_patch p r) ps j).
Proof.
  revert j. induction ps as [| p ps IH]; intros j; cbn; [now split |].
  destruct (IH (apply_patch p j)) as (H1 & H2 & H3). now split.
Qed.

Lemma run_frame_rows job_id w w' :
  run_frame job_id w w' ->
  Forall2 (fun j j' => same_identity j j' /\ (id j <> job_id -> j' = j)) (jobs w) (jobs w').
Proof.
  intros [[ps ->] _]. rewrite patched_map.
  induction (jobs w) as [| j js IH]; cbn; constructor; [| exact IH].
  destruct (String.eqb (id j) job_id) eqn:E.
  - apply String.eqb_eq in E. split; [apply fold_apply_patch_identity | congruence].
  - split; [now split | reflexivity].
Qed.

(** X5. Whatever fails on the way, a run of the orchestrator changes nothing
    in the broker's key space except, possibly, deleting the raw key
    [job_status:<job_id>]: the cached status document of every job (stored
    by the status endpoint under the wrapper's prefixed key) and every
    cancellation marker are as they were before the run. *)
Theorem run_leaves_status_cache_and_markers :
  forall (cfg : Settings) (env : Collaborators) (job_id audio_url user_prompt : string)
         (w : World),
    let w' := snd (Orchestrator.execute_pipeline cfg env job_id audio_url user_prompt w) in
    (kv w' = kv w \/ kv w' = delete ("job_status:" +:+ job_id) (kv w))
    /\ (forall j, kv w' !! status_cache_key j = kv w !! status_cache_key j)
    /\ (forall j, kv w' !! cancel_marker_key j = kv w !! cancel_marker_key j).
Proof.
  intros cfg env job_id audio_url user_prompt w w'.
  pose proof (execute_pipeline_run_frame cfg env job_id audio_url user_prompt w) as H.
  fold w' in H. split; [apply H |].
  split; intros j; eapply run_frame_prefixed; exact H.
Qed.

(** X6. Whatever fails on the way, a run of the orchestrator neither inserts
    nor deletes a row of table [jobs], changes the identifier, the owner or
    the creation time of no row, and leaves the rows of every other job as
    they were. *)
Theorem run_changes_only_its_job :
  forall (cfg : Settings) (env : Collaborators) (job_id audio_url user_prompt : string)
         (w : World),
    Forall2 (fun j j' => same_identity j j' /\ (id j <> job_id -> j' = j))
            (jobs w)
            (jobs (snd (Orchestrator.execute_pipeline cfg env job_id audio_url user_prompt w))).
Proof.
  intros. apply run_frame_rows, execute_pipeline_run_frame.
Qed.

#[local] Instance same_key_is_frame k : Frame (same_key k).
Proof.
  apply frame_of_preorder; unfold same_key.
  - reflexivity.
  - intros a b c H1 H2. now rewrite H2.
  - reflexivity.
Qed.

Lemma same_key_quiet k w w' :
  jobs w' = jobs w -> kv w' = kv w -> faults w' = faults w -> same_key k w w'.
Proof. intros _ H _. unfold same_key. now rewrite H. Qed.

Lemma same_key_update_job k job_id p : preserves (same_key k) (Store.update_job job_id p).
Proof. apply preserves_io; [apply _ |]. intros w. reflexivity. Qed.

Lemma same_key_raw_delete k key : key <> k -> preserves (same_key k) (Redis.raw_delete key).
Proof.
  intros Hne. apply preserves_io; [apply _ |]. intros w. unfold same_key. cbn.
  now apply lookup_delete_ne.
Qed.

Lemma same_key_raw_set k key v ex : key <> k -> preserves (same_key k) (Redis.raw_set key v ex).
Proof.
  intros Hne. apply preserves_io; [apply _ |]. intros w. unfold same_key. cbn.
  now apply lookup_insert_ne.
Qed.

Lemma same_key_verify_job_ownership k job_id user :
  preserves (same_key k) (Routes.verify_job_ownership job_id user).
Proof.
  assert (F := same_key_is_frame k).
  apply preserves_try_except; [exact F | |].
  - apply preserves_bind; [exact F | apply preserves_select_job; [exact F | apply same_key_quiet] |].
    intros [| job rest]; [now apply preserves_raise |].
    destruct (negb _); [now apply preserves_raise | now apply preserves_ret].
  - intros e. destruct (is_HTTPException e); [now apply preserves_raise |].
    apply preserves_bind; [exact F | now apply preserves_ret | intros; now apply preserves_raise].
Qed.

(** X7. Cancelling a job never invalidates a cached status document: for
    every world and every outcome of the call, the entry under the key the
    status endpoint caches under is the one that was there before. *)
Theorem cancel_job_never_invalidates_status_cache :
  forall (job_id current_user : string) (w : World) (j : string),
    kv (snd (Routes.cancel_job job_id current_user w)) !! status_cache_key j
    = kv w !! status_cache_key j.
Proof.
  intros job_id user w j.
  change (same_key (status_cache_key j) w (snd (Routes.cancel_job job_id user w))).
  revert w. change (preserves (same_key (status_cache_key j)) (Routes.cancel_job job_id user)).
  assert (F := same_key_is_frame (status_cache_key j)).
  unfold Routes.cancel_job.
  apply preserves_bind; [exact F | apply same_key_verify_job_ownership | intros job].
  destruct (negb _); [now apply preserves_raise |].
  apply preserves_try_except; [exact F | |].
  2:{ intros e. apply preserves_bind; [exact F | now apply preserves_ret |].
      intros; now apply preserves_raise. }
  apply preserves_bind; [exact F | |].
  - destruct (String.eqb (status job) "queued").
    + apply preserves_bind; [exact F | | intros; apply same_key_update_job].
      apply preserves_try_except; [exact F | |].
      * apply preserves_bind; [exact F | |].
        { apply same_key_raw_delete. cbn. discriminate. }
        intros. apply preserves_bind; [exact F | now apply preserves_ret |].
        intros; now apply preserves_ret.
      * intros. apply preserves_bind; [exact F | now apply preserves_ret |].
        intros; now apply preserves_ret.
    + destruct (String.eqb (status job) "processing"); [| now apply preserves_ret].
      apply preserves_bind; [exact F | | intros; apply same_key_update_job].
      apply preserves_try_except; [exact F | | intros; now apply preserves_raise].
      apply preserves_bind; [exact F | | intros; now apply preserves_ret].
      apply same_key_raw_set. cbn. discriminate.
  - intros _. apply preserves_bind; [exact F | |].
    + apply same_key_raw_delete. cbn. discriminate.
    + intros. apply preserves_bind; [exact F | now apply preserves_ret |].
      intros; now apply preserves_ret.
Qed.

(** ** The broker wrapper *)

Lemma prefix_key_inj key key' : Redis._prefix_key key = Redis._prefix_key key' -> key = key'.
Proof. unfold Redis._prefix_key, Redis.prefix. cbn. intros H. now injection H. Qed.

Lemma redis_get_no_fault key w :
  faults w = [] ->
  Redis.get key w
  = (match kv w !! Redis._prefix_key key with
     | None => Ok None
     | Some (mkEntry (RStr v) _) => Ok (Some v)
     | Some (mkEntry (RZSet _) _) =>
         Raise (RetryableError ("Failed to get Redis key: " +:+ str Redis.wrongtype) None)
     end, w).
Proof.
  intros Hf. unfold Redis.get, try_except, Redis.raw_get.
  rewrite io_no_fault by exact Hf.
  destruct (kv w !! Redis._prefix_key key) as [[[v | ms] t] |]; reflexivity.
Qed.

(** X8. What is stored through the wrapper is read back through it: when
    the broker answers, [set] returns [True], a [get] of the same key then
    returns the value, the key carries the expiry that was given, and a
    [get] of any other key returns what it returned before. *)
Theorem redis_set_then_get :
  forall (key : string) (value : StrVal) (ex : option Z) (w : World),
    faults w = [] ->
    let r := Redis.set key value ex w in
    fst r = Ok true
    /\ Redis.get key (snd r) = (Ok (Some value), snd r)
    /\ Redis.ttl_of (snd r) (Redis._prefix_key key) = ex
    /\ forall key', key' <> key -> Redis.get key' (snd r) = (fst (Redis.get key' w), snd r).
Proof.
  intros key value ex w Hf r.
  assert (Hr : r = (Ok true, set_kv (<[Redis._prefix_key key := mkEntry (RStr value) ex]> (kv w)) w)).
  { unfold r, Redis.set, try_except, bind, Redis.raw_set. now rewrite io_no_fault by exact Hf. }
  rewrite Hr. cbn [fst snd].
  split; [reflexivity |].
  split. { rewrite redis_get_no_fault by exact Hf. cbn. now rewrite lookup_insert_eq. }
  split. { unfold Redis.ttl_of. cbn. now rewrite lookup_insert_eq. }
  intros key' Hne. rewrite !redis_get_no_fault by exact Hf. cbn.
  rewrite lookup_insert_ne; [reflexivity |].
  intros H. apply prefix_key_inj in H. congruence.
Qed.

Lemma redis_set_then_get_witness :
  let r := Redis.set ("job_cancel:" +:+ J) (Plain "1") (Some 900) fresh_world in
  fst r = Ok true
  /\ Redis.get ("job_cancel:" +:+ J) (snd r) = (Ok (Some (Plain "1")), snd r)
  /\ Redis.ttl_of (snd r) (Redis._prefix_key ("job_cancel:" +:+ J)) = Some 900
  /\ forall key', key' <> ("job_cancel:" +:+ J) ->
       Redis.get key' (snd r) = (fst (Redis.get key' fresh_world), snd r).
Proof.
  apply (redis_set_then_get ("job_cancel:" +:+ J) (Plain "1") (Some 900) fresh_world). reflexivity.
Defined.

(** X9. Deleting through the wrapper: when the broker answers, [delete]
    reports whether the key was there, a [get] of the key then returns
    [None], and a second [delete] returns [False] and changes nothing. *)
Theorem redis_delete_then_get :
  forall (key : string) (w : World),
    faults w = [] ->
    let r := Redis.delete key w in
    fst r = Ok (match kv w !! Redis._prefix_key key with Some _ => true | None => false end)
    /\ Redis.get key (snd r) = (Ok None, snd r)
    /\ Redis.delete key (snd r) = (Ok false, snd r).
Proof.
  intros key w Hf r.
  assert (Hr : r = (Ok (match kv w !! Redis._prefix_key key with Some _ => true | None => false end),
                    set_kv (delete (Redis._prefix_key key) (kv w)) w)).
  { unfold r, Redis.delete, try_except, bind, Redis.raw_delete.
    rewrite io_no_fault by exact Hf. cbn.
    now destruct (kv w !! Redis._prefix_key key). }
  rewrite Hr. cbn [fst snd].
  split; [reflexivity |].
  split. { rewrite redis_get_no_fault by exact Hf. cbn. now rewrite lookup_delete_eq. }
  unfold Redis.delete, try_except, bind, Redis.raw_delete.
  rewrite io_no_fault by exact Hf. cbn.
  rewrite lookup_delete_eq, delete_delete_eq. reflexivity.
Qed.

Lemma redis_delete_then_get_witness :
  let r := Redis.delete ("job_cancel:" +:+ J) cancelled_world in
  fst r = Ok (match kv cancelled_world !! Redis._prefix_key ("job_cancel:" +:+ J) with
              | Some _ => true | None => false end)
  /\ Redis.get ("job_cancel:" +:+ J) (snd r) = (Ok None, snd r)
  /\ Redis.delete ("job_cancel:" +:+ J) (snd r) = (Ok false, snd r).
Proof.
  apply (redis_delete_then_get ("job_cancel:" +:+ J) cancelled_world). reflexivity.
Defined.

(** ** The worker *)

Lemma process_job_complete cfg env jd job_id :
  payload_complete jd = true -> Worker.jd_job_id jd = Some job_id ->
  Worker.process_job cfg env jd
  = try_except
      (flag <- Redis.get ("job_cancel:" +:+ job_id) ;;
       if truthy_val flag then
         log ;; Store.update_job job_id Worker.cancelled_patch
       else
         Orchestrator.execute_pipeline cfg env job_id
           (default "" (Worker.jd_audio_url jd)) (default "" (Worker.jd_user_prompt jd)) ;;
         log)
      (fun e =>
         if is_BudgetExceededError e || is_PipelineError e then log
         else if is_RetryableError e then log ;; raise e
         else
           log ;;
           Store.update_job job_id
             (failed_patch ("Unexpected error: " +:+ str e))).
Proof.
  intros Hc Hj. unfold Worker.process_job. unfold payload_complete in Hc.
  rewrite Hc, Hj. reflexivity.
Qed.

(** A payload that lacks one of its four fields is dropped: the worker
    returns without a call to the store or the broker, so the job keeps the
    status it had. *)
Lemma worker_drops_incomplete_payload :
  forall (cfg : Settings) (env : Collaborators) (job_data : Worker.JobData) (w : World),
    payload_complete job_data = false ->
    Worker.process_job cfg env job_data w = (Ok tt, w).
Proof.
  intros cfg env jd w Hc. unfold Worker.process_job. unfold payload_complete in Hc.
  now rewrite Hc.
Qed.

(** X10. A pipeline error never leaves the worker: whenever the run raises
    an exception of the [PipelineError] family, [RetryableError] included,
    [process_job] returns normally and writes nothing more, so the clause
    that re-raises retryable errors for the queue is never taken. *)
Theorem worker_absorbs_pipeline_errors :
  forall (cfg : Settings) (env : Collaborators) (job_data : Worker.JobData)
         (job_id : string) (w : World) (flag : option StrVal) (w1 : World)
         (e : Exn) (w2 : World),
    payload_complete job_data = true ->
    Worker.jd_job_id job_data = Some job_id ->
    Redis.get ("job_cancel:" +:+ job_id) w = (Ok flag, w1) ->
    truthy_val flag = false ->
    Orchestrator.execute_pipeline cfg env job_id
      (default "" (Worker.jd_audio_url job_data))
      (default "" (Worker.jd_user_prompt job_data)) w1 = (Raise e, w2) ->
    is_PipelineError e = true ->
    Worker.process_job cfg env job_data w = (Ok tt, w2).
Proof.
  intros cfg env jd job_id w flag w1 e w2 Hc Hj Hg Hflag Hrun He.
  rewrite (process_job_complete cfg env jd job_id Hc Hj).
  unfold try_except, bind. rewrite Hg, Hflag, Hrun, He.
  now rewrite orb_true_r.
Qed.

(** X11. When the broker fails at the worker's cancellation check, the job
    is dropped: the wrapper turns the failure into a [RetryableError], which
    the worker absorbs like any pipeline error; nothing is written and no
    event is published, so the job keeps the status it had. *)
Theorem worker_drops_job_when_marker_read_fails :
  forall (cfg : Settings) (env : Collaborators) (job_data : Worker.JobData)
         (job_id : string) (w : World) (e : Exn) (w' : World),
    payload_complete job_data = true ->
    Worker.jd_job_id job_data = Some job_id ->
    Redis.raw_get (cancel_marker_key job_id) w = (Raise e, w') ->
    Worker.process_job cfg env job_data w = (Ok tt, w')
    /\ jobs w' = jobs w /\ trace w' = trace w.
Proof.
  intros cfg env jd job_id w e w' Hc Hj Hg.
  rewrite (process_job_complete cfg env jd job_id Hc Hj).
  unfold try_except, bind, Redis.get, try_except.
  unfold cancel_marker_key in Hg. rewrite Hg. cbn.
  split; [reflexivity |].
  destruct (raw_get_frame _ _ _ _ Hg) as (H1 & H2 & _). auto.
Qed.

(** X12. A job whose cancellation marker is set when the worker takes it is
    marked failed with the message of a cancellation and nothing else
    happens: the pipeline is not started, no stage is invoked and, unlike a
    cancellation found by the orchestrator, no [error] event is published. *)
Theorem worker_marks_cancelled_job_failed :
  forall (cfg : Settings) (env : Collaborators) (job_data : Worker.JobData)
         (job_id : string) (w : World) (v : StrVal) (t : option Z),
    payload_complete job_data = true ->
    Worker.jd_job_id job_data = Some job_id ->
    faults w = [] ->
    kv w !! cancel_marker_key job_id = Some (mkEntry (RStr v) t) ->
    truthy_val (Some v) = true ->
    exists w',
      Worker.process_job cfg env job_data w = (Ok tt, w')
      /\ jobs w' = patch_rows job_id (failed_patch "Job cancelled by user") (jobs w)
      /\ trace w' = (trace w ++ [JobUpdate job_id (failed_patch "Job cancelled by user")])%list
      /\ kv w' = kv w.
Proof.
  intros cfg env jd job_id w v t Hc Hj Hf Hm Hv.
  rewrite (process_job_complete cfg env jd job_id Hc Hj).
  unfold try_except, bind.
  rewrite redis_get_no_fault by exact Hf.
  unfold cancel_marker_key in Hm. rewrite Hm, Hv. cbn.
  unfold Store.update_job. rewrite io_no_fault by exact Hf. cbn.
  eexists. split; [reflexivity |]. cbn. auto.
Qed.

Lemma worker_absorbs_pipeline_errors_witness :
  let w1 := snd (Redis.get ("job_cancel:" +:+ J) (world_failing_at 16)) in
  let run := Orchestrator.execute_pipeline production working_env J audio_in prompt_in w1 in
  fst run
  = Raise (RetryableError
             "Failed to check budget: Failed to get total cost: Connection refused" None)
  /\ Worker.process_job production working_env job_data (world_failing_at 16)
     = (Ok tt, snd run).
Proof.
  split; [vm_compute; reflexivity |].
  apply (worker_absorbs_pipeline_errors production working_env job_data J
           (world_failing_at 16) None
           (snd (Redis.get ("job_cancel:" +:+ J) (world_failing_at 16)))
           (RetryableError
              "Failed to check budget: Failed to get total cost: Connection refused" None));
    vm_compute; reflexivity.
Defined.

Lemma worker_drops_job_when_marker_read_fails_witness :
  Worker.process_job production working_env job_data world_with_outage
  = (Ok tt, set_faults [] world_with_outage)
  /\ jobs (set_faults [] world_with_outage) = jobs world_with_outage
  /\ trace (set_faults [] world_with_outage) = trace world_with_outage.
Proof.
  apply (worker_drops_job_when_marker_read_fails production working_env job_data J
           world_with_outage outage); reflexivity.
Defined.

Lemma worker_marks_cancelled_job_failed_witness :
  exists w',
    Worker.process_job production working_env job_data cancelled_world = (Ok tt, w')
    /\ jobs w' = patch_rows J (failed_patch "Job cancelled by user") (jobs cancelled_world)
    /\ trace w'
       = (trace cancelled_world ++ [JobUpdate J (failed_patch "Job cancelled by user")])%list
    /\ kv w' = kv cancelled_world.
Proof.
  apply (worker_marks_cancelled_job_failed production working_env job_data J
           cancelled_world (Plain "1") (Some 900)); reflexivity.
Defined.

(** *** How a run begins *)

Lemma begins_of_only {A} K (m : M A) w : only K m -> begins_with m w [].
Proof. intros H. destruct (H w) as (t & Ht & _). now exists t. Qed.

Lemma begins_bind_first {A B} K (m : M A) (k : A -> M B) w l :
  begins_with m w l -> (forall a, only K (k a)) -> begins_with (bind m k) w l.
Proof.
  intros [t Ht] Hk. unfold begins_with, bind.
  destruct (m w) as [[a | e] w1]; cbn in Ht.
  - destruct (Hk a w1) as (t2 & Ht2 & _). exists (t ++ t2)%list.
    rewrite Ht2, Ht. now rewrite <- !app_assoc.
  - now exists t.
Qed.

Lemma begins_bind_after {A B} (m : M A) (k : A -> M B) w a w1 l1 l2 :
  m w = (Ok a, w1) -> trace w1 = (trace w ++ l1)%list ->
  begins_with (k a) w1 l2 -> begins_with (bind m k) w (l1 ++ l2).
Proof.
  intros Hm Ht [t Hk]. unfold begins_with, bind. rewrite Hm.
  exists t. rewrite Hk, Ht. now rewrite <- !app_assoc.
Qed.

Lemma begins_try_except {A} K (m : M A) (h : Exn -> M A) w l :
  begins_with m w l -> (forall e, only K (h e)) -> begins_with (try_except m h) w l.
Proof.
  intros [t Ht] Hh. unfold begins_with, try_except.
  destruct (m w) as [[a | e] w1]; cbn in Ht.
  - now exists t.
  - destruct (Hh e w1) as (t2 & Ht2 & _). exists (t ++ t2)%list.
    rewrite Ht2, Ht. now rewrite <- !app_assoc.
Qed.

Lemma begins_andthen_first {A B} K (m : M (option A)) (k : A -> M (option B)) w l :
  begins_with m w l -> (forall a, only K (k a)) -> begins_with (Orchestrator.andthen m k) w l.
Proof.
  intros Hm Hk. apply (begins_bind_first K); [exact Hm |].
  intros [a |]; [apply Hk | apply only_ret].
Qed.

Section AnyAction.

Variable cfg : Settings.
Variable env : Collaborators.
Variables job_id audio_url user_prompt : string.

Lemma stage1_any : only any_action (Orchestrator.stage1 env job_id audio_url).
Proof. unfold Orchestrator.stage1. only_auto. Qed.

Lemma stage2_any a : only any_action (Orchestrator.stage2 env job_id user_prompt a).
Proof. unfold Orchestrator.stage2. only_auto. Qed.

Lemma stage3_any p : only any_action (Orchestrator.stage3 cfg env job_id p).
Proof. unfold Orchestrator.stage3. only_auto. Qed.

Lemma stage4_any p r : only any_action (Orchestrator.stage4 env job_id p r).
Proof. unfold Orchestrator.stage4. only_auto. Qed.

Lemma stage5_any c : only any_action (Orchestrator.stage5 cfg env job_id c).
Proof.
  unfold Orchestrator.stage5, Orchestrator.andthen, Orchestrator.stage5_generate,
    Orchestrator.stage5_validate.
  only_auto.
Qed.

Lemma stage6_any a p c : only any_action (Orchestrator.stage6 env job_id audio_url a p c).
Proof. unfold Orchestrator.stage6. only_auto. Qed.

Lemma on_error_any e : only any_action (Orchestrator.on_error job_id e).
Proof. unfold Orchestrator.on_error. only_auto. Qed.

(** With the store and the broker answering and no cancellation marker, a
    run first writes [status=processing] and announces the first stage. *)
Lemma execute_pipeline_begins w :
  faults w = [] ->
  begins_with (Orchestrator.execute_pipeline cfg env job_id audio_url user_prompt) w
    [JobUpdate job_id processing_patch;
     Publish (channel_of job_id) "stage_update" (StageStarted "audio_parser")].
Proof.
  intros Hf. unfold Orchestrator.execute_pipeline.
  apply (begins_try_except any_action); [| apply on_error_any].
  apply (begins_bind_first any_action); [| intros; apply only_ret].
  unfold Orchestrator.pipeline_body.
  apply (begins_andthen_first any_action).
  2:{ intros apc. unfold Orchestrator.andthen.
      apply only_bind; [apply stage5_any |].
      intros [c |]; [apply stage6_any | apply only_ret]. }
  unfold Orchestrator.through_stage4.
  apply (begins_andthen_first any_action).
  2:{ intros ap. unfold Orchestrator.andthen.
      apply only_bind; [apply stage3_any |].
      intros [r |]; [| apply only_ret].
      apply only_bind; [apply stage4_any |].
      intros [c |]; apply only_ret. }
  unfold Orchestrator.through_stage2.
  change [JobUpdate job_id processing_patch;
          Publish (channel_of job_id) "stage_update" (StageStarted "audio_parser")]
    with ([JobUpdate job_id processing_patch]
          ++ [Publish (channel_of job_id) "stage_update" (StageStarted "audio_parser")])%list.
  eapply begins_bind_after.
  - unfold Orchestrator.set_processing, Store.update_job.
    rewrite io_no_fault by exact Hf. reflexivity.
  - reflexivity.
  - apply (begins_andthen_first any_action).
    2:{ intros a. unfold Orchestrator.andthen.
        apply only_bind; [apply stage2_any |].
        intros [p |]; apply only_ret. }
    unfold Orchestrator.stage1.
    apply (begins_bind_first any_action).
    + unfold begins_with. rewrite publish_event_no_fault by exact Hf.
      exists []. reflexivity.
    + intros _. fold (Orchestrator.stage1 env job_id audio_url).
      apply only_bind; [apply only_check_cancellation |].
      intros [|]; only_auto.
Qed.

End AnyAction.
Lemma verify_job_ownership_no_fault job_id user w job rest :
  faults w = [] ->
  List.filter (fun j => String.eqb (id j) job_id) (jobs w) = job :: rest ->
  user_id job = user ->
  Routes.verify_job_ownership job_id user w = (Ok job, w).
Proof.
  intros Hf Hrows Hu. unfold Routes.verify_job_ownership, try_except, bind, Store.select_job.
  rewrite io_no_fault by exact Hf. rewrite Hrows, Hu, String.eqb_refl. reflexivity.
Qed.

Lemma cancel_job_queued_no_fault job_id user w job rest :
  faults w = [] ->
  List.filter (fun j => String.eqb (id j) job_id) (jobs w) = job :: rest ->
  user_id job = user -> status job = "queued" ->
  Routes.cancel_job job_id user w
  = (Ok (Routes.mkCancel job_id "failed" "Job cancelled by user"),
     set_kv (delete ("job_status:" +:+ job_id) (delete (payload_key job_id) (kv w)))
       (emit (JobUpdate job_id Worker.cancelled_patch)
          (set_jobs (patch_rows job_id Worker.cancelled_patch (jobs w)) w))).
Proof.
  intros Hf Hrows Hu Hs. unfold Routes.cancel_job.
  erewrite bind_ok by (eapply verify_job_ownership_no_fault; eauto).
  rewrite Hs. cbn [String.eqb Ascii.eqb Bool.eqb negb orb].
  unfold try_except, bind, remove_job, try_except, bind, Redis.raw_delete, Store.update_job,
    log, ret.
  rewrite io_no_fault by exact Hf. cbn.
  rewrite io_no_fault by exact Hf. cbn.
  rewrite io_no_fault by exact Hf. cbn.
  reflexivity.
Qed.

(** X13. Cancelling a job that is still queued does not keep the worker from
    running it: the cancellation writes [status=failed] and deletes the
    payload key, but sets no cancellation marker, so when the worker takes
    the job its check finds nothing and the run starts, overwriting the
    status with [processing] and announcing the first stage. *)
Theorem cancelled_queued_job_is_still_run :
  forall (cfg : Settings) (env : Collaborators) (job_data : Worker.JobData)
         (job_id user : string) (w : World) (job : JobRow) (rest : list JobRow),
    faults w = [] ->
    List.filter (fun j => String.eqb (id j) job_id) (jobs w) = job :: rest ->
    user_id job = user -> status job = "queued" ->
    kv w !! cancel_marker_key job_id = None ->
    payload_complete job_data = true ->
    Worker.jd_job_id job_data = Some job_id ->
    let w1 := snd (Routes.cancel_job job_id user w) in
    fst (Routes.cancel_job job_id user w)
      = Ok (Routes.mkCancel job_id "failed" "Job cancelled by user")
    /\ jobs w1 = patch_rows job_id (failed_patch "Job cancelled by user") (jobs w)
    /\ kv w1 !! cancel_marker_key job_id = None
    /\ begins_with (Worker.process_job cfg env job_data) w1
         [JobUpdate job_id processing_patch;
          Publish (channel_of job_id) "stage_update" (StageStarted "audio_parser")].
Proof.
  intros cfg env jd job_id user w job rest Hf Hrows Hu Hs Hm Hc Hj w1.
  unfold w1. rewrite (cancel_job_queued_no_fault job_id user w job rest Hf Hrows Hu Hs).
  cbn [fst snd].
  split; [reflexivity |]. split; [reflexivity |].
  assert (Hm1 : delete ("job_status:" +:+ job_id) (delete (payload_key job_id) (kv w))
                  !! cancel_marker_key job_id = None).
  { rewrite lookup_delete_ne by (cbn; discriminate).
    rewrite lookup_delete_ne by (cbn; discriminate). exact Hm. }
  split; [exact Hm1 |].
  rewrite (process_job_complete cfg env jd job_id Hc Hj).
  apply (begins_try_except any_action).
  2:{ intros e. destruct (_ || _); [apply only_ret |].
      destruct (is_RetryableError e); only_auto. }
  change [JobUpdate job_id processing_patch;
          Publish (channel_of job_id) "stage_update" (StageStarted "audio_parser")]
    with ([] ++ [JobUpdate job_id processing_patch;
                 Publish (channel_of job_id) "stage_update" (StageStarted "audio_parser")])%list.
  eapply begins_bind_after.
  - rewrite redis_get_no_fault by exact Hf. cbn [kv set_kv].
    unfold cancel_marker_key in Hm1. rewrite Hm1. reflexivity.
  - now rewrite app_nil_r.
  - cbn [truthy_val].
    apply (begins_bind_first any_action); [| intros; apply only_ret].
    apply execute_pipeline_begins. exact Hf.
Qed.

Lemma cancelled_queued_job_is_still_run_witness :
  let w1 := snd (Routes.cancel_job J "u" queued_world) in
  (fst (Routes.cancel_job J "u" queued_world)
     = Ok (Routes.mkCancel J "failed" "Job cancelled by user")
   /\ jobs w1 = patch_rows J (failed_patch "Job cancelled by user") (jobs queued_world)
   /\ kv w1 !! cancel_marker_key J = None
   /\ begins_with (Worker.process_job production working_env job_data) w1
        [JobUpdate J processing_patch;
         Publish (channel_of J) "stage_update" (StageStarted "audio_parser")])
  /\ List.map status (jobs w1) = ["failed"]
  /\ List.map status (jobs (snd (Worker.process_job production working_env job_data w1)))
     = ["completed"].
Proof.
  split; [| split; vm_compute; reflexivity].
  apply (cancelled_queued_job_is_still_run production working_env job_data J "u"
           queued_world queued_job []); reflexivity.
Defined.

(** ** The orchestrator: cancellation, fallback and overshoot *)

Lemma check_cancellation_marked job_id w v t :
  faults w = [] -> kv w !! cancel_marker_key job_id = Some (mkEntry (RStr v) t) ->
  check_cancellation job_id w = (Ok true, w).
Proof.
  intros Hf Hm. unfold check_cancellation, try_except, bind.
  rewrite redis_get_no_fault by exact Hf.
  unfold cancel_marker_key in Hm. now rewrite Hm.
Qed.

Lemma stage_stops_at_marker {A} job_id st (rest : M (option A)) w v t :
  faults w = [] -> kv w !! cancel_marker_key job_id = Some (mkEntry (RStr v) t) ->
  stopped_at job_id st w
    ((publish_event job_id "stage_update" (StageStarted st) ;;
      cancelled <- check_cancellation job_id ;;
      if cancelled then
        handle_pipeline_error job_id Orchestrator.cancelled_by_user ;; ret None
      else rest) w).
Proof.
  intros Hf Hm. unfold bind at 1.
  rewrite publish_event_no_fault by exact Hf.
  unfold bind at 1.
  rewrite (check_cancellation_marked job_id _ v t) by (cbn; assumption).
  destruct (handle_pipeline_error_no_fault job_id Orchestrator.cancelled_by_user
              (emit (Publish (channel_of job_id) "stage_update" (StageStarted st)) w))
    as (w' & Hh & Hj & Ht & _); [exact Hf |].
  unfold bind. rewrite Hh. unfold stopped_at. cbn [fst snd ret].
  split; [reflexivity |]. split; [exact Hj |].
  rewrite Ht. cbn. now rewrite <- app_assoc.
Qed.

(** X14. A cancellation marker found at a checkpoint stops the run there.
    Each of the six stages, started with the store and the broker answering
    and the marker of the job set (whatever its value), announces itself,
    marks the job failed with [Job cancelled by user], publishes the [error]
    event (no code, not retryable) and returns without invoking its
    collaborator; and a run that finds the marker at its first checkpoint
    returns normally after just that. *)
Theorem cancellation_stops_every_stage :
  forall (cfg : Settings) (env : Collaborators) (job_id audio_url user_prompt : string)
         (w : World) (v : StrVal) (t : option Z)
         (audio : AudioAnalysis) (plan : ScenePlan) (refs : option References)
         (prompts : ClipPrompts) (clips : Clips),
    faults w = [] ->
    kv w !! cancel_marker_key job_id = Some (mkEntry (RStr v) t) ->
    stopped_at job_id "audio_parser" w (Orchestrator.stage1 env job_id audio_url w)
    /\ stopped_at job_id "scene_planner" w (Orchestrator.stage2 env job_id user_prompt audio w)
    /\ stopped_at job_id "reference_generator" w (Orchestrator.stage3 cfg env job_id plan w)
    /\ stopped_at job_id "prompt_generator" w (Orchestrator.stage4 env job_id plan refs w)
    /\ stopped_at job_id "video_generator" w (Orchestrator.stage5 cfg env job_id prompts w)
    /\ stopped_at job_id "composer" w
         (Orchestrator.stage6 env job_id audio_url audio plan clips w)
    /\ exists w',
         Orchestrator.execute_pipeline cfg env job_id audio_url user_prompt w = (Ok tt, w')
         /\ trace w'
            = (trace w ++
               [JobUpdate job_id processing_patch;
                Publish (channel_of job_id) "stage_update" (StageStarted "audio_parser");
                JobUpdate job_id (failed_patch "Job cancelled by user");
                Publish (channel_of job_id) "error"
                        (ErrorData "Job cancelled by user" None false)])%list.
Proof.
  intros cfg env job_id audio_url user_prompt w v t audio plan refs prompts clips Hf Hm.
  repeat split; try (eapply stage_stops_at_marker; eassumption).
  - (* stage 5 is written in two parts *)
    unfold Orchestrator.stage5, Orchestrator.andthen, Orchestrator.stage5_generate.
    pose proof (stage_stops_at_marker job_id "video_generator"
                  (Orchestrator.precheck_budget cfg job_id 10000 "video generation" ;;
                   clips0 <- Orchestrator.call_or_stub job_id "video_generator"
                               (generate_videos env job_id prompts)
                               (Orchestrator.build (stub_failure env "video_generator")
                                                   Orchestrator.stub_clips) ;;
                   ret (Some clips0)) w v t Hf Hm) as H.
    unfold bind at 1. destruct H as [H _]. 
    match type of H with fst (?m w) = _ => destruct (m w) as [r w'] end.
    cbn in H. subst r. reflexivity.
  - unfold Orchestrator.stage5, Orchestrator.andthen, Orchestrator.stage5_generate.
    pose proof (stage_stops_at_marker job_id "video_generator"
                  (Orchestrator.precheck_budget cfg job_id 10000 "video generation" ;;
                   clips0 <- Orchestrator.call_or_stub job_id "video_generator"
                               (generate_videos env job_id prompts)
                               (Orchestrator.build (stub_failure env "video_generator")
                                                   Orchestrator.stub_clips) ;;
                   ret (Some clips0)) w v t Hf Hm) as H.
    unfold bind at 1. destruct H as (H & H2 & _).
    match type of H with fst (?m w) = _ => destruct (m w) as [r w'] end.
    cbn in H. subst r. exact H2.
  - unfold Orchestrator.stage5, Orchestrator.andthen, Orchestrator.stage5_generate.
    pose proof (stage_stops_at_marker job_id "video_generator"
                  (Orchestrator.precheck_budget cfg job_id 10000 "video generation" ;;
                   clips0 <- Orchestrator.call_or_stub job_id "video_generator"
                               (generate_videos env job_id prompts)
                               (Orchestrator.build (stub_failure env "video_generator")
                                                   Orchestrator.stub_clips) ;;
                   ret (Some clips0)) w v t Hf Hm) as H.
    unfold bind at 1. destruct H as (H & _ & H3).
    match type of H with fst (?m w) = _ => destruct (m w) as [r w'] end.
    cbn in H. subst r. exact H3.
  - (* the run *)
    set (w1 := emit (JobUpdate job_id processing_patch)
                 (set_jobs (patch_rows job_id processing_patch (jobs w)) w)).
    assert (Hs : Orchestrator.set_processing job_id w = (Ok tt, w1)).
    { unfold Orchestrator.set_processing, Store.update_job.
      now rewrite io_no_fault by exact Hf. }
    destruct (stage_stops_at_marker job_id "audio_parser"
                (audio_data <- Orchestrator.call_or_stub job_id "audio_parser"
                                 (parse_audio env job_id audio_url)
                                 (Orchestrator.build (stub_failure env "audio_parser")
                                                     Orchestrator.stub_audio) ;;
                 update_progress job_id 10 "audio_parser" ;;
                 publish_event job_id "stage_update"
                   (StageCompleted "audio_parser" (Some (Orchestrator.last_beat audio_data))) ;;
                 ret (Some audio_data)) w1 v t Hf Hm) as (H1 & _ & H3).
    fold (Orchestrator.stage1 env job_id audio_url) in H1, H3.
    destruct (Orchestrator.stage1 env job_id audio_url w1) as [r w2] eqn:E1.
    cbn in H1, H3. subst r.
    exists w2. split.
    + unfold Orchestrator.execute_pipeline, Orchestrator.pipeline_body,
        Orchestrator.through_stage4, Orchestrator.through_stage2, Orchestrator.andthen,
        try_except, bind.
      rewrite Hs, E1. reflexivity.
    + rewrite H3. unfold w1. cbn. now rewrite <- app_assoc.
Qed.

Lemma cancellation_stops_every_stage_witness :
  let w := cancelled_world in
  stopped_at J "audio_parser" w (Orchestrator.stage1 working_env J audio_in w)
  /\ stopped_at J "scene_planner" w
       (Orchestrator.stage2 working_env J prompt_in Orchestrator.stub_audio w)
  /\ stopped_at J "reference_generator" w
       (Orchestrator.stage3 production working_env J Orchestrator.stub_plan w)
  /\ stopped_at J "prompt_generator" w
       (Orchestrator.stage4 working_env J Orchestrator.stub_plan None w)
  /\ stopped_at J "video_generator" w
       (Orchestrator.stage5 production working_env J Orchestrator.stub_prompts w)
  /\ stopped_at J "composer" w
       (Orchestrator.stage6 working_env J audio_in Orchestrator.stub_audio
          Orchestrator.stub_plan three_clips w)
  /\ exists w',
       Orchestrator.execute_pipeline production working_env J audio_in prompt_in w
         = (Ok tt, w')
       /\ trace w'
          = (trace w ++
             [JobUpdate J processing_patch;
              Publish (channel_of J) "stage_update" (StageStarted "audio_parser");
              JobUpdate J (failed_patch "Job cancelled by user");
              Publish (channel_of J) "error"
                      (ErrorData "Job cancelled by user" None false)])%list.
Proof.
  apply (cancellation_stops_every_stage production working_env J audio_in prompt_in
           cancelled_world (Plain "1") (Some 900) Orchestrator.stub_audio
           Orchestrator.stub_plan None Orchestrator.stub_prompts three_clips);
    reflexivity.
Defined.

Lemma progress_writes_app a b :
  progress_writes (a ++ b) = (progress_writes a ++ progress_writes b)%list.
Proof.
  induction a as [| [j p | | |] a IH]; cbn; auto.
  destruct (p_progress p); cbn; now rewrite IH.
Qed.

Lemma update_progress_no_fault job_id v st w :
  faults w = [] ->
  exists w',
    update_progress job_id v st w = (Ok tt, w')
    /\ faults w' = []
    /\ jobs w' = patch_rows job_id (mkPatch None (Some v) (Some st) None None None) (jobs w)
    /\ job_stages w' = job_stages w
    /\ kv w' = delete ("job_status:" +:+ job_id) (kv w)
    /\ exists t,
         trace w' = (trace w ++ t)%list
         /\ progress_writes t = [v]
         /\ List.filter is_error_event t = []
         /\ List.filter is_failed_write t = [].
Proof.
  intros Hf. unfold update_progress, try_except, bind, Store.update_job, Redis.raw_delete.
  rewrite io_no_fault by exact Hf. cbn.
  rewrite io_no_fault by exact Hf. cbn.
  rewrite publish_event_no_fault by exact Hf.
  unfold broadcast_event, get_connections. cbn.
  destruct (default [] (connections w !! job_id)) as [| q qs]; cbn.
  - eexists. split; [reflexivity |]. cbn.
    split; [exact Hf |]. split; [reflexivity |]. split; [reflexivity |].
    split; [reflexivity |].
    eexists. split; [rewrite <- app_assoc; reflexivity |]. cbn. auto.
  - eexists. split; [reflexivity |]. cbn.
    split; [exact Hf |]. split; [reflexivity |]. split; [reflexivity |].
    split; [reflexivity |].
    eexists. split; [rewrite <- !app_assoc; reflexivity |]. cbn. auto.
Qed.

(** X15. The reference stage degrades instead of failing.  When, for a
    job with a well-formed identifier, the reference generator raises
    anything but an import error (with the store and the broker answering,
    no cancellation marker and the budget checks passing), the stage
    records a row in [job_stages] with status [failed], the fallback flag
    set and [str] of the error as the reason, writes progress 30 and
    returns no references, so that the run goes on in text-only mode. *)
Theorem reference_failure_is_degraded :
  forall (cfg : Settings) (env : Collaborators) (job_id : string) (plan : ScenePlan)
         (w : World) (e : Exn) (w2 : World),
    is_uuid job_id = true ->
    faults w = [] ->
    kv w !! cancel_marker_key job_id = None ->
    current_total job_id w + 5000 <= get_budget_limit (environment cfg) ->
    call job_id "reference_generator" (generate_references env job_id plan)
         (emit (Publish (channel_of job_id) "stage_update"
                        (StageStarted "reference_generator")) w)
      = (Raise e, w2) ->
    is_ImportError e = false ->
    faults w2 = [] ->
    current_total job_id w2 <= get_budget_limit (environment cfg) ->
    exists w3 t,
      Orchestrator.stage3 cfg env job_id plan w = (Ok (Some None), w3)
      /\ job_stages w3
         = (job_stages w2 ++ [mkStage job_id "reference_generator" "failed" true (str e)])%list
      /\ trace w3 = (trace w2 ++ t)%list
      /\ progress_writes t = [30]
      /\ List.filter is_failed_write t = []
      /\ List.filter is_error_event t = [].
Proof.
  intros cfg env job_id plan w e w2 Huuid Hf Hm Hb Hcall He Hf2 Hb2.
  unfold Orchestrator.stage3.
  unfold bind at 1. rewrite publish_event_no_fault by exact Hf.
  set (w1 := emit (Publish (channel_of job_id) "stage_update"
                     (StageStarted "reference_generator")) w) in *.
  assert (Hf1 : faults w1 = []) by exact Hf.
  unfold bind at 1. rewrite check_cancellation_clear by assumption.
  unfold bind at 1. rewrite precheck_budget_within by assumption.
  unfold bind at 1.
  assert (Hr : try_except
                 (r <- call job_id "reference_generator" (generate_references env job_id plan) ;;
                  ret (Some r))
                 (fun e0 =>
                    if is_ImportError e0 then log ;; ret None
                    else
                      log ;;
                      Store.insert_stage
                        (mkStage job_id "reference_generator" "failed" true (str e0)) ;;
                      ret None) w1
               = (Ok None,
                  set_job_stages
                    (job_stages w2 ++ [mkStage job_id "reference_generator" "failed" true (str e)])
                    w2)).
  { unfold try_except, bind at 1. rewrite Hcall, He.
    unfold bind, log, ret, Store.insert_stage. now rewrite io_no_fault by exact Hf2. }
  rewrite Hr.
  set (w2' := set_job_stages _ w2).
  destruct (update_progress_no_fault job_id 30 "reference_generator" w2' Hf2)
    as (w3 & Hu & Hf3 & Hj3 & Hs3 & _ & t & Ht & Hp & Herr & Hfw).
  unfold bind at 1. rewrite Hu.
  unfold bind at 1. rewrite publish_event_no_fault by exact Hf3.
  assert (Htot : current_total job_id
                   (emit (Publish (channel_of job_id) "stage_update"
                            (StageCompleted "reference_generator" None)) w3)
                 = current_total job_id w2).
  { unfold current_total.
    change (jobs (emit (Publish (channel_of job_id) "stage_update"
                          (StageCompleted "reference_generator" None)) w3))
      with (jobs w3).
    rewrite Hj3. change (jobs w2') with (jobs w2).
    rewrite filter_patch_rows. destruct (List.filter _ (jobs w2)); reflexivity. }
  unfold bind at 1.
  rewrite enforce_budget_within; [| exact Huuid | exact Hf3 | rewrite Htot; exact Hb2].
  cbn.
  eexists. exists (t ++ [Publish (channel_of job_id) "stage_update"
                           (StageCompleted "reference_generator" None)])%list.
  split; [reflexivity |]. cbn.
  split; [exact Hs3 |].
  split; [rewrite Ht; unfold w2'; cbn; now rewrite <- app_assoc |].
  rewrite progress_writes_app, Hp, !List.filter_app, Herr, Hfw. cbn. auto.
Qed.

Lemma reference_failure_is_degraded_witness :
  let w1 := emit (Publish (channel_of J) "stage_update"
                    (StageStarted "reference_generator")) fresh_world in
  let w2 := emit (Invoke "reference_generator") w1 in
  exists w3 t,
    Orchestrator.stage3 development degraded_env J Orchestrator.stub_plan fresh_world
      = (Ok (Some None), w3)
    /\ job_stages w3
       = (job_stages w2 ++ [mkStage J "reference_generator" "failed" true (str crash)])%list
    /\ trace w3 = (trace w2 ++ t)%list
    /\ progress_writes t = [30]
    /\ List.filter is_failed_write t = []
    /\ List.filter is_error_event t = [].
Proof.
  apply (reference_failure_is_degraded development degraded_env J Orchestrator.stub_plan
           fresh_world crash);
    first [reflexivity | cbn; lia].
Defined.

(** A stage that got past its budget check runs for a job with a
    well-formed identifier. *)
Lemma stage5_generate_well_formed cfg env job_id prompts w clips w' :
  Orchestrator.stage5_generate cfg env job_id prompts w = (Ok (Some clips), w') ->
  is_uuid job_id = true.
Proof.
  intros H. destruct (is_uuid job_id) eqn:Hu; [reflexivity | exfalso].
  unfold Orchestrator.stage5_generate, bind in H.
  destruct (publish_event _ _ _ w) as [[[] | e] w1]; [| discriminate].
  destruct (check_cancellation job_id w1) as [[[|] | e] w2]; [| | discriminate].
  - destruct (handle_pipeline_error _ _ w2) as [[[] | e] w3]; discriminate.
  - rewrite precheck_budget_malformed in H by exact Hu. discriminate.
Qed.

(** X16. A stage that charges more than the estimate overshoots the budget,
    and the overshoot is reported twice.  When the clip generator returns at
    least three clips and leaves the total above the limit (the store and
    the broker answering), the run still writes progress 85, then raises the
    budget error of the ledger with code [BUDGET_EXCEEDED]; the job is
    marked failed once, but the [error] event is published twice with the
    same content: once by the enforcement, once by the error handler. *)
Theorem budget_overshoot_is_reported_twice :
  forall (cfg : Settings) (env : Collaborators) (job_id audio_url user_prompt : string)
         (w0 : World) apc (w1 : World) (clips : Clips) (w2 : World),
    Orchestrator.through_stage4 cfg env job_id audio_url user_prompt w0
      = (Ok (Some apc), w1) ->
    Orchestrator.stage5_generate cfg env job_id (snd apc) w1 = (Ok (Some clips), w2) ->
    (3 <= length clips)%nat ->
    faults w2 = [] ->
    get_budget_limit (environment cfg) < current_total job_id w2 ->
    exists msg w3 t,
      Orchestrator.execute_pipeline cfg env job_id audio_url user_prompt w0
        = (Raise (BudgetExceededError msg (Some "BUDGET_EXCEEDED")), w3)
      /\ trace w3 = (trace w2 ++ t)%list
      /\ progress_writes t = [85]
      /\ List.filter is_failed_write t = [JobUpdate job_id (failed_patch msg)]
      /\ List.filter is_error_event t
         = [Publish (channel_of job_id) "error" (ErrorData msg (Some "BUDGET_EXCEEDED") false);
            Publish (channel_of job_id) "error" (ErrorData msg (Some "BUDGET_EXCEEDED") false)].
Proof.
  intros cfg env job_id audio_url user_prompt w0 apc w1 clips w2 H4 H5 Hlen Hf Hover.
  destruct (update_progress_no_fault job_id 85 "video_generator" w2 Hf)
    as (w3 & Hu & Hf3 & Hj3 & _ & _ & t & Ht & Hp & Herr & Hfw).
  set (w4 := emit (Publish (channel_of job_id) "stage_update"
                     (StageCompleted "video_generator" None)) w3).
  assert (Htot : current_total job_id w4 = current_total job_id w2).
  { unfold current_total. change (jobs w4) with (jobs w3). rewrite Hj3.
    rewrite filter_patch_rows. destruct (List.filter _ (jobs w2)); reflexivity. }
  set (msg := "Budget limit of $" +:+ str_decimal2 (get_budget_limit (environment cfg))
                +:+ " exceeded for job " +:+ job_id +:+ ". Current total: $"
                +:+ str_float (current_total job_id w2)).
  set (e := BudgetExceededError msg (Some "BUDGET_EXCEEDED")).
  set (w5 := emit (Publish (channel_of job_id) "error"
                     (ErrorData msg (Some "BUDGET_EXCEEDED") false)) w4).
  assert (He : enforce_budget cfg job_id w4 = (Raise e, w5)).
  { subst e w5 msg. rewrite <- Htot.
    apply enforce_budget_exceeded;
      [exact (stage5_generate_well_formed _ _ _ _ _ _ _ H5) | exact Hf3 | rewrite Htot; lia]. }
  destruct (on_error_no_fault job_id e w5 Hf3 eq_refl) as (w6 & Ho & _ & Htr).
  exists msg, w6,
    (t ++ [Publish (channel_of job_id) "stage_update" (StageCompleted "video_generator" None);
           Publish (channel_of job_id) "error" (ErrorData msg (Some "BUDGET_EXCEEDED") false);
           JobUpdate job_id (failed_patch msg);
           Publish (channel_of job_id) "error"
                   (ErrorData msg (Some "BUDGET_EXCEEDED") false)])%list.
  split.
  { unfold Orchestrator.execute_pipeline.
    erewrite try_except_raise; [exact Ho |].
    erewrite bind_raise; [reflexivity |].
    unfold Orchestrator.pipeline_body.
    erewrite andthen_some by exact H4.
    apply andthen_raise. unfold Orchestrator.stage5.
    erewrite andthen_some by exact H5.
    unfold Orchestrator.stage5_validate.
    replace (Z.of_nat (length clips) <? 3) with false by (symmetry; apply Z.ltb_ge; lia).
    unfold bind at 1. rewrite Hu.
    unfold bind at 1. rewrite publish_event_no_fault by exact Hf3.
    fold w4. unfold bind. rewrite He. reflexivity. }
  split.
  { rewrite Htr. unfold w5, w4. cbn. rewrite Ht. now rewrite <- !app_assoc. }
  rewrite progress_writes_app, !List.filter_app, Hp, Herr, Hfw. cbn. auto.
Qed.

Lemma budget_overshoot_is_reported_twice_witness :
  let w1 := snd (Orchestrator.through_stage4 production overspending_env J audio_in
                   prompt_in queued_world) in
  let w2 := snd (Orchestrator.stage5_generate production overspending_env J
                   Orchestrator.stub_prompts w1) in
  current_total J w2 = 251200
  /\ exists msg w3 t,
       Orchestrator.execute_pipeline production overspending_env J audio_in prompt_in
         queued_world
         = (Raise (BudgetExceededError msg (Some "BUDGET_EXCEEDED")), w3)
       /\ trace w3 = (trace w2 ++ t)%list
       /\ progress_writes t = [85]
       /\ List.filter is_failed_write t = [JobUpdate J (failed_patch msg)]
       /\ List.filter is_error_event t
          = [Publish (channel_of J) "error" (ErrorData msg (Some "BUDGET_EXCEEDED") false);
             Publish (channel_of J) "error" (ErrorData msg (Some "BUDGET_EXCEEDED") false)].
Proof.
  split; [vm_compute; reflexivity |].
  apply (budget_overshoot_is_reported_twice production overspending_env J audio_in
           prompt_in queued_world
           (Orchestrator.stub_audio, Orchestrator.stub_plan, Orchestrator.stub_prompts)
           (snd (Orchestrator.through_stage4 production overspending_env J audio_in
                   prompt_in queued_world))
           three_clips);
    first [ vm_compute; reflexivity | vm_compute; lia ].
Defined.

(** ** C1: the discipline of a run *)

(** *** Runs that leave the fault schedule exhausted *)





















Section AnsweringRules.

Context {S : Type}.
Variable step : S -> Action -> option S.








End AnsweringRules.

(** *** The discipline when every call is answered *)












Section AnsweredRun.

Variable cfg : Settings.
Variable env : Collaborators.
Variables job_id audio_url user_prompt : string.












End AnsweredRun.






(** ** Terminal writes *)

Lemma execute_pipeline_well_formed cfg env job_id audio_url user_prompt :
  only well_formed_write
       (Orchestrator.execute_pipeline cfg env job_id audio_url user_prompt).
Proof.
  unfold Orchestrator.execute_pipeline, Orchestrator.pipeline_body,
    Orchestrator.through_stage4, Orchestrator.through_stage2, Orchestrator.set_processing,
    Orchestrator.andthen,
    Orchestrator.stage1, Orchestrator.stage2, Orchestrator.stage3, Orchestrator.stage4,
    Orchestrator.stage5, Orchestrator.stage5_generate, Orchestrator.stage5_validate,
    Orchestrator.andthen, Orchestrator.stage6, Orchestrator.on_error.
  only_auto.
Qed.

Lemma only_verify_job_ownership K job_id user :
  only K (Routes.verify_job_ownership job_id user).
Proof.
  unfold Routes.verify_job_ownership. only_auto.
Qed.

Lemma only_raw_set K key v ex : only K (Redis.raw_set key v ex).
Proof. apply only_io, only_same_trace. intros w. reflexivity. Qed.

(** X17. Every terminal write carries the columns that go with its status.
    Whatever fails on the way, each update of a job row by the worker (the
    run of the orchestrator included) or by the cancel endpoint that sets
    [status=completed] also sets progress 100, the stage [composer], the
    video URL and the total cost, and each update that sets [status=failed]
    also sets the error message. *)
Theorem terminal_writes_carry_their_columns :
  (forall (cfg : Settings) (env : Collaborators) (job_data : Worker.JobData),
      only well_formed_write (Worker.process_job cfg env job_data))
  /\ (forall job_id current_user : string,
         only well_formed_write (Routes.cancel_job job_id current_user)).
Proof.
  split.
  - intros cfg env jd. unfold Worker.process_job.
    destruct (negb _); [apply only_ret |].
    apply only_try_except.
    + apply only_bind; [apply only_redis_get | intros flag].
      destruct (truthy_val flag).
      * only_auto.
      * apply only_bind; [apply execute_pipeline_well_formed | intros; apply only_ret].
    + intros e. destruct (_ || _); [apply only_ret |].
      destruct (is_RetryableError e); only_auto.
  - intros job_id user. unfold Routes.cancel_job.
    apply only_bind; [apply only_verify_job_ownership | intros job].
    destruct (negb _); [apply only_raise |].
    apply only_try_except; [| intros; only_auto].
    apply only_bind; [| intros; only_auto].
    destruct (String.eqb (status job) "queued").
    + apply only_bind; [| intros; only_auto].
      unfold remove_job. only_auto.
    + destruct (String.eqb (status job) "processing"); [| apply only_ret].
      apply only_bind; [| intros; only_auto].
      unfold Redis.set. apply only_try_except; [| intros; apply only_raise].
      apply only_bind; [apply only_raw_set | intros; apply only_ret].
Qed.

(** ** The job routes *)

Lemma ltb_asym (a b : string) : String.ltb a b = true -> String.ltb b a = false.
Proof.
  unfold String.ltb. rewrite (String.compare_antisym a b).
  destruct (String.compare b a); cbn; congruence.
Qed.

Lemma insert_desc_sorted x l : Sorted not_older l -> Sorted not_older (Routes.insert_desc x l).
Proof.
  induction l as [| y l IH]; intros Hs; cbn.
  - repeat constructor.
  - destruct (String.ltb (created_at x) (created_at y)) eqn:E.
    + apply Sorted_inv in Hs. destruct Hs as [Hs Hhd].
      constructor; [now apply IH |].
      destruct l as [| z l]; cbn.
      * constructor. now apply ltb_asym.
      * destruct (String.ltb (created_at x) (created_at z)).
        -- constructor. now inversion Hhd.
        -- constructor. now apply ltb_asym.
    + constructor; [exact Hs |]. constructor. exact E.
Qed.

Lemma sort_desc_sorted l : Sorted not_older (Routes.sort_desc l).
Proof.
  induction l as [| x l IH]; cbn; [constructor | now apply insert_desc_sorted].
Qed.

Lemma insert_desc_perm x l : Permutation (Routes.insert_desc x l) (x :: l).
Proof.
  induction l as [| y l IH]; cbn; [reflexivity |].
  destruct (String.ltb (created_at x) (created_at y)); [| reflexivity].
  rewrite IH. apply perm_swap.
Qed.

Lemma sort_desc_perm l : Permutation (Routes.sort_desc l) l.
Proof.
  induction l as [| x l IH]; cbn; [reflexivity |].
  rewrite insert_desc_perm. now constructor.
Qed.

Lemma Sorted_tl {A} (R : A -> A -> Prop) x l : Sorted R (x :: l) -> Sorted R l.
Proof. intros H. now apply Sorted_inv in H. Qed.

Lemma Sorted_skipn {A} (R : A -> A -> Prop) n l : Sorted R l -> Sorted R (skipn n l).
Proof.
  revert l. induction n as [| n IH]; intros l Hs; [exact Hs |].
  destruct l as [| x l]; [constructor |]. cbn. apply IH. eapply Sorted_tl; eauto.
Qed.

Lemma Sorted_firstn {A} (R : A -> A -> Prop) n l : Sorted R l -> Sorted R (firstn n l).
Proof.
  revert l. induction n as [| n IH]; intros l Hs; [constructor |].
  destruct l as [| x l]; [constructor |]. cbn.
  apply Sorted_inv in Hs. destruct Hs as [Hs Hhd].
  constructor; [now apply IH |].
  destruct l as [| y l]; [destruct n; constructor |].
  destruct n; cbn; constructor. now inversion Hhd.
Qed.

Lemma slice_sorted l offset limit : Sorted not_older l -> Sorted not_older (Routes.slice l offset limit).
Proof. intros H. unfold Routes.slice. now apply Sorted_firstn, Sorted_skipn. Qed.

Lemma slice_Forall (P : JobRow -> Prop) l offset limit :
  Forall P l -> Forall P (Routes.slice l offset limit).
Proof. intros H. unfold Routes.slice. now apply Forall_take, Forall_drop. Qed.

Lemma sort_desc_Forall (P : JobRow -> Prop) l : Forall P l -> Forall P (Routes.sort_desc l).
Proof. intros H. now rewrite sort_desc_perm. Qed.

(** What [list_jobs] returns when it returns. *)
Lemma list_jobs_ok status_filter limit offset user w resp w' :
  Routes.list_jobs status_filter limit offset user w = (Ok resp, w') ->
  1 <= limit <= 50 /\ 0 <= offset
  /\ (truthy status_filter = true ->
      existsb (String.eqb (default "" status_filter)) Routes.valid_statuses = true)
  /\ jobs w' = jobs w /\ kv w' = kv w /\ trace w' = trace w
  /\ resp = Routes.mkList
              (Routes.slice
                 (Routes.sort_desc
                    (firstn (Z.to_nat (limit + offset))
                       (List.filter (Routes.matches user status_filter) (jobs w))))
                 offset limit)
              (Z.of_nat (length (List.filter (Routes.matches user status_filter) (jobs w))))
              limit offset.
Proof.
  unfold Routes.list_jobs.
  destruct ((1 <=? limit) && (limit <=? 50) && (0 <=? offset)) eqn:Hb; cbn [negb];
    [| intros H; discriminate H].
  apply andb_true_iff in Hb. destruct Hb as [Hb H3]. apply andb_true_iff in Hb.
  destruct Hb as [H1 H2]. apply Z.leb_le in H1, H2, H3.
  destruct (truthy status_filter) eqn:Ht.
  - destruct (existsb (String.eqb (default "" status_filter)) Routes.valid_statuses) eqn:Hv';
      cbn [negb]; [| intros H; discriminate H].
    unfold try_except, bind, Routes.count_jobs, Routes.select_jobs, io, ret, raise, log.
    destruct w as [js ss cs m cn tr fs]. cbn [faults jobs kv trace set_faults].
    destruct fs as [| [e1 |] fs1]; cbn;
      try (destruct (is_ValidationError e1); intros H; discriminate H).
    + intros H. injection H as <- <-. cbn. repeat split; auto; lia.
    + destruct fs1 as [| [e2 |] fs2]; cbn;
        try (destruct (is_ValidationError e2); intros H; discriminate H);
        intros H; injection H as <- <-; cbn; repeat split; auto; lia.
  - unfold try_except, bind, Routes.count_jobs, Routes.select_jobs, io, ret, raise, log.
    destruct w as [js ss cs m cn tr fs]. cbn [faults jobs kv trace set_faults].
    destruct fs as [| [e1 |] fs1]; cbn;
      try (destruct (is_ValidationError e1); intros H; discriminate H).
    + intros H. injection H as <- <-. cbn. repeat split; auto; try lia; discriminate.
    + destruct fs1 as [| [e2 |] fs2]; cbn;
        try (destruct (is_ValidationError e2); intros H; discriminate H);
        intros H; injection H as <- <-; cbn; repeat split; auto; try lia; discriminate.
Qed.

(** X18. What the list endpoint returns.  Whenever [list_jobs] returns, the
    bounds were respected (limit in 1..50, offset not negative, the filter
    absent, empty or one of the four statuses); the page holds at most
    [limit] rows, each of them a row of the table that belongs to the caller
    and has the requested status; the page is in descending order of
    creation; the total counts all the matching rows of the caller; and
    nothing was written. *)
Theorem list_jobs_returns_callers_rows :
  forall (status_filter : option string) (limit offset : Z) (current_user : string)
         (w : World) (resp : Routes.ListResponse) (w' : World),
    Routes.list_jobs status_filter limit offset current_user w = (Ok resp, w') ->
    (1 <= limit <= 50 /\ 0 <= offset
     /\ (truthy status_filter = true ->
         In (default "" status_filter) Routes.valid_statuses))
    /\ (length (Routes.lr_jobs resp) <= Z.to_nat limit)%nat
    /\ Forall (fun j => In j (jobs w) /\ user_id j = current_user
                        /\ (truthy status_filter = true ->
                            Some (status j) = status_filter))
              (Routes.lr_jobs resp)
    /\ Sorted not_older (Routes.lr_jobs resp)
    /\ Routes.lr_total resp
       = Z.of_nat (length (List.filter (Routes.matches current_user status_filter) (jobs w)))
    /\ Routes.lr_limit resp = limit /\ Routes.lr_offset resp = offset
    /\ jobs w' = jobs w /\ kv w' = kv w /\ trace w' = trace w.
Proof.
  intros sf limit offset user w resp w' H.
  apply list_jobs_ok in H. destruct H as (Hl & Ho & Hv & Hj & Hk & Ht & ->). cbn.
  split.
  { split; [exact Hl |]. split; [exact Ho |]. intros Htr. specialize (Hv Htr).
    apply existsb_exists in Hv. destruct Hv as (s & Hin & Heq).
    apply String.eqb_eq in Heq. now subst. }
  split. { unfold Routes.slice. apply firstn_le_length. }
  split.
  { apply slice_Forall, sort_desc_Forall, Forall_take.
    apply List.Forall_forall. intros j Hj'. apply List.filter_In in Hj'. destruct Hj' as [Hin Hm].
    unfold Routes.matches in Hm. apply andb_true_iff in Hm. destruct Hm as [Hu Hs].
    apply String.eqb_eq in Hu. split; [exact Hin |]. split; [exact Hu |].
    intros Htr. destruct sf as [s |]; [| discriminate]. rewrite Htr in Hs.
    apply String.eqb_eq in Hs. now rewrite Hs. }
  split. { apply slice_sorted, sort_desc_sorted. }
  auto 10.
Qed.

Lemma list_jobs_returns_callers_rows_witness :
  let resp := Routes.mkList [newer_job] 1 10 0 in
  (1 <= 10 <= 50 /\ 0 <= 0
   /\ (truthy (Some "queued") = true -> In (default "" (Some "queued")) Routes.valid_statuses))
  /\ (length (Routes.lr_jobs resp) <= Z.to_nat 10)%nat
  /\ Forall (fun j => In j (jobs two_jobs_world) /\ user_id j = "u"
                      /\ (truthy (Some "queued") = true -> Some (status j) = Some "queued"))
            (Routes.lr_jobs resp)
  /\ Sorted not_older (Routes.lr_jobs resp)
  /\ Routes.lr_total resp
     = Z.of_nat (length (List.filter (Routes.matches "u" (Some "queued")) (jobs two_jobs_world)))
  /\ Routes.lr_limit resp = 10 /\ Routes.lr_offset resp = 0
  /\ jobs two_jobs_world = jobs two_jobs_world /\ kv two_jobs_world = kv two_jobs_world
  /\ trace two_jobs_world = trace two_jobs_world.
Proof.
  apply (list_jobs_returns_callers_rows (Some "queued") 10 0 "u" two_jobs_world
           (Routes.mkList [newer_job] 1 10 0) two_jobs_world).
  reflexivity.
Defined.

Lemma verify_job_ownership_reads job_id user w :
  let r := Routes.verify_job_ownership job_id user w in
  jobs (snd r) = jobs w /\ kv (snd r) = kv w /\ trace (snd r) = trace w.
Proof.
  unfold Routes.verify_job_ownership, try_except, bind, Store.select_job, io, raise, ret, log.
  destruct w as [js ss cs m cn tr fs]. cbn [faults jobs kv trace set_faults].
  destruct fs as [| [e |] fs]; cbn.
  - destruct (List.filter _ js) as [| job rest]; cbn; [auto |].
    destruct (String.eqb (user_id job) user); cbn; auto.
  - destruct (is_HTTPException e); cbn; auto.
  - destruct (List.filter _ js) as [| job rest]; cbn; [auto |].
    destruct (String.eqb (user_id job) user); cbn; auto.
Qed.

(** X19. The ownership check gives a job to its owner only, and fails in
    three ways.  For every world, [verify_job_ownership] writes nothing; if
    it returns a row, the row is the first one the store holds for the job
    and its owner is the caller; if it raises, it raises an HTTP error with
    status 404 (no row) or 403 (the row belongs to someone else), or, when
    the call to the store fails, with status 500 (an HTTP error of the
    store's own is passed on as it is). *)
Theorem verify_job_ownership_outcomes :
  forall (job_id current_user : string) (w : World),
    let r := Routes.verify_job_ownership job_id current_user w in
    jobs (snd r) = jobs w /\ kv (snd r) = kv w /\ trace (snd r) = trace w
    /\ match fst r with
       | Ok job =>
           user_id job = current_user /\ id job = job_id
           /\ exists rest,
                List.filter (fun j => String.eqb (id j) job_id) (jobs w) = job :: rest
       | Raise e =>
           (e = HTTPException 404 "Job not found"
            /\ List.filter (fun j => String.eqb (id j) job_id) (jobs w) = [])
           \/ (e = HTTPException 403 "Job does not belong to user"
               /\ exists job rest,
                    List.filter (fun j => String.eqb (id j) job_id) (jobs w) = job :: rest
                    /\ user_id job <> current_user)
           \/ (exists e0 fs,
                 faults w = Some e0 :: fs
                 /\ e = if is_HTTPException e0 then e0
                        else HTTPException 500 "Failed to verify job ownership")
       end.
Proof.
  intros job_id user w r. unfold r, Routes.verify_job_ownership, try_except, bind,
    Store.select_job, io, raise, ret, log.
  destruct w as [js ss cs m cn tr fs]. cbn [faults jobs kv trace set_faults].
  assert (Hid : forall job rest,
             List.filter (fun j => String.eqb (id j) job_id) js = job :: rest ->
             id job = job_id).
  { intros job rest H.
    assert (Hin : In job (List.filter (fun j => String.eqb (id j) job_id) js))
      by (rewrite H; now left).
    apply List.filter_In in Hin. now apply String.eqb_eq. }
  destruct fs as [| [e |] fs]; cbn.
  - destruct (List.filter _ js) as [| job rest] eqn:Hrows; cbn.
    + repeat split; auto.
    + destruct (String.eqb (user_id job) user) eqn:Hu; cbn.
      * apply String.eqb_eq in Hu. repeat split; eauto.
      * apply String.eqb_neq in Hu. repeat split; auto.
        right. left. split; [reflexivity |]. eauto.
  - destruct (is_HTTPException e) eqn:E; cbn; repeat split; auto;
      right; right; exists e, fs; rewrite E; auto.
  - destruct (List.filter _ js) as [| job rest] eqn:Hrows; cbn.
    + repeat split; auto.
    + destruct (String.eqb (user_id job) user) eqn:Hu; cbn.
      * apply String.eqb_eq in Hu. repeat split; eauto.
      * apply String.eqb_neq in Hu. repeat split; auto.
        right. left. split; [reflexivity |]. eauto.
Qed.

(** The part of the status endpoint that follows the ownership check. *)
Lemma get_job_status_after_check job_id user w job w1 :
  Routes.verify_job_ownership job_id user w = (Ok job, w1) ->
  exists r w2,
    Routes.get_job_status job_id user w = (Ok r, w2)
    /\ jobs w2 = jobs w1 /\ trace w2 = trace w1
    /\ ((r = job
         /\ (kv w2 = kv w1
             \/ kv w2 = <[status_cache_key job_id := mkEntry (RStr (JobDoc job)) (Some 30)]>
                          (kv w1)))
        \/ (kv w2 = kv w1
            /\ exists t, kv w1 !! status_cache_key job_id
                         = Some (mkEntry (RStr (JobDoc r)) t))).
Proof.
  intros Hv. unfold Routes.get_job_status. rewrite (bind_ok _ _ _ _ _ Hv).
  unfold bind, try_except, Redis.get, Redis.set, try_except, bind, Redis.raw_get,
    Redis.raw_set, Routes.json_loads, io, ret, raise, log.
  fold (status_cache_key job_id).
  destruct w1 as [js ss cs m cn tr fs]. cbn [faults jobs kv trace set_faults].
  destruct fs as [| [e1 |] fs1]; cbn.
  - destruct (m !! status_cache_key job_id) as [[[[s | c] | ms] t] |] eqn:Hk; cbn;
      try (destruct (negb (String.eqb s "")); cbn);
      eexists; eexists; (split; [reflexivity |]); cbn; eauto 10.
  - destruct fs1 as [| [e2 |] fs2]; cbn;
      eexists; eexists; (split; [reflexivity |]); cbn; eauto 10.
  - destruct (m !! status_cache_key job_id) as [[[[s | c] | ms] t] |] eqn:Hk; cbn;
      try (destruct (negb (String.eqb s "")); cbn);
      try (destruct fs1 as [| [e2 |] fs2]; cbn);
      eexists; eexists; (split; [reflexivity |]); cbn; eauto 10.
Qed.

(** X20. The status endpoint fails only at the ownership check.  When the
    check raises, the endpoint raises the same error; when the check
    passes, the endpoint answers whatever the broker does (a failing cache
    read or write is swallowed), with the row that was checked or with the
    document cached for the job, and it never writes to table [jobs]. *)
Theorem get_job_status_fails_only_at_ownership :
  forall (job_id current_user : string) (w : World),
    match Routes.verify_job_ownership job_id current_user w with
    | (Ok job, w1) =>
        exists r w2,
          Routes.get_job_status job_id current_user w = (Ok r, w2)
          /\ jobs w2 = jobs w
          /\ (r = job
              \/ exists t, kv w !! status_cache_key job_id
                           = Some (mkEntry (RStr (JobDoc r)) t))
    | (Raise e, w1) => Routes.get_job_status job_id current_user w = (Raise e, w1)
    end.
Proof.
  intros job_id user w.
  pose proof (verify_job_ownership_reads job_id user w) as Hv. cbv zeta in Hv.
  destruct (Routes.verify_job_ownership job_id user w) as [[job | e] w1] eqn:E.
  - cbn in Hv. destruct Hv as (Hj & Hk & _).
    destruct (get_job_status_after_check job_id user w job w1 E)
      as (r & w2 & Hg & Hj2 & _ & Hr).
    exists r, w2. split; [exact Hg |]. split; [congruence |].
    destruct Hr as [[-> _] | [_ [t Ht]]]; [now left | right].
    exists t. now rewrite <- Hk.
  - unfold Routes.get_job_status. now rewrite (bind_raise _ _ _ _ _ E).
Qed.

Lemma get_job_status_miss job_id user w job rest :
  faults w = [] ->
  List.filter (fun j => String.eqb (id j) job_id) (jobs w) = job :: rest ->
  user_id job = user ->
  kv w !! status_cache_key job_id = None ->
  Routes.get_job_status job_id user w
  = (Ok job,
     set_kv (<[status_cache_key job_id := mkEntry (RStr (JobDoc job)) (Some 30)]> (kv w)) w).
Proof.
  intros Hf Hrows Hu Hk. unfold Routes.get_job_status.
  erewrite bind_ok by (eapply verify_job_ownership_no_fault; eauto).
  unfold bind at 1. unfold try_except at 1. unfold bind at 1.
  rewrite redis_get_no_fault by exact Hf. fold (status_cache_key job_id). rewrite Hk.
  cbn [truthy_val ret]. 
  unfold bind, try_except, Redis.set, try_except, bind, Redis.raw_set.
  rewrite io_no_fault by exact Hf. reflexivity.
Qed.

Lemma get_job_status_hit job_id user w job rest cached t :
  faults w = [] ->
  List.filter (fun j => String.eqb (id j) job_id) (jobs w) = job :: rest ->
  user_id job = user ->
  kv w !! status_cache_key job_id = Some (mkEntry (RStr (JobDoc cached)) t) ->
  Routes.get_job_status job_id user w = (Ok cached, w).
Proof.
  intros Hf Hrows Hu Hk. unfold Routes.get_job_status.
  erewrite bind_ok by (eapply verify_job_ownership_no_fault; eauto).
  unfold bind at 1. unfold try_except at 1. unfold bind at 1.
  rewrite redis_get_no_fault by exact Hf. fold (status_cache_key job_id). rewrite Hk.
  reflexivity.
Qed.

(** X21. The status endpoint caches, and progress does not reach the cache.
    With the store and the broker answering, a request of the owner that
    finds no cached document returns the row and caches it for 30 seconds;
    a request that finds a cached document returns that document without
    looking at the row; and after a progress update of the orchestrator the
    endpoint still returns the document cached before the update. *)
Theorem status_is_served_from_cache :
  forall (job_id current_user : string) (w : World) (job : JobRow) (rest : list JobRow),
    faults w = [] ->
    List.filter (fun j => String.eqb (id j) job_id) (jobs w) = job :: rest ->
    user_id job = current_user ->
    (kv w !! status_cache_key job_id = None ->
     let w1 := snd (Routes.get_job_status job_id current_user w) in
     fst (Routes.get_job_status job_id current_user w) = Ok job
     /\ kv w1 !! status_cache_key job_id = Some (mkEntry (RStr (JobDoc job)) (Some 30))
     /\ forall (v : Z) (st : string),
          let w2 := snd (update_progress job_id v st w1) in
          List.map progress (List.filter (fun j => String.eqb (id j) job_id) (jobs w2))
            = List.map (fun _ => v) (job :: rest)
          /\ Routes.get_job_status job_id current_user w2 = (Ok job, w2))
    /\ (forall cached t,
           kv w !! status_cache_key job_id = Some (mkEntry (RStr (JobDoc cached)) t) ->
           Routes.get_job_status job_id current_user w = (Ok cached, w)).
Proof.
  intros job_id user w job rest Hf Hrows Hu. split.
  - intros Hk w1. unfold w1.
    rewrite (get_job_status_miss job_id user w job rest Hf Hrows Hu Hk). cbn [fst snd].
    split; [reflexivity |]. split; [cbn; now rewrite lookup_insert_eq |].
    intros v st.
    set (w1' := set_kv _ w).
    destruct (update_progress_no_fault job_id v st w1' Hf)
      as (w2 & Hup & Hf2 & Hj2 & _ & Hk2 & _).
    rewrite Hup. cbn [snd].
    assert (Hrows2 : List.filter (fun j => String.eqb (id j) job_id) (jobs w2)
                     = List.map (apply_patch (mkPatch None (Some v) (Some st) None None None))
                                (job :: rest)).
    { rewrite Hj2. change (jobs w1') with (jobs w). now rewrite filter_patch_rows, Hrows. }
    split.
    + rewrite Hrows2, List.map_map. reflexivity.
    + eapply get_job_status_hit; [exact Hf2 | exact Hrows2 | exact Hu |].
      rewrite Hk2. unfold w1'. cbn [kv set_kv].
      rewrite lookup_delete_ne by (cbn; discriminate).
      now rewrite lookup_insert_eq.
  - intros cached t Hk. eapply get_job_status_hit; eauto.
Qed.

Lemma status_is_served_from_cache_witness :
  let w1 := snd (Routes.get_job_status J "u" fresh_world) in
  let w2 := snd (update_progress J 10 "audio_parser" w1) in
  List.map progress (jobs w2) = [10]
  /\ fst (Routes.get_job_status J "u" w2) = Ok fresh_job
  /\ progress fresh_job = 0.
Proof.
  destruct (status_is_served_from_cache J "u" fresh_world fresh_job []
              eq_refl eq_refl eq_refl) as [H _].
  destruct (H eq_refl) as (_ & _ & H2).
  destruct (H2 10 "audio_parser") as [_ H3].
  split; [vm_compute; reflexivity |].
  split; [| reflexivity].
  cbv zeta in H3. now rewrite H3.
Defined.

(** X22. A job that is neither queued nor in progress cannot be cancelled:
    with the store answering, the request of the owner is refused with
    status 400 and a message that names the status, and nothing is written
    to the store, the broker or the event bus. *)
Theorem cancel_job_refused_outside_queue :
  forall (job_id current_user : string) (w : World) (job : JobRow) (rest : list JobRow),
    faults w = [] ->
    List.filter (fun j => String.eqb (id j) job_id) (jobs w) = job :: rest ->
    user_id job = current_user ->
    status job <> "queued" -> status job <> "processing" ->
    Routes.cancel_job job_id current_user w
    = (Raise (HTTPException 400 ("Cannot cancel job with status: " +:+ status job)), w).
Proof.
  intros job_id user w job rest Hf Hrows Hu Hq Hp. unfold Routes.cancel_job.
  erewrite bind_ok by (eapply verify_job_ownership_no_fault; eauto).
  apply String.eqb_neq in Hq, Hp. rewrite Hq, Hp. reflexivity.
Qed.

Lemma cancel_job_refused_outside_queue_witness :
  Routes.cancel_job "A" "u" two_jobs_world
  = (Raise (HTTPException 400 ("Cannot cancel job with status: " +:+ status older_job)),
     two_jobs_world).
Proof.
  apply (cancel_job_refused_outside_queue "A" "u" two_jobs_world older_job []);
    first [reflexivity | discriminate].
Defined.

Lemma cancel_job_twice_witness :
  let w' := snd (Routes.cancel_job J "u" cached_world) in
  Routes.cancel_job J "u" w'
  = (Raise (HTTPException 400 "Cannot cancel job with status: failed"), w').
Proof.
  apply (cancel_job_twice J "u" cached_world
           (Routes.mkCancel J "failed" "Job cancelled by user")); reflexivity.
Defined.

(** X24. Removing a job from the queue never raises and does not tell
    whether the job was there.  With the broker answering, [remove_job]
    returns [True] whether or not the payload key existed, deletes that key
    and nothing else, and a second call returns [True] again and changes
    nothing; when the broker fails it returns [False]. *)
Theorem remove_job_reports_true :
  forall (job_id : string) (w : World),
    (exists b, fst (remove_job job_id w) = Ok b)
    /\ (faults w = [] ->
        let r := remove_job job_id w in
        fst r = Ok true
        /\ kv (snd r) = delete (payload_key job_id) (kv w)
        /\ jobs (snd r) = jobs w /\ trace (snd r) = trace w
        /\ remove_job job_id (snd r) = (Ok true, snd r))
    /\ (forall e fs, faults w = Some e :: fs ->
          remove_job job_id w = (Ok false, set_faults fs w)).
Proof.
  intros job_id w. split; [| split].
  - destruct (remove_job job_id w) as [r w'] eqn:E.
    apply remove_job_inv in E. apply E.
  - intros Hf r.
    assert (H1 : remove_job job_id w = (Ok true, set_kv (delete (payload_key job_id) (kv w)) w)).
    { unfold remove_job, try_except, bind, Redis.raw_delete.
      now rewrite io_no_fault by exact Hf. }
    unfold r. rewrite (remove_job_idempotent job_id w Hf). rewrite H1. cbn. auto.
  - intros e fs Hf. unfold remove_job, try_except, bind, Redis.raw_delete.
    now rewrite (io_fault _ _ _ _ Hf).
Qed.

(** ** The rate limiter *)

(** X25. The rate limiter raises nothing but [RateLimitError], and a broker
    failure is settled by the configured policy.  Whatever the broker does,
    an exception that leaves [check_rate_limit] is a [RateLimitError]; when
    the first call to the broker fails, the request is admitted without
    being counted if the limiter fails open (the default), and refused with
    [Rate limit service unavailable], retry after 60 seconds, if it fails
    closed. *)
Theorem rate_limiter_failure_policy :
  forall (cfg : Settings) (user_id : string) (now : Z) (w : World),
    (forall e, fst (check_rate_limit cfg user_id now w) = Raise e ->
               is_RateLimitError e = true)
    /\ (forall e0 fs,
           faults w = Some e0 :: fs -> is_RateLimitError e0 = false ->
           check_rate_limit cfg user_id now w
           = (if rate_limit_fail_closed cfg
              then Raise (RateLimitError "Rate limit service unavailable" 60
                                         (Some "RATE_LIMIT_SERVICE_UNAVAILABLE"))
              else Ok tt,
              set_faults fs w)).
Proof.
  intros cfg user now w. split.
  - intros e. unfold check_rate_limit, try_except.
    match goal with |- context [match ?m w with _ => _ end] => destruct (m w) as [[[] | e0] w1] end.
    + discriminate.
    + destruct (is_RateLimitError e0) eqn:E; cbn.
      * intros H. injection H as <-. exact E.
      * destruct (rate_limit_fail_closed cfg); cbn; intros H; [| discriminate].
        injection H as <-. reflexivity.
  - intros e0 fs Hf He. unfold check_rate_limit, try_except.
    unfold bind at 1. unfold Redis.zremrangebyscore. rewrite (io_fault _ _ _ _ Hf).
    rewrite He. destruct (rate_limit_fail_closed cfg); reflexivity.
Qed.

Lemma zmin_In ms m : Redis.zmin ms = Some m -> In m ms.
Proof.
  revert m. induction ms as [| x ms IH]; intros m; cbn; [discriminate |].
  destruct (Redis.zmin ms) as [m' |].
  - destruct (Redis.zless m' x); intros H; injection H as <-; [right; now apply IH | now left].
  - intros H. injection H as <-. now left.
Qed.

Lemma filter_drops_one {A} (f : A -> bool) (l : list A) (x : A) :
  In x l -> f x = false -> (length (List.filter f l) < length l)%nat.
Proof.
  induction l as [| y l IH]; cbn; [tauto |].
  intros [-> | Hin] Hx.
  - rewrite Hx. pose proof (List.filter_length_le f l). lia.
  - specialize (IH Hin Hx). destruct (f y); cbn; lia.
Qed.

(** A refusal when the store and the broker answer. *)
Lemma check_rate_limit_refusal cfg user now w ms :
  faults w = [] ->
  Redis.zset_of w (rate_key user) = Ok ms ->
  (5 <= length (in_window now ms))%nat ->
  exists w1,
    check_rate_limit cfg user now w
    = (Raise (RateLimitError "Rate limit exceeded: 5 jobs per hour"
                (match Redis.zmin (in_window now ms) with
                 | Some (_, oldest) => 3600 - (now - oldest)
                 | None => 3600
                 end)
                (Some "RATE_LIMIT_EXCEEDED")), w1)
    /\ faults w1 = []
    /\ Redis.zset_of w1 (rate_key user) = Ok (in_window now ms).
Proof.
  intros Hf Hz Hlen.
  set (keep := in_window now ms) in *.
  set (w1 := Redis.store_zset (rate_key user) keep (Redis.ttl_of w (rate_key user)) w).
  assert (Hf1 : faults w1 = []) by (subst w1; now rewrite faults_store).
  assert (Hz1 : Redis.zset_of w1 (rate_key user) = Ok keep) by apply zset_of_store.
  assert (H1 : Redis.zremrangebyscore (rate_key user) 0 (now - 3600) w
               = (Ok (Z.of_nat (length ms) - Z.of_nat (length keep)), w1)).
  { unfold Redis.zremrangebyscore. rewrite io_no_fault by exact Hf. now rewrite Hz. }
  assert (H2 : Redis.zcard (rate_key user) w1 = (Ok (Z.of_nat (length keep)), w1)).
  { unfold Redis.zcard. rewrite io_no_fault by exact Hf1. now rewrite Hz1. }
  exists w1. split; [| auto].
  unfold check_rate_limit. fold (rate_key user).
  unfold try_except. unfold bind at 1. rewrite H1. unfold bind at 1. rewrite H2.
  replace (5 <=? Z.of_nat (length keep)) with true by (symmetry; apply Z.leb_le; lia).
  unfold bind, Redis.zrange_first. rewrite io_no_fault by exact Hf1. rewrite Hz1.
  destruct (Redis.zmin keep) as [[m s] |]; reflexivity.
Qed.

(** X26. The delay that a refusal announces is positive, at most an hour,
    and sufficient.  When a request is refused because the window of the
    user is full (the broker answering, the recorded times not in the
    future, at most five entries recorded), the [retry_after] of the error
    lies between 1 and 3600 seconds, and the same request made that many
    seconds later is admitted. *)
Theorem retry_after_is_sufficient :
  forall (cfg : Settings) (user_id : string) (now : Z) (w : World)
         (ms : list (string * Z)) (msg : string) (retry_after : Z) (code : option string),
    faults w = [] ->
    Redis.zset_of w (rate_key user_id) = Ok ms ->
    Forall (fun m => 0 <= snd m <= now) ms ->
    (length ms <= 5)%nat ->
    fst (check_rate_limit cfg user_id now w) = Raise (RateLimitError msg retry_after code) ->
    0 < retry_after <= 3600
    /\ fst (check_rate_limit cfg user_id (now + retry_after)
              (snd (check_rate_limit cfg user_id now w)))
       = Ok tt.
Proof.
  intros cfg user now w ms msg ra code Hf Hz Hall Hlen Hr.
  pose proof (check_rate_limit_step cfg user now w ms Hf Hz) as Hstep. cbv zeta in Hstep.
  destruct (5 <=? Z.of_nat (length (in_window now ms))) eqn:Hc.
  2:{ destruct Hstep as [Hok _]. rewrite Hok in Hr. discriminate. }
  apply Z.leb_le in Hc.
  destruct (check_rate_limit_refusal cfg user now w ms Hf Hz ltac:(lia))
    as (w1 & Hcr & Hf1 & Hz1).
  rewrite Hcr in Hr |- *. cbn [fst snd] in Hr |- *.
  destruct (Redis.zmin (in_window now ms)) as [[m oldest] |] eqn:Hmin.
  2:{ destruct (in_window now ms) as [| x l] eqn:E; [cbn in Hc; lia |].
      cbn in Hmin. destruct (Redis.zmin l) as [m' |]; [destruct (Redis.zless m' x) |];
        discriminate. }
  injection Hr as <- <- <-.
  pose proof (zmin_In _ _ Hmin) as Hin.
  unfold in_window in Hin. apply List.filter_In in Hin. destruct Hin as [Hin Hw].
  rewrite List.Forall_forall in Hall. specialize (Hall _ Hin). cbn [snd] in Hall, Hw.
  apply negb_true_iff, andb_false_iff in Hw.
  assert (Hold : now - 3600 < oldest).
  { destruct Hw as [Hw | Hw]; [apply Z.leb_gt in Hw; lia | apply Z.leb_gt in Hw; lia]. }
  split; [lia |].
  pose proof (check_rate_limit_step cfg user (now + (3600 - (now - oldest))) w1
                (in_window now ms) Hf1 Hz1) as Hstep2. cbv zeta in Hstep2.
  destruct (5 <=? Z.of_nat (length (in_window (now + (3600 - (now - oldest)))
                                      (in_window now ms)))) eqn:Hc2.
  2:{ apply Hstep2. }
  exfalso. apply Z.leb_le in Hc2.
  assert (Hlt : (length (in_window (now + (3600 - (now - oldest))) (in_window now ms))
                 < length (in_window now ms))%nat).
  { unfold in_window at 1. eapply filter_drops_one; [apply (zmin_In _ _ Hmin) |].
    cbn [snd]. apply negb_false_iff, andb_true_iff. split; apply Z.leb_le; lia. }
  pose proof (List.filter_length_le
                (fun m0 : string * Z => negb ((0 <=? snd m0) && (snd m0 <=? now - 3600))) ms)
    as Hle.
  unfold in_window in Hlt, Hc2 at 2. unfold in_window in Hc2. lia.
Qed.

Lemma retry_after_is_sufficient_witness :
  let w := full_window_world in
  fst (check_rate_limit development "u" (noon + 5) w)
    = Raise (RateLimitError "Rate limit exceeded: 5 jobs per hour" 3595
                            (Some "RATE_LIMIT_EXCEEDED"))
  /\ 0 < 3595 <= 3600
  /\ fst (check_rate_limit development "u" (noon + 5 + 3595)
            (snd (check_rate_limit development "u" (noon + 5) w)))
     = Ok tt.
Proof.
  split; [vm_compute; reflexivity |].
  apply (retry_after_is_sufficient development "u" (noon + 5) full_window_world
           [("1714557600", noon); ("1714557601", noon + 1); ("1714557602", noon + 2);
            ("1714557603", noon + 3); ("1714557604", noon + 4)]
           "Rate limit exceeded: 5 jobs per hour" 3595 (Some "RATE_LIMIT_EXCEEDED")).
  - reflexivity.
  - vm_compute. reflexivity.
  - repeat constructor; vm_compute; intros H; discriminate H.
  - cbn. lia.
  - vm_compute. reflexivity.
Defined.

(** X27. The limiter never remembers more than five requests of a user.
    With the broker answering and at most five entries recorded for the
    user, a call leaves at most five entries; a refused call records
    nothing (the set is the old one without the expired entries), and an
    admitted call records the single member [str(now)]. *)
Theorem rate_window_holds_at_most_five :
  forall (cfg : Settings) (user_id : string) (now : Z) (w : World) (ms : list (string * Z)),
    faults w = [] ->
    Redis.zset_of w (rate_key user_id) = Ok ms ->
    (length ms <= 5)%nat ->
    let r := check_rate_limit cfg user_id now w in
    exists ms',
      Redis.zset_of (snd r) (rate_key user_id) = Ok ms'
      /\ (length ms' <= 5)%nat
      /\ Forall (fun m => In m ms \/ m = (pretty now, now)) ms'
      /\ match fst r with
         | Ok _ => In (pretty now, now) ms'
         | Raise _ => ms' = in_window now ms
         end.
Proof.
  intros cfg user now w ms Hf Hz Hlen r.
  pose proof (check_rate_limit_step cfg user now w ms Hf Hz) as Hstep. cbv zeta in Hstep.
  fold r in Hstep.
  pose proof (List.filter_length_le
                (fun m0 : string * Z => negb ((0 <=? snd m0) && (snd m0 <=? now - 3600))) ms)
    as Hle. fold (in_window now ms) in Hle.
  destruct (5 <=? Z.of_nat (length (in_window now ms))) eqn:Hc.
  - destruct Hstep as [Hr Hs]. exists (in_window now ms).
    split; [exact Hs |]. split; [lia |]. split.
    + apply List.Forall_forall. intros m Hm. left.
      unfold in_window in Hm. now apply List.filter_In in Hm.
    + now rewrite Hr.
  - apply Z.leb_gt in Hc. destruct Hstep as (Hr & Hs & _). exists (admitted now ms).
    split; [exact Hs |].
    pose proof (List.filter_length_le
                  (fun m0 : string * Z => negb (String.eqb (fst m0) (pretty now)))
                  (in_window now ms)) as Hle2.
    split; [unfold admitted; rewrite length_app; cbn; lia |]. split.
    + apply List.Forall_forall. intros m Hm. unfold admitted in Hm.
      apply in_app_or in Hm. destruct Hm as [Hm | [<- | []]]; [left | now right].
      apply List.filter_In in Hm. destruct Hm as [Hm _].
      unfold in_window in Hm. now apply List.filter_In in Hm.
    + rewrite Hr. unfold admitted. apply in_or_app. right. now left.
Qed.

Lemma rate_window_holds_at_most_five_witness :
  let r := check_rate_limit development "u" (noon + 5) full_window_world in
  exists ms',
    Redis.zset_of (snd r) (rate_key "u") = Ok ms'
    /\ (length ms' <= 5)%nat
    /\ Forall (fun m => In m [("1714557600", noon); ("1714557601", noon + 1);
                              ("1714557602", noon + 2); ("1714557603", noon + 3);
                              ("1714557604", noon + 4)]
                        \/ m = (pretty (noon + 5), noon + 5)) ms'
    /\ match fst r with
       | Ok _ => In (pretty (noon + 5), noon + 5) ms'
       | Raise _ => ms' = in_window (noon + 5)
                            [("1714557600", noon); ("1714557601", noon + 1);
                             ("1714557602", noon + 2); ("1714557603", noon + 3);
                             ("1714557604", noon + 4)]
       end.
Proof.
  apply (rate_window_holds_at_most_five development "u" (noon + 5) full_window_world
           [("1714557600", noon); ("1714557601", noon + 1); ("1714557602", noon + 2);
            ("1714557603", noon + 3); ("1714557604", noon + 4)]).
  - reflexivity.
  - vm_compute. reflexivity.
  - cbn. lia.
Defined.

(** ** The registry of connections *)

Section DictFacts.

Context {K V : Type} `{EqDecision K}.
Implicit Types (k : K) (v : V) (d : list (K * V)).

Lemma dict_get_set_eq k v d : SseHub.dict_get k (SseHub.dict_set k v d) = Some v.
Proof.
  induction d as [| [k' v'] d IH]; cbn.
  - now rewrite decide_True.
  - destruct (decide (k' = k)); cbn.
    + now rewrite decide_True.
    + now rewrite decide_False.
Qed.

Lemma dict_get_set_ne k k' v d :
  k <> k' -> SseHub.dict_get k' (SseHub.dict_set k v d) = SseHub.dict_get k' d.
Proof.
  intros Hne. induction d as [| [k1 v1] d IH]; cbn.
  - now rewrite decide_False.
  - destruct (decide (k1 = k)) as [-> |]; cbn.
    + now rewrite !decide_False.
    + destruct (decide (k1 = k')); [reflexivity | exact IH].
Qed.

Lemma dict_get_del_ne k k' d :
  k <> k' -> SseHub.dict_get k' (SseHub.dict_del k d) = SseHub.dict_get k' d.
Proof.
  intros Hne. induction d as [| [k1 v1] d IH]; cbn; [reflexivity |].
  destruct (decide (k1 = k)) as [-> |]; cbn.
  - now rewrite decide_False.
  - destruct (decide (k1 = k')); [reflexivity | exact IH].
Qed.

Lemma dict_get_None k d : ~ In k (List.map fst d) -> SseHub.dict_get k d = None.
Proof.
  induction d as [| [k1 v1] d IH]; cbn; [reflexivity |].
  intros Hn. destruct (decide (k1 = k)); [tauto |]. apply IH. tauto.
Qed.

Lemma dict_get_In k v d : SseHub.dict_get k d = Some v -> In (k, v) d.
Proof.
  induction d as [| [k1 v1] d IH]; cbn; [discriminate |].
  destruct (decide (k1 = k)) as [-> |].
  - intros H1. injection H1 as ->. now left.
  - intros H1. right. now apply IH.
Qed.

Lemma dict_get_of_In k v d :
  List.NoDup (List.map fst d) -> In (k, v) d -> SseHub.dict_get k d = Some v.
Proof.
  induction d as [| [k1 v1] d IH]; cbn; [tauto |].
  intros Hnd [Heq | Hin].
  - injection Heq as -> ->. now rewrite decide_True.
  - apply List.NoDup_cons_iff in Hnd. destruct Hnd as [Hn Hnd].
    destruct (decide (k1 = k)) as [-> |]; [| now apply IH].
    exfalso. apply Hn. apply in_map_iff. now exists (k, v).
Qed.

Lemma dict_del_keys k d :
  forall x, In x (List.map fst (SseHub.dict_del k d)) -> In x (List.map fst d).
Proof.
  induction d as [| [k1 v1] d IH]; cbn; [tauto |].
  intros x. destruct (decide (k1 = k)); cbn; [tauto |].
  intros [-> | Hin]; [now left | right; now apply IH].
Qed.

Lemma dict_get_del_eq k d :
  List.NoDup (List.map fst d) -> SseHub.dict_get k (SseHub.dict_del k d) = None.
Proof.
  induction d as [| [k1 v1] d IH]; cbn; [reflexivity |].
  intros Hnd. apply List.NoDup_cons_iff in Hnd. destruct Hnd as [Hn Hnd].
  destruct (decide (k1 = k)) as [-> |]; cbn.
  - now apply dict_get_None.
  - rewrite decide_False by assumption. now apply IH.
Qed.

Lemma dict_del_NoDup k d :
  List.NoDup (List.map fst d) -> List.NoDup (List.map fst (SseHub.dict_del k d)).
Proof.
  induction d as [| [k1 v1] d IH]; cbn; [auto |].
  intros Hnd. apply List.NoDup_cons_iff in Hnd. destruct Hnd as [Hn Hnd].
  destruct (decide (k1 = k)); cbn; [exact Hnd |].
  apply List.NoDup_cons_iff. split; [| now apply IH].
  intros Hin. apply Hn. eapply dict_del_keys; eauto.
Qed.

Lemma dict_set_keys k v d :
  forall x, In x (List.map fst (SseHub.dict_set k v d)) -> x = k \/ In x (List.map fst d).
Proof.
  induction d as [| [k1 v1] d IH]; cbn; [intros x [-> | []]; now left |].
  intros x. destruct (decide (k1 = k)) as [-> |]; cbn.
  - intros [-> | Hin]; auto.
  - intros [-> | Hin]; [auto |]. destruct (IH x Hin); auto.
Qed.

Lemma dict_set_NoDup k v d :
  List.NoDup (List.map fst d) -> List.NoDup (List.map fst (SseHub.dict_set k v d)).
Proof.
  induction d as [| [k1 v1] d IH]; cbn; [intros _; repeat constructor; tauto |].
  intros Hnd. apply List.NoDup_cons_iff in Hnd. destruct Hnd as [Hn Hnd].
  destruct (decide (k1 = k)) as [-> |]; cbn.
  - apply List.NoDup_cons_iff. now split.
  - apply List.NoDup_cons_iff. split; [| now apply IH].
    intros Hin. destruct (dict_set_keys k v d k1 Hin); [congruence | tauto].
Qed.

Lemma dict_set_Forall (P : K * V -> Prop) k v d :
  Forall P d -> P (k, v) -> Forall P (SseHub.dict_set k v d).
Proof.
  intros Hd Hp. induction d as [| [k1 v1] d IH]; cbn; [repeat constructor; exact Hp |].
  apply Forall_cons in Hd. destruct Hd as [H1 Hd].
  destruct (decide (k1 = k)); constructor; auto.
Qed.

Lemma dict_del_Forall (P : K * V -> Prop) k d :
  Forall P d -> Forall P (SseHub.dict_del k d).
Proof.
  intros Hd. induction d as [| [k1 v1] d IH]; cbn; [constructor |].
  apply Forall_cons in Hd. destruct Hd as [H1 Hd].
  destruct (decide (k1 = k)); [exact Hd | constructor; auto].
Qed.

Lemma dict_get_Forall (P : K * V -> Prop) k v d :
  Forall P d -> SseHub.dict_get k d = Some v -> P (k, v).
Proof.
  intros Hd Hg. apply dict_get_In in Hg. rewrite List.Forall_forall in Hd. now apply Hd.
Qed.

End DictFacts.

Lemma list_remove_length x l l' :
  SseHub.list_remove x l = Some l' -> length l = S (length l').
Proof.
  revert l'. induction l as [| y l IH]; cbn; [discriminate |].
  intros l'. destruct (decide (y = x)).
  - intros H. now injection H as ->.
  - destruct (SseHub.list_remove x l) as [l1 |]; cbn; [| discriminate].
    intros H. injection H as <-. cbn. now rewrite (IH l1).
Qed.

Lemma list_remove_filter x l l' :
  List.NoDup l -> SseHub.list_remove x l = Some l' ->
  In x l /\ l' = List.filter (fun y => negb (bool_decide (y = x))) l.
Proof.
  revert l'. induction l as [| y l IH]; cbn; [discriminate |].
  intros l' Hnd. apply List.NoDup_cons_iff in Hnd. destruct Hnd as [Hn Hnd].
  destruct (decide (y = x)) as [-> |].
  - intros H. injection H as <-. split; [now left |].
    rewrite bool_decide_eq_true_2 by reflexivity. cbn.
    symmetry. apply List.forallb_filter_id. apply forallb_forall.
    intros z Hz. apply negb_true_iff, bool_decide_eq_false_2. congruence.
  - destruct (SseHub.list_remove x l) as [l1 |]; cbn; [| discriminate].
    intros H. injection H as <-. destruct (IH l1 Hnd eq_refl) as [Hin ->].
    split; [now right |].
    now rewrite bool_decide_eq_false_2 by assumption.
Qed.

Lemma list_remove_None x l : SseHub.list_remove x l = None -> ~ In x l.
Proof.
  induction l as [| y l IH]; cbn; [tauto |].
  destruct (decide (y = x)); [discriminate |].
  destruct (SseHub.list_remove x l); cbn; [discriminate |].
  intros _ [Heq | Hin]; [congruence | now apply IH].
Qed.

Lemma sweep_job_length now timeout items :
  forall queues ts n,
    (length (fst (fst (SseHub.sweep_job now timeout items queues ts n))) <= length queues)%nat.
Proof.
  induction items as [| [q last] items IH]; intros queues ts n; cbn; [lia |].
  destruct (SseHub.stale now last timeout); [| apply IH].
  destruct (SseHub.list_remove q queues) as [queues' |] eqn:E; [| apply IH].
  apply list_remove_length in E. specialize (IH queues' (SseHub.dict_del q ts) (n + 1)). lia.
Qed.

Lemma sweep_capacity now timeout snapshot :
  forall h n,
    within_capacity h ->
    Forall (fun e => (length (snd e) <= SseHub.MAX_CONNECTIONS_PER_JOB)%nat) snapshot ->
    within_capacity (snd (SseHub.sweep now timeout snapshot h n)).
Proof.
  induction snapshot as [| [job queues] rest IH]; intros h n Hh Hs; cbn; [exact Hh |].
  apply Forall_cons in Hs. destruct Hs as [Hq Hs]. cbn in Hq.
  destruct (SseHub.dict_get job (SseHub.connection_timestamps h)) as [ts |]; [| now apply IH].
  pose proof (sweep_job_length now timeout ts queues ts n) as Hlen.
  destruct (SseHub.sweep_job now timeout ts queues ts n) as [[queues' ts'] n'].
  cbn in Hlen. apply IH; [| exact Hs].
  unfold within_capacity. cbn.
  destruct queues' as [| q queues'].
  - now apply dict_del_Forall.
  - apply dict_set_Forall; [exact Hh |]. cbn in *. lia.
Qed.

(** X28. The hub never holds more than ten connections for a job.  From a
    hub in which no job has more than ten connections, every operation
    leads to such a hub again; [add_connection] succeeds exactly when the
    job has fewer than ten connections and appends the queue to them, and
    when it raises, the connections of every job are as they were. *)
Theorem hub_never_exceeds_capacity :
  forall h : SseHub.Hub,
    within_capacity h ->
    (forall job_id queue now,
        let r := SseHub.add_connection job_id queue now h in
        within_capacity (snd r)
        /\ (if (length (SseHub.get_connections job_id h) <? 10)%nat
            then fst r = Ok tt
                 /\ SseHub.get_connections job_id (snd r)
                    = (SseHub.get_connections job_id h ++ [queue])%list
            else fst r = Raise SseHub.too_many
                 /\ forall j, SseHub.get_connections j (snd r) = SseHub.get_connections j h))
    /\ (forall job_id queue, within_capacity (SseHub.remove_connection job_id queue h))
    /\ (forall now timeout,
           within_capacity (snd (SseHub.cleanup_stale_connections now timeout h)))
    /\ (forall job_id queue now,
           SseHub.connections (SseHub.update_connection_timestamp job_id queue now h)
           = SseHub.connections h).
Proof.
  intros h Hh. split; [| split; [| split]].
  - intros job q now r. unfold r, SseHub.add_connection, SseHub.get_connections,
      SseHub.dict_mem.
    destruct (SseHub.dict_get job (SseHub.connections h)) as [qs |] eqn:Hg; cbn [default from_option Datatypes.id].
    + rewrite Hg. cbn [default from_option Datatypes.id].
      assert (Hlen : (length qs <= 10)%nat)
        by (apply (dict_get_Forall _ _ _ _ Hh Hg)).
      destruct (length qs <? 10)%nat eqn:Hc.
      * apply Nat.ltb_lt in Hc.
        replace (SseHub.MAX_CONNECTIONS_PER_JOB <=? length qs)%nat with false
          by (symmetry; apply Nat.leb_gt; exact Hc).
        lazy iota beta. cbn [fst snd]. split; [| split; [reflexivity |]].
        -- unfold within_capacity. cbn. apply dict_set_Forall; [exact Hh |].
           cbn. rewrite length_app. cbn. unfold SseHub.MAX_CONNECTIONS_PER_JOB. lia.
        -- cbn. now rewrite dict_get_set_eq.
      * apply Nat.ltb_ge in Hc.
        replace (SseHub.MAX_CONNECTIONS_PER_JOB <=? length qs)%nat with true
          by (symmetry; apply Nat.leb_le; exact Hc).
        lazy iota beta. cbn [fst snd]. split; [exact Hh |]. split; reflexivity.
    + rewrite dict_get_set_eq. cbn.
      split; [| split; [reflexivity |]].
      * unfold within_capacity. cbn.
        apply dict_set_Forall; [| cbn; unfold SseHub.MAX_CONNECTIONS_PER_JOB; lia].
        apply dict_set_Forall; [exact Hh | cbn; lia].
      * now rewrite dict_get_set_eq.
  - intros job q. unfold SseHub.remove_connection, within_capacity. cbn.
    destruct (SseHub.dict_get job (SseHub.connections h)) as [qs |] eqn:Hg; [| exact Hh].
    destruct (SseHub.list_remove q qs) as [qs' |] eqn:Hr; [| exact Hh].
    destruct (length qs' =? 0)%nat; [now apply dict_del_Forall |].
    apply dict_set_Forall; [exact Hh |]. cbn.
    apply list_remove_length in Hr.
    pose proof (dict_get_Forall _ _ _ _ Hh Hg) as Hlen. cbn in Hlen. lia.
  - intros now timeout. unfold SseHub.cleanup_stale_connections.
    now apply sweep_capacity.
  - intros job q now. unfold SseHub.update_connection_timestamp.
    destruct (SseHub.dict_get job (SseHub.connection_timestamps h)) as [d |]; [| reflexivity].
    now destruct (SseHub.dict_mem q d).
Qed.

Lemma filter_filter {A} (f g : A -> bool) (l : list A) :
  List.filter f (List.filter g l) = List.filter (fun x => g x && f x) l.
Proof.
  induction l as [| x l IH]; cbn; [reflexivity |].
  destruct (g x); cbn; [destruct (f x) |]; now rewrite IH.
Qed.

Lemma filter_length_one (f g : SseHub.QueueId -> bool) (q : SseHub.QueueId) l :
  List.NoDup l -> In q l -> f q = true ->
  (forall x, x <> q -> f x = g x) ->
  length (List.filter f l)
  = S (length (List.filter g (List.filter (fun y => negb (bool_decide (y = q))) l))).
Proof.
  induction l as [| y l IH]; cbn; [tauto |].
  intros Hnd Hin Hq Hfg. apply List.NoDup_cons_iff in Hnd. destruct Hnd as [Hn Hnd].
  destruct (decide (y = q)) as [-> | Hne].
  - rewrite Hq, bool_decide_eq_true_2 by reflexivity. cbn. f_equal.
    rewrite filter_filter. f_equal. apply List.filter_ext_in.
    intros x Hx. assert (x <> q) by congruence.
    rewrite bool_decide_eq_false_2 by assumption. cbn. now apply Hfg.
  - rewrite bool_decide_eq_false_2 by assumption. cbn.
    destruct Hin as [Heq | Hin]; [congruence |].
    rewrite (Hfg y Hne). destruct (g y); cbn; rewrite (IH Hnd Hin Hq Hfg); reflexivity.
Qed.

Lemma stale_in_cons_ne now timeout q last items x :
  x <> q -> stale_in now timeout ((q, last) :: items) x = stale_in now timeout items x.
Proof. intros Hne. unfold stale_in. cbn. now rewrite decide_False by congruence. Qed.

Lemma filter_NoDup {A} (f : A -> bool) (l : list A) : List.NoDup l -> List.NoDup (List.filter f l).
Proof. apply List.NoDup_filter. Qed.

(** The inner loop removes the queues whose recorded heartbeat is stale,
    and counts them. *)
Lemma sweep_job_spec now timeout items :
  List.NoDup (List.map fst items) ->
  forall queues ts n,
    List.NoDup queues ->
    fst (fst (SseHub.sweep_job now timeout items queues ts n))
      = List.filter (fun q => negb (stale_in now timeout items q)) queues
    /\ snd (SseHub.sweep_job now timeout items queues ts n)
       = n + Z.of_nat (length (List.filter (stale_in now timeout items) queues)).
Proof.
  induction items as [| [q last] items IH]; intros Hk queues ts n Hq.
  - cbn [SseHub.sweep_job fst snd]. split.
    + symmetry. apply List.forallb_filter_id. apply forallb_forall. reflexivity.
    + replace (List.filter (stale_in now timeout []) queues) with (@nil SseHub.QueueId);
        [cbn; lia |].
      clear Hq. induction queues as [| x l IHl]; cbn; auto.
  - cbn [List.map fst] in Hk. apply List.NoDup_cons_iff in Hk. destruct Hk as [Hn Hk].
    assert (Hq_rest : stale_in now timeout items q = false).
    { unfold stale_in. now rewrite dict_get_None. }
    cbn [SseHub.sweep_job].
    destruct (SseHub.stale now last timeout) eqn:Hs.
    + destruct (SseHub.list_remove q queues) as [queues' |] eqn:Hr.
      * destruct (list_remove_filter q queues queues' Hq Hr) as [Hin ->].
        destruct (IH Hk (List.filter (fun y => negb (bool_decide (y = q))) queues)
                     (SseHub.dict_del q ts) (n + 1) (filter_NoDup _ _ Hq)) as [H1 H2].
        rewrite H1, H2. split.
        -- rewrite filter_filter. apply List.filter_ext. intros x.
           destruct (decide (x = q)) as [-> | Hne].
           ++ rewrite bool_decide_eq_true_2 by reflexivity. cbn.
              unfold stale_in. cbn. rewrite decide_True by reflexivity. now rewrite Hs.
           ++ rewrite bool_decide_eq_false_2 by assumption. cbn.
              now rewrite stale_in_cons_ne.
        -- rewrite (filter_length_one (stale_in now timeout ((q, last) :: items))
                      (stale_in now timeout items) q queues Hq Hin).
           ++ lia.
           ++ unfold stale_in. cbn. now rewrite decide_True.
           ++ intros x Hx. now apply stale_in_cons_ne.
      * apply list_remove_None in Hr.
        destruct (IH Hk queues ts n Hq) as [H1 H2]. rewrite H1, H2.
        split; [| f_equal; f_equal; f_equal]; apply List.filter_ext_in; intros x Hx;
          rewrite stale_in_cons_ne; congruence.
    + destruct (IH Hk queues ts n Hq) as [H1 H2]. rewrite H1, H2.
      assert (Hext : forall x, stale_in now timeout ((q, last) :: items) x
                               = stale_in now timeout items x).
      { intros x. destruct (decide (x = q)) as [-> | Hne]; [| now apply stale_in_cons_ne].
        rewrite Hq_rest. unfold stale_in. cbn. now rewrite decide_True. }
      split; [| f_equal; f_equal; f_equal]; apply List.filter_ext; intros x;
        now rewrite Hext.
Qed.

Lemma dict_get_None_keys {K V : Type} `{EqDecision K} (k : K) (d : list (K * V)) :
  SseHub.dict_get k d = None -> ~ In k (List.map fst d).
Proof.
  induction d as [| [k1 v1] d IH]; cbn; [tauto |].
  destruct (decide (k1 = k)); [discriminate |].
  intros Hg [Heq | Hin]; [congruence | now apply IH].
Qed.

Lemma is_stale_of_timestamps h now timeout job d q :
  SseHub.dict_get job (SseHub.connection_timestamps h) = Some d ->
  is_stale h now timeout job q = stale_in now timeout d q.
Proof. intros Hg. unfold is_stale, stale_in. now rewrite Hg. Qed.

Lemma is_stale_without_timestamps h now timeout job q :
  SseHub.dict_get job (SseHub.connection_timestamps h) = None ->
  is_stale h now timeout job q = false.
Proof. intros Hg. unfold is_stale. now rewrite Hg. Qed.

Lemma sweep_spec now timeout snapshot :
  forall h n,
    List.NoDup (List.map fst snapshot) ->
    Forall (fun e => List.NoDup (snd e)) snapshot ->
    List.NoDup (List.map fst (SseHub.connections h)) ->
    (forall job qs, In (job, qs) snapshot ->
                    SseHub.dict_get job (SseHub.connections h) = Some qs) ->
    (forall job qs d, In (job, qs) snapshot ->
                      SseHub.dict_get job (SseHub.connection_timestamps h) = Some d ->
                      List.NoDup (List.map fst d)) ->
    let r := SseHub.sweep now timeout snapshot h n in
    (forall job qs, In (job, qs) snapshot ->
        SseHub.get_connections job (snd r)
        = List.filter (fun q => negb (is_stale h now timeout job q)) qs)
    /\ (forall job, ~ In job (List.map fst snapshot) ->
          SseHub.dict_get job (SseHub.connections (snd r))
          = SseHub.dict_get job (SseHub.connections h))
    /\ fst r = n + stale_sum h now timeout snapshot.
Proof.
  induction snapshot as [| [job queues] rest IH]; intros h n Hk Hq Hc Hget Hts r.
  - unfold r. cbn. split; [intros job qs [] |].
    split; [reflexivity | unfold stale_sum; cbn; lia].
  - cbn [List.map fst] in Hk. apply List.NoDup_cons_iff in Hk. destruct Hk as [Hn Hk].
    apply Forall_cons in Hq. destruct Hq as [Hq1 Hq]. cbn [snd] in Hq1.
    assert (Hne : forall job' qs', In (job', qs') rest -> job' <> job).
    { intros job' qs' Hin ->. apply Hn. apply in_map_iff. now exists (job, qs'). }
    unfold r. cbn [SseHub.sweep].
    destruct (SseHub.dict_get job (SseHub.connection_timestamps h)) as [d |] eqn:Hd.
    + pose proof (Hts job queues d (or_introl eq_refl) Hd) as Hdk.
      destruct (sweep_job_spec now timeout d Hdk queues d n Hq1) as [Hs1 Hs2].
      destruct (SseHub.sweep_job now timeout d queues d n) as [[queues' d'] n'] eqn:Hsw.
      cbn [fst snd] in Hs1, Hs2.
      set (h1 := SseHub.mkHub _ _).
      assert (Hconn1 : forall j, j <> job ->
                 SseHub.dict_get j (SseHub.connections h1)
                 = SseHub.dict_get j (SseHub.connections h)).
      { intros j Hj. unfold h1. cbn. destruct queues'.
        - apply dict_get_del_ne. congruence.
        - apply dict_get_set_ne. congruence. }
      assert (Hts1 : forall j, j <> job ->
                 SseHub.dict_get j (SseHub.connection_timestamps h1)
                 = SseHub.dict_get j (SseHub.connection_timestamps h)).
      { intros j Hj. unfold h1. cbn. destruct d'.
        - apply dict_get_del_ne. congruence.
        - apply dict_get_set_ne. congruence. }
      assert (Hstale1 : forall j q, j <> job ->
                 is_stale h1 now timeout j q = is_stale h now timeout j q).
      { intros j q Hj. unfold is_stale. now rewrite Hts1. }
      assert (Hjob1 : SseHub.get_connections job h1 = queues').
      { unfold SseHub.get_connections, h1. cbn. destruct queues'.
        - now rewrite dict_get_del_eq.
        - now rewrite dict_get_set_eq. }
      destruct (IH h1 n' Hk Hq) as (I1 & I2 & I3).
      * unfold h1. cbn. destruct queues'; [now apply dict_del_NoDup | now apply dict_set_NoDup].
      * intros j qs Hin. rewrite Hconn1 by (eapply Hne; eauto). apply Hget. now right.
      * intros j qs d0 Hin Hg. rewrite Hts1 in Hg by (eapply Hne; eauto).
        eapply Hts; [right; exact Hin | exact Hg].
      * split; [| split].
        -- intros j qs [Heq | Hin].
           ++ injection Heq as <- <-.
              unfold SseHub.get_connections. rewrite (I2 job Hn).
              fold (SseHub.get_connections job h1). rewrite Hjob1, Hs1.
              apply List.filter_ext. intros q.
              now rewrite (is_stale_of_timestamps h now timeout job d q Hd).
           ++ rewrite (I1 j qs Hin). apply List.filter_ext. intros q.
              rewrite Hstale1; [reflexivity | eapply Hne; eauto].
        -- intros j Hj. cbn in Hj. rewrite I2 by tauto. apply Hconn1. intros ->. apply Hj. now left.
        -- rewrite I3, Hs2. unfold stale_sum. cbn [List.map fold_right fst snd].
           rewrite (List.filter_ext _ _ (fun q => is_stale_of_timestamps h now timeout job d q Hd)).
           assert (Hsum : List.map (fun e => Z.of_nat (length (List.filter
                                       (is_stale h1 now timeout (fst e)) (snd e)))) rest
                          = List.map (fun e => Z.of_nat (length (List.filter
                                       (is_stale h now timeout (fst e)) (snd e)))) rest).
           { apply List.map_ext_in. intros [j qs] Hin. cbn.
             f_equal. f_equal. apply List.filter_ext. intros q.
             apply Hstale1. eapply Hne; eauto. }
           rewrite Hsum. lia.
    + destruct (IH h n Hk Hq Hc) as (I1 & I2 & I3).
      * intros j qs Hin. apply Hget. now right.
      * intros j qs d0 Hin Hg. eapply Hts; [right; exact Hin | exact Hg].
      * split; [| split].
        -- intros j qs [Heq | Hin]; [| now apply I1].
           injection Heq as <- <-.
           unfold SseHub.get_connections. rewrite (I2 job Hn).
           rewrite (Hget job queues (or_introl eq_refl)). cbn.
           symmetry. apply List.forallb_filter_id. apply forallb_forall. intros q _.
           now rewrite is_stale_without_timestamps.
        -- intros j Hj. cbn in Hj. apply I2. tauto.
        -- rewrite I3. unfold stale_sum. cbn [List.map fold_right fst snd].
           replace (List.filter (is_stale h now timeout job) queues) with (@nil SseHub.QueueId);
             [cbn; lia |].
           symmetry. clear -Hd. induction queues as [| x l IHl]; cbn; [reflexivity |].
           now rewrite is_stale_without_timestamps by exact Hd.
Qed.

Lemma sweep_job_timestamps now timeout items :
  forall queues ts n,
    List.NoDup (List.map fst ts) ->
    List.NoDup (List.map fst (snd (fst (SseHub.sweep_job now timeout items queues ts n)))).
Proof.
  induction items as [| [q last] items IH]; intros queues ts n Hts; cbn; [exact Hts |].
  destruct (SseHub.stale now last timeout); [| now apply IH].
  destruct (SseHub.list_remove q queues); [| now apply IH].
  apply IH. now apply dict_del_NoDup.
Qed.

Lemma sweep_well_formed now timeout snapshot :
  forall h n,
    well_formed h ->
    Forall (fun e => List.NoDup (snd e)) snapshot ->
    well_formed (snd (SseHub.sweep now timeout snapshot h n)).
Proof.
  induction snapshot as [| [job queues] rest IH]; intros h n Hw Hq; cbn; [exact Hw |].
  apply Forall_cons in Hq. destruct Hq as [Hq1 Hq]. cbn [snd] in Hq1.
  destruct (SseHub.dict_get job (SseHub.connection_timestamps h)) as [d |] eqn:Hd;
    [| now apply IH].
  destruct Hw as (W1 & W2 & W3 & W4).
  pose proof (dict_get_Forall _ _ _ _ W4 Hd) as Hdk. cbn in Hdk.
  destruct (sweep_job_spec now timeout d Hdk queues d n Hq1) as [Hs1 _].
  pose proof (sweep_job_timestamps now timeout d queues d n Hdk) as Hs3.
  destruct (SseHub.sweep_job now timeout d queues d n) as [[queues' d'] n'].
  cbn [fst snd] in Hs1, Hs3.
  assert (Hq' : List.NoDup queues') by (rewrite Hs1; now apply List.NoDup_filter).
  apply IH; [| exact Hq].
  repeat split; cbn.
  - destruct queues'; [now apply dict_del_NoDup | now apply dict_set_NoDup].
  - destruct queues'; [now apply dict_del_Forall | now apply dict_set_Forall].
  - destruct d'; [now apply dict_del_NoDup | now apply dict_set_NoDup].
  - destruct d'; [now apply dict_del_Forall | now apply dict_set_Forall].
Qed.

Lemma NoDup_snoc (l : list SseHub.QueueId) q :
  List.NoDup l -> ~ In q l -> List.NoDup (l ++ [q]).
Proof.
  intros Hl Hq. apply List.NoDup_app; [exact Hl | repeat constructor; tauto |].
  intros x Hx [-> | []]. tauto.
Qed.

(** X29. The sweep removes exactly the stale connections.  In a hub whose
    dictionaries have distinct keys and in which no queue is registered
    twice for a job, [cleanup_stale_connections] leaves, for every job, the
    connections whose recorded heartbeat is not older than the timeout, in
    their order; it returns the number of connections it removed; and the
    hub it leaves is of the same kind, as is the hub left by registering a
    queue that is new for the job, by removing a connection and by
    recording a heartbeat. *)
Theorem cleanup_removes_exactly_the_stale :
  forall (h : SseHub.Hub),
    well_formed h ->
    (forall (current_time : Q) (timeout_seconds : Z),
        let r := SseHub.cleanup_stale_connections current_time timeout_seconds h in
        (forall job_id,
            SseHub.get_connections job_id (snd r)
            = List.filter (fun q => negb (is_stale h current_time timeout_seconds job_id q))
                          (SseHub.get_connections job_id h))
        /\ fst r = stale_count h current_time timeout_seconds
        /\ well_formed (snd r))
    /\ (forall job_id queue now,
           ~ In queue (SseHub.get_connections job_id h) ->
           well_formed (snd (SseHub.add_connection job_id queue now h)))
    /\ (forall job_id queue, well_formed (SseHub.remove_connection job_id queue h))
    /\ (forall job_id queue now,
           well_formed (SseHub.update_connection_timestamp job_id queue now h)).
Proof.
  intros h Hw. pose proof Hw as (W1 & W2 & W3 & W4).
  split; [| split; [| split]].
  - intros now timeout r. unfold r, SseHub.cleanup_stale_connections.
    destruct (sweep_spec now timeout (SseHub.connections h) h 0 W1 W2 W1) as (S1 & S2 & S3).
    + intros job qs Hin. now apply dict_get_of_In.
    + intros job qs d _ Hg. apply (dict_get_Forall _ _ _ _ W4 Hg).
    + split; [| split].
      * intros job. unfold SseHub.get_connections at 2.
        destruct (SseHub.dict_get job (SseHub.connections h)) as [qs |] eqn:Hg.
        -- apply S1. now apply dict_get_In.
        -- unfold SseHub.get_connections. rewrite S2, Hg; [reflexivity |].
           now apply dict_get_None_keys.
      * rewrite S3. unfold stale_count. lia.
      * now apply sweep_well_formed.
  - intros job q now Hfresh. unfold SseHub.add_connection, SseHub.get_connections,
      SseHub.dict_mem in *.
    destruct (SseHub.dict_get job (SseHub.connections h)) as [qs |] eqn:Hg;
      cbn [default from_option Datatypes.id] in *.
    + rewrite Hg. cbn [default from_option Datatypes.id].
      pose proof (dict_get_Forall _ _ _ _ W2 Hg) as Hqs. cbn in Hqs.
      destruct (SseHub.MAX_CONNECTIONS_PER_JOB <=? length qs)%nat; cbn [snd]; [exact Hw |].
      repeat split; cbn.
      * now apply dict_set_NoDup.
      * apply dict_set_Forall; [exact W2 | cbn; now apply NoDup_snoc].
      * apply dict_set_NoDup.
        destruct (SseHub.dict_get job (SseHub.connection_timestamps h));
          [exact W3 | now apply dict_set_NoDup].
      * destruct (SseHub.dict_get job (SseHub.connection_timestamps h)) as [d |] eqn:Hd.
        -- rewrite Hd. cbn. apply dict_set_Forall; [exact W4 |]. cbn.
           apply dict_set_NoDup. apply (dict_get_Forall _ _ _ _ W4 Hd).
        -- rewrite dict_get_set_eq. cbn.
           apply dict_set_Forall; [apply dict_set_Forall; [exact W4 | constructor] |].
           cbn. repeat constructor. tauto.
    + rewrite dict_get_set_eq. cbn.
      repeat split; cbn.
      * apply dict_set_NoDup. now apply dict_set_NoDup.
      * apply dict_set_Forall; [apply dict_set_Forall; [exact W2 | constructor] |].
        cbn. repeat constructor. tauto.
      * apply dict_set_NoDup.
        destruct (SseHub.dict_get job (SseHub.connection_timestamps h));
          [exact W3 | now apply dict_set_NoDup].
      * destruct (SseHub.dict_get job (SseHub.connection_timestamps h)) as [d |] eqn:Hd.
        -- rewrite Hd. cbn. apply dict_set_Forall; [exact W4 |]. cbn.
           apply dict_set_NoDup. apply (dict_get_Forall _ _ _ _ W4 Hd).
        -- rewrite dict_get_set_eq. cbn.
           apply dict_set_Forall; [apply dict_set_Forall; [exact W4 | constructor] |].
           cbn. repeat constructor. tauto.
  - intros job q. unfold SseHub.remove_connection. repeat split; cbn.
    + destruct (SseHub.dict_get job (SseHub.connections h)) as [qs |]; [| exact W1].
      destruct (SseHub.list_remove q qs) as [qs' |]; [| exact W1].
      destruct (length qs' =? 0)%nat; [now apply dict_del_NoDup | now apply dict_set_NoDup].
    + destruct (SseHub.dict_get job (SseHub.connections h)) as [qs |] eqn:Hg; [| exact W2].
      destruct (SseHub.list_remove q qs) as [qs' |] eqn:Hr; [| exact W2].
      pose proof (dict_get_Forall _ _ _ _ W2 Hg) as Hqs. cbn in Hqs.
      destruct (list_remove_filter q qs qs' Hqs Hr) as [_ ->].
      destruct (length _ =? 0)%nat; [now apply dict_del_Forall |].
      apply dict_set_Forall; [exact W2 | cbn; now apply List.NoDup_filter].
    + destruct (SseHub.dict_get job (SseHub.connection_timestamps h)) as [d |]; [| exact W3].
      destruct (SseHub.dict_mem q d); [| exact W3].
      destruct (SseHub.dict_del q d); [now apply dict_del_NoDup | now apply dict_set_NoDup].
    + destruct (SseHub.dict_get job (SseHub.connection_timestamps h)) as [d |] eqn:Hd;
        [| exact W4].
      destruct (SseHub.dict_mem q d); [| exact W4].
      pose proof (dict_get_Forall _ _ _ _ W4 Hd) as Hdk. cbn in Hdk.
      pose proof (dict_del_NoDup q d Hdk) as Hdel.
      destruct (SseHub.dict_del q d); [now apply dict_del_Forall |].
      now apply dict_set_Forall.
  - intros job q now. unfold SseHub.update_connection_timestamp.
    destruct (SseHub.dict_get job (SseHub.connection_timestamps h)) as [d |] eqn:Hd;
      [| exact Hw].
    destruct (SseHub.dict_mem q d); [| exact Hw].
    repeat split; cbn; auto.
    + now apply dict_set_NoDup.
    + apply dict_set_Forall; [exact W4 |]. cbn. apply dict_set_NoDup.
      apply (dict_get_Forall _ _ _ _ W4 Hd).
Qed.

Lemma hub_never_exceeds_capacity_witness :
  let h := two_connections_hub in
  (forall job_id queue now,
      let r := SseHub.add_connection job_id queue now h in
      within_capacity (snd r)
      /\ (if (length (SseHub.get_connections job_id h) <? 10)%nat
          then fst r = Ok tt
               /\ SseHub.get_connections job_id (snd r)
                  = (SseHub.get_connections job_id h ++ [queue])%list
          else fst r = Raise SseHub.too_many
               /\ forall j, SseHub.get_connections j (snd r) = SseHub.get_connections j h))
  /\ (forall job_id queue, within_capacity (SseHub.remove_connection job_id queue h))
  /\ (forall now timeout,
         within_capacity (snd (SseHub.cleanup_stale_connections now timeout h)))
  /\ (forall job_id queue now,
         SseHub.connections (SseHub.update_connection_timestamp job_id queue now h)
         = SseHub.connections h).
Proof.
  apply (hub_never_exceeds_capacity two_connections_hub).
  repeat constructor; cbn; lia.
Defined.

Lemma cleanup_removes_exactly_the_stale_witness :
  let h := two_connections_hub in
  ((forall (current_time : Q) (timeout_seconds : Z),
       let r := SseHub.cleanup_stale_connections current_time timeout_seconds h in
       (forall job_id,
           SseHub.get_connections job_id (snd r)
           = List.filter (fun q => negb (is_stale h current_time timeout_seconds job_id q))
                         (SseHub.get_connections job_id h))
       /\ fst r = stale_count h current_time timeout_seconds
       /\ well_formed (snd r))
   /\ (forall job_id queue now,
          ~ In queue (SseHub.get_connections job_id h) ->
          well_formed (snd (SseHub.add_connection job_id queue now h)))
   /\ (forall job_id queue, well_formed (SseHub.remove_connection job_id queue h))
   /\ (forall job_id queue now,
          well_formed (SseHub.update_connection_timestamp job_id queue now h)))
  /\ SseHub.get_connections J h = [0%nat; 1%nat]
  /\ SseHub.cleanup_stale_connections (inject_Z 130) 60 h
     = (1, SseHub.mkHub [(J, [1%nat])] [(J, [(1%nat, inject_Z 100)])]).
Proof.
  split; [| split; vm_compute; reflexivity].
  apply (cleanup_removes_exactly_the_stale two_connections_hub).
  vm_compute. repeat split; repeat constructor; cbn; intuition congruence.
Defined.

(** ** Validation of the prompt *)

Section PromptFacts.

Variable Char : Type.
Variable isspace : Char -> bool.

Lemma lstrip_spaces (pre s : list Char) :
  forallb isspace pre = true ->
  Validation.lstrip isspace (pre ++ s) = Validation.lstrip isspace s.
Proof.
  induction pre as [| c pre IH]; cbn; [reflexivity |].
  intros H. apply andb_true_iff in H. destruct H as [Hc H]. rewrite Hc. now apply IH.
Qed.

Lemma lstrip_all_spaces (s : list Char) :
  forallb isspace s = true -> Validation.lstrip isspace s = [].
Proof.
  intros H. rewrite <- (app_nil_r s). rewrite lstrip_spaces by exact H. reflexivity.
Qed.

Lemma lstrip_app (s post : list Char) :
  forallb isspace s = false ->
  Validation.lstrip isspace (s ++ post) = (Validation.lstrip isspace s ++ post)%list.
Proof.
  induction s as [| c s IH]; cbn; [discriminate |].
  destruct (isspace c); cbn; [exact IH | reflexivity].
Qed.

Lemma rstrip_spaces (s post : list Char) :
  forallb isspace post = true ->
  Validation.rstrip isspace (s ++ post) = Validation.rstrip isspace s.
Proof.
  intros H. unfold Validation.rstrip. rewrite rev_app_distr.
  rewrite lstrip_spaces; [reflexivity |].
  rewrite forallb_forall in *. intros x Hx. apply H. now apply in_rev.
Qed.

Lemma strip_padding (pre s post : list Char) :
  forallb isspace pre = true -> forallb isspace post = true ->
  Validation.strip isspace (pre ++ s ++ post) = Validation.strip isspace s.
Proof.
  intros Hpre Hpost. unfold Validation.strip. rewrite lstrip_spaces by exact Hpre.
  destruct (forallb isspace s) eqn:Hs.
  - rewrite (lstrip_all_spaces s Hs), (lstrip_spaces s post Hs).
    now rewrite (lstrip_all_spaces post Hpost).
  - rewrite lstrip_app by exact Hs. now apply rstrip_spaces.
Qed.

(** X30. Leading and trailing whitespace does not count for the length of a
    prompt.  A non-empty prompt is accepted exactly when the number of
    characters that remain after stripping lies between the two bounds, and
    padding it with whitespace on either side changes neither the verdict
    nor the message; the empty prompt is refused as missing. *)
Theorem validate_prompt_ignores_padding :
  forall (prompt pre post : list Char) (min_length max_length : Z),
    prompt <> [] ->
    forallb isspace pre = true -> forallb isspace post = true ->
    Validation.validate_prompt isspace (pre ++ prompt ++ post) min_length max_length
    = Validation.validate_prompt isspace prompt min_length max_length
    /\ (Validation.validate_prompt isspace prompt min_length max_length = Ok tt
        <-> min_length <= Z.of_nat (length (Validation.strip isspace prompt)) <= max_length)
    /\ Validation.validate_prompt isspace [] min_length max_length
       = Raise (ValidationError "Prompt is required" None).
Proof.
  intros prompt pre post lo hi Hne Hpre Hpost. split; [| split; [| reflexivity]].
  - unfold Validation.validate_prompt.
    rewrite (strip_padding pre prompt post Hpre Hpost).
    destruct prompt as [| c p]; [congruence |].
    destruct (pre ++ (c :: p) ++ post)%list eqn:E; [| reflexivity].
    apply app_eq_nil in E. destruct E as [_ E]. discriminate.
  - unfold Validation.validate_prompt. destruct prompt as [| c p]; [congruence |].
    destruct (_ <? lo) eqn:E1; [apply Z.ltb_lt in E1 | apply Z.ltb_ge in E1].
    + split; [discriminate | lia].
    + destruct (hi <? _) eqn:E2; [apply Z.ltb_lt in E2 | apply Z.ltb_ge in E2].
      * split; [discriminate | lia].
      * split; [lia | reflexivity].
Qed.

End PromptFacts.

Lemma validate_prompt_ignores_padding_witness :
  let padded := ([" "; " "] ++ sixty_letters ++ [" "])%char%list in
  Validation.validate_prompt is_blank padded 50 500
  = Validation.validate_prompt is_blank sixty_letters 50 500
  /\ (Validation.validate_prompt is_blank sixty_letters 50 500 = Ok tt
      <-> 50 <= Z.of_nat (length (Validation.strip is_blank sixty_letters)) <= 500)
  /\ Validation.validate_prompt is_blank [] 50 500
     = Raise (ValidationError "Prompt is required" None).
Proof.
  apply (validate_prompt_ignores_padding Ascii.ascii is_blank sixty_letters
           [" "; " "]%char [" "]%char 50 500);
    [discriminate | reflexivity | reflexivity].
Defined.

(** ** The policies at a broker outage *)

Lemma rate_limiter_failure_policy_witness :
  check_rate_limit development "u" noon world_with_outage
    = (Ok tt, set_faults [] world_with_outage)
  /\ check_rate_limit (mkSettings "production" true) "u" noon world_with_outage
     = (Raise (RateLimitError "Rate limit service unavailable" 60
                              (Some "RATE_LIMIT_SERVICE_UNAVAILABLE")),
        set_faults [] world_with_outage).
Proof.
  split.
  - apply (proj2 (rate_limiter_failure_policy development "u" noon world_with_outage)
             outage []); reflexivity.
  - apply (proj2 (rate_limiter_failure_policy (mkSettings "production" true) "u" noon
                    world_with_outage) outage []); reflexivity.
Defined.

Lemma remove_job_reports_true_witness :
  remove_job J world_with_outage = (Ok false, set_faults [] world_with_outage)
  /\ fst (remove_job J queued_world) = Ok true
  /\ kv (snd (remove_job J queued_world)) = delete (payload_key J) (kv queued_world).
Proof.
  split.
  - apply (proj2 (proj2 (remove_job_reports_true J world_with_outage)) outage []).
    reflexivity.
  - destruct (proj1 (proj2 (remove_job_reports_true J queued_world)) eq_refl)
      as (H1 & H2 & _).
    split; [exact H1 | exact H2].
Defined.
